(** * weatherbanno: a shallow embedding of [weatherbanno.go]

    The service answers [GET /weather/lat/{lat}/lon/{lon}] by calling the
    OpenWeather "onecall" endpoint and reshaping its JSON answer.  This file
    embeds the program (types, the three transformation functions, the
    [latLonContext] middleware, the route table and [main]) together with
    models of the Go library functions it calls ([strconv.ParseFloat],
    [regexp] as used by chi's route patterns, [encoding/json], [time]), and
    proves the properties of the specification against that embedding. *)

From Stdlib Require Import ZArith String Ascii List Bool Lia.
From Stdlib Require Import Floats.SpecFloat.
From stdpp Require Import base gmap strings.
Import ListNotations.

Local Open Scope string_scope.
Local Open Scope list_scope.
Local Open Scope Z_scope.

(* ===================================================================== *)
(** * Go values *)
(* ===================================================================== *)

(** ** Slices

    A Go slice is either [nil] or a window on a backing array.  [elems] are
    the [len] visible elements; [spare] are the elements that the backing
    array holds after them, up to its capacity.  The distinction between
    [nil] and an empty slice is observable through [json.Marshal] (a null
    against an empty array), and the spare elements are observable through
    [json.Unmarshal], which decodes into whatever the backing array
    holds. *)
Module GoSlice.

Inductive slice (A : Type) : Type :=
| NilSlice
| Slice (elems : list A) (spare : list A).
Arguments NilSlice {A}.
Arguments Slice {A} elems spare.

Section Ops.
Context {A : Type}.

Definition items (s : slice A) : list A :=
  match s with NilSlice => [] | Slice l _ => l end.

Definition backing (s : slice A) : list A :=
  match s with NilSlice => [] | Slice l sp => l ++ sp end.

Definition len (s : slice A) : nat := length (items s).

Definition is_nil (s : slice A) : bool :=
  match s with NilSlice => true | Slice _ _ => false end.

(** [make([]T, 0, n)]: a non-nil slice of length 0 on [n] zero values. *)
Definition make0 (zero : A) (n : nat) : slice A := Slice [] (repeat zero n).

(** [append(s, x)].  Within capacity the next slot of the backing array
    is overwritten; otherwise the elements move to a new array (whose
    capacity beyond [len] the language leaves to the runtime: it is not
    modelled, the new array is taken full). *)
Definition append1 (s : slice A) (x : A) : slice A :=
  match s with
  | NilSlice => Slice [x] []
  | Slice l [] => Slice (l ++ [x]) []
  | Slice l (_ :: sp) => Slice (l ++ [x]) sp
  end.

(** [append(s, xs...)] *)
Definition append (s : slice A) (xs : list A) : slice A :=
  fold_left append1 xs s.
End Ops.

End GoSlice.
Import GoSlice.

(** ** Floating point

    [float32] and [float64] values are IEEE 754 binary32 and binary64
    numbers, represented by the standard library's [spec_float] with the
    precision and exponent bound of the format.  Comparisons are the IEEE
    ones ([SFltb], [SFleb]): every comparison with a NaN is false. *)
Module Float.

Definition float32 := spec_float.
Definition float64 := spec_float.

Definition prec32 : Z := 24.
Definition emax32 : Z := 128.
Definition prec64 : Z := 53.
Definition emax64 : Z := 1024.

Definition valid32 (f : float32) : bool := valid_binary prec32 emax32 f.

(** An integer constant converted to [float32] (exact for the constants
    of this program). *)
Definition f32_of_Z (z : Z) : float32 := binary_normalize prec32 emax32 z 0 false.

Definition zero32 : float32 := S754_zero false.

Definition is_finite (f : spec_float) : bool :=
  match f with
  | S754_zero _ | S754_finite _ _ _ => true
  | _ => false
  end.

(** The value of a finite [float32] counted in units of [2^-149], the
    least positive [float32]: an integer.  (Infinities and NaN have no
    value; they are given 0.) *)
Definition units32 (f : float32) : Z :=
  match f with
  | S754_finite s m e => (if s then -1 else 1) * Z.pos m * 2 ^ (e + 149)
  | _ => 0
  end.

(** A whole number of kelvins in the same units. *)
Definition kelvin (k : Z) : Z := k * 2 ^ 149.

End Float.
Import Float.

(* ===================================================================== *)
(** * Library models *)
(* ===================================================================== *)

(** ** Characters *)
Module Chars.

Definition code (c : ascii) : N := N_of_ascii c.

(** [lo <= c && c <= hi] on bytes. *)
Definition between (lo hi c : ascii) : bool :=
  ((code lo <=? code c) && (code c <=? code hi))%N.

Definition is_digit (c : ascii) : bool := between "0" "9" c.

Definition digit_val (c : ascii) : Z := Z.of_N (code c) - 48.

Fixpoint all_digits (s : string) : bool :=
  match s with
  | EmptyString => true
  | String c s' => is_digit c && all_digits s'
  end.

(** The number a string of decimal digits denotes, continuing from [acc]. *)
Fixpoint digits_val (acc : Z) (s : string) : Z :=
  match s with
  | EmptyString => acc
  | String c s' => digits_val (acc * 10 + digit_val c) s'
  end.

Definition quote : ascii := "034".
Definition newline : ascii := "010".

End Chars.
Import Chars.

(** ** Regular expressions, as chi's route patterns use them

    A route pattern [{name:re}] is compiled by chi to the Go regexp
    [^re$] and tried on one whole path segment with [MatchString].  The
    fragment of the syntax that the route table uses is embedded here:
    character classes given by ranges, literals, concatenation, [?] and
    [+].  The matcher works by derivatives. *)
Module Regexp.

Inductive regex : Type :=
| Void                                  (* matches nothing *)
| Eps                                   (* matches the empty string *)
| Class (ranges : list (ascii * ascii)) (* [a-bc-d...], and a literal byte *)
| Cat (r1 r2 : regex)
| Alt (r1 r2 : regex)
| Star (r : regex).

Definition Lit (c : ascii) : regex := Class [(c, c)].
(** [r?] and [r+] *)
Definition Opt (r : regex) : regex := Alt Eps r.
Definition Plus (r : regex) : regex := Cat r (Star r).

Definition in_class (ranges : list (ascii * ascii)) (c : ascii) : bool :=
  existsb (fun lh => between (fst lh) (snd lh) c) ranges.

Fixpoint nullable (r : regex) : bool :=
  match r with
  | Void => false
  | Eps => true
  | Class _ => false
  | Cat r1 r2 => nullable r1 && nullable r2
  | Alt r1 r2 => nullable r1 || nullable r2
  | Star _ => true
  end.

Fixpoint deriv (c : ascii) (r : regex) : regex :=
  match r with
  | Void => Void
  | Eps => Void
  | Class rs => if in_class rs c then Eps else Void
  | Cat r1 r2 =>
      if nullable r1 then Alt (Cat (deriv c r1) r2) (deriv c r2)
      else Cat (deriv c r1) r2
  | Alt r1 r2 => Alt (deriv c r1) (deriv c r2)
  | Star r1 => Cat (deriv c r1) (Star r1)
  end.

(** [regexp.MustCompile("^" + re + "$").MatchString(s)] *)
Fixpoint MatchString (r : regex) (s : string) : bool :=
  match s with
  | EmptyString => nullable r
  | String c s' => MatchString (deriv c r) s'
  end.

(** The language of a regular expression. *)
Inductive Matches : regex -> string -> Prop :=
| MEps : Matches Eps ""
| MClass rs c : in_class rs c = true -> Matches (Class rs) (String c "")
| MCat r1 r2 s1 s2 : Matches r1 s1 -> Matches r2 s2 -> Matches (Cat r1 r2) (s1 +:+ s2)
| MAltL r1 r2 s : Matches r1 s -> Matches (Alt r1 r2) s
| MAltR r1 r2 s : Matches r2 s -> Matches (Alt r1 r2) s
| MStar0 r : Matches (Star r) ""
| MStarS r c s1 s2 :
    Matches r (String c s1) -> Matches (Star r) s2 ->
    Matches (Star r) (String c s1 +:+ s2).

(** [[-+]], [[0-9]] and [\.] *)
Definition sign_class : regex := Class [("-"%char, "-"%char); ("+"%char, "+"%char)].
Definition digit_class : regex := Class [("0"%char, "9"%char)].
Definition dot : regex := Lit ".".

(** [[-+]?[0-9]+], the pattern of the [/test2] route. *)
Definition signed_integer : regex := Cat (Opt sign_class) (Plus digit_class).

(** [[-+]?[0-9]+(?:\.[0-9]+)?], the pattern of the [/weather] route. *)
Definition signed_decimal : regex :=
  Cat (Opt sign_class) (Cat (Plus digit_class) (Opt (Cat dot (Plus digit_class)))).

End Regexp.

(** ** strconv

    [ParseFloat] follows the Go implementation: [special] recognises the
    infinities and NaN, [readFloat] scans sign, mantissa, optional point
    and optional exponent (decimal, or hexadecimal with a [0x] prefix and a
    mandatory [p] exponent; underscores checked by [underscoreOK]), and the
    scanned number is then rounded to the nearest float of the requested
    size, ties to even.  A syntactically valid number that rounds to an
    infinity is reported as [ErrRange].

    Go scans the first 19 significant digits into a [uint64] and keeps a
    truncation flag for the rest, falling back on an arbitrary-precision
    decimal when that is not enough; every path yields the correctly
    rounded value.  The model keeps the exact mantissa and rounds once,
    with the standard library's IEEE 754 operations. *)
Module Strconv.

Inductive NumError := ErrSyntax | ErrRange.

(** [lower(c)] is [c | ('x' - 'X')]. *)
Definition lower (c : ascii) : ascii :=
  match c with
  | Ascii b0 b1 b2 b3 b4 _ b6 b7 => Ascii b0 b1 b2 b3 b4 true b6 b7
  end.

Fixpoint commonPrefixLenIgnoreCase (s prefix : string) : nat :=
  match s, prefix with
  | String c s', String p prefix' =>
      let c' := if between "A" "Z" c then ascii_of_N (code c + 32) else c in
      if Ascii.eqb c' p then S (commonPrefixLenIgnoreCase s' prefix') else O
  | _, _ => O
  end.

(** [special]: the value and the number of bytes consumed. *)
Definition special (s : string) : option (spec_float * nat) :=
  let infinity (neg : bool) (nsign : nat) (s : string) :=
    let n := commonPrefixLenIgnoreCase s "infinity" in
    let n := if ((3 <? n) && (n <? 8))%nat then 3%nat else n in
    if ((n =? 3) || (n =? 8))%nat then Some (S754_infinity neg, (nsign + n)%nat)
    else None in
  match s with
  | EmptyString => None
  | String c s' =>
      if Ascii.eqb c "+" then infinity false 1%nat s'
      else if Ascii.eqb c "-" then infinity true 1%nat s'
      else if Ascii.eqb c "i" || Ascii.eqb c "I" then infinity false 0%nat s
      else if Ascii.eqb c "n" || Ascii.eqb c "N" then
        if (commonPrefixLenIgnoreCase s "nan" =? 3)%nat then Some (S754_nan, 3%nat)
        else None
      else None
  end.

(** The state of [readFloat]'s mantissa loop: the digits read so far as
    a number, how many of them followed the point, and the flags. *)
Record mant_state := {
  mantissa    : N;
  frac_digits : Z;
  sawdot      : bool;
  sawdigits   : bool;
  underscores : bool
}.

Definition mant_init : mant_state :=
  {| mantissa := 0; frac_digits := 0; sawdot := false; sawdigits := false;
     underscores := false |}.

Definition push_digit (base : N) (d : N) (st : mant_state) : mant_state :=
  {| mantissa := (mantissa st * base + d)%N;
     frac_digits := if sawdot st then frac_digits st + 1 else frac_digits st;
     sawdot := sawdot st; sawdigits := true; underscores := underscores st |}.

Definition set_dot (st : mant_state) : mant_state :=
  {| mantissa := mantissa st; frac_digits := frac_digits st;
     sawdot := true; sawdigits := sawdigits st; underscores := underscores st |}.

Definition set_underscore (st : mant_state) : mant_state :=
  {| mantissa := mantissa st; frac_digits := frac_digits st;
     sawdot := sawdot st; sawdigits := sawdigits st; underscores := true |}.

(** The [loop:] of [readFloat]; returns the state and the unread rest. *)
Fixpoint scan_mantissa (hex : bool) (s : string) (st : mant_state)
  : mant_state * string :=
  match s with
  | EmptyString => (st, s)
  | String c s' =>
      if Ascii.eqb c "_" then scan_mantissa hex s' (set_underscore st)
      else if Ascii.eqb c "." then
        if sawdot st then (st, s) else scan_mantissa hex s' (set_dot st)
      else if is_digit c then
        scan_mantissa hex s' (push_digit (if hex then 16 else 10) (code c - 48) st)
      else if hex && between "a" "f" (lower c) then
        scan_mantissa hex s' (push_digit 16 (code (lower c) - 97 + 10) st)
      else (st, s)
  end.

(** The digits of an exponent: [if e < 10000 { e = e*10 + digit }]. *)
Fixpoint scan_exp_digits (s : string) (e : Z) (us : bool) : Z * bool * string :=
  match s with
  | EmptyString => (e, us, s)
  | String c s' =>
      if Ascii.eqb c "_" then scan_exp_digits s' e true
      else if is_digit c then
        scan_exp_digits s' (if e <? 10000 then e * 10 + digit_val c else e) us
      else (e, us, s)
  end.

(** The optional exponent: [None] is a syntax error. *)
Definition scan_exponent (hex : bool) (s : string) : option (Z * bool * string) :=
  let expChar : ascii := if hex then "p"%char else "e"%char in
  match s with
  | String c s1 =>
      if Ascii.eqb (lower c) expChar then
        match s1 with
        | EmptyString => None
        | String c1 s2 =>
            let '(esign, s3) :=
              if Ascii.eqb c1 "+" then (1, s2)
              else if Ascii.eqb c1 "-" then (-1, s2)
              else (1, s1) in
            match s3 with
            | String d _ =>
                if is_digit d then
                  let '(e, us, rest) := scan_exp_digits s3 0 false in
                  Some (e * esign, us, rest)
                else None
            | EmptyString => None
            end
        end
      else if hex then None else Some (0, false, s)
  | EmptyString => if hex then None else Some (0, false, s)
  end.

(** [underscoreOK]: underscores only between digits (or after the base
    prefix).  [last] is ["^"], ["0"], ["_"] or ["!"] as in the source. *)
Fixpoint underscore_loop (hex : bool) (s : string) (last : ascii) : bool :=
  match s with
  | EmptyString => negb (Ascii.eqb last "_")
  | String c s' =>
      if is_digit c || (hex && between "a" "f" (lower c)) then
        underscore_loop hex s' "0"%char
      else if Ascii.eqb c "_" then
        if Ascii.eqb last "0" then underscore_loop hex s' "_"%char else false
      else if Ascii.eqb last "_" then false
      else underscore_loop hex s' "!"%char
  end.

Definition underscoreOK (s : string) : bool :=
  let s := match s with
           | String c s' => if Ascii.eqb c "-" || Ascii.eqb c "+" then s' else s
           | EmptyString => s
           end in
  match s with
  | String "0" (String x s') =>
      if Ascii.eqb (lower x) "b" || Ascii.eqb (lower x) "o" || Ascii.eqb (lower x) "x"
      then underscore_loop (Ascii.eqb (lower x) "x") s' "0"
      else underscore_loop false s "^"
  | _ => underscore_loop false s "^"
  end.

(** What [readFloat] returns when [ok]: the number is
    [(-1)^neg * mant * base^exp], base 2 when [hex] and 10 otherwise. *)
Record scanned := {
  neg  : bool;
  hex  : bool;
  mant : N;
  exp  : Z;
  rest : string
}.

(** The optional sign, and the optional base prefix [0x], which counts
    only when something follows it. *)
Definition read_sign (s : string) : bool * string :=
  match s with
  | String c s' =>
      if Ascii.eqb c "+" then (false, s')
      else if Ascii.eqb c "-" then (true, s')
      else (false, s)
  | EmptyString => (false, s)
  end.

Definition read_base_prefix (s : string) : bool * string :=
  match s with
  | String "0" (String x (String c s')) =>
      if Ascii.eqb (lower x) "x" then (true, String c s') else (false, s)
  | _ => (false, s)
  end.

Definition readFloat (s : string) : option scanned :=
  match s with
  | EmptyString => None
  | String _ _ =>
      let '(neg, s1) := read_sign s in
      let '(hex, s2) := read_base_prefix s1 in
      let '(st, s3) := scan_mantissa hex s2 mant_init in
      if negb (sawdigits st) then None
      else
        match scan_exponent hex s3 with
        | None => None
        | Some (e, us, s4) =>
            let exp := if hex then e - 4 * frac_digits st else e - frac_digits st in
            if (underscores st || us)
               && negb (underscoreOK (substring 0 (String.length s - String.length s4) s))
            then None
            else Some {| neg := neg; hex := hex; mant := mantissa st;
                         exp := if (mantissa st =? 0)%N then 0 else exp; rest := s4 |}
        end
  end.

(** Rounding to nearest, ties to even, to the format [(prec, emax)]; an
    overflow gives an infinity. *)
Definition round_scanned (prec emax : Z) (x : scanned) : spec_float :=
  match mant x with
  | N0 => S754_zero (neg x)
  | Npos m =>
      if hex x then binary_round prec emax (neg x) m (exp x)
      else if 0 <=? exp x then
        binary_round prec emax (neg x) (m * Z.to_pos (10 ^ exp x)) 0
      else
        SFdiv prec emax (S754_finite (neg x) m 0)
                        (S754_finite false (Z.to_pos (10 ^ (- exp x))) 0)
  end.

Definition is_infinity (f : spec_float) : bool :=
  match f with S754_infinity _ => true | _ => false end.

(** [ParseFloat(s, bitSize)]: the value and the error.  With
    [bitSize = 32] the value is a [float32] (returned widened, which
    changes nothing); any other size means 64. *)
Definition ParseFloat (s : string) (bitSize : Z) : spec_float * option NumError :=
  let '(prec, emax) := if bitSize =? 32 then (prec32, emax32) else (prec64, emax64) in
  match special s with
  | Some (f, n) =>
      if (n =? String.length s)%nat then (f, None) else (S754_zero false, Some ErrSyntax)
  | None =>
      match readFloat s with
      | None => (S754_zero false, Some ErrSyntax)
      | Some x =>
          match rest x with
          | EmptyString =>
              let f := round_scanned prec emax x in
              (f, if is_infinity f then Some ErrRange else None)
          | String _ _ => (S754_zero false, Some ErrSyntax)
          end
      end
  end.

(** [ParseInt(s, 10, 64)] *)
Definition ParseInt64 (s : string) : Z * option NumError :=
  match s with
  | EmptyString => (0, Some ErrSyntax)
  | String c s' =>
      let '(neg, ds) :=
        if Ascii.eqb c "+" then (false, s')
        else if Ascii.eqb c "-" then (true, s')
        else (false, s) in
      match ds with
      | EmptyString => (0, Some ErrSyntax)
      | String _ _ =>
          if negb (all_digits ds) then (0, Some ErrSyntax)
          else
            let un := digits_val 0 ds in
            let cutoff := 2 ^ 63 in
            if negb neg && (cutoff <=? un) then (cutoff - 1, Some ErrRange)
            else if neg && (cutoff <? un) then (- cutoff, Some ErrRange)
            else (if neg then - un else un, None)
      end
  end.

End Strconv.
Import Strconv.

(** ** reflect.StructTag and encoding/json

    [json.Unmarshal] first checks that its input is well-formed JSON text
    ([checkValid]) and only then decodes it into the target value; the
    model starts after the syntax check, from the JSON value the text
    denotes.  Strings are byte strings (JSON text is UTF-8). *)
Module Json.

#[local] Set Warnings "-register-all".
Inductive value : Type :=
| Null
| Bool (b : bool)
| Number (literal : string)       (* the number as written *)
| Str (s : string)
| Array (elements : list value)
| Object (members : list (string * value)).

(** The bytes handed to [Unmarshal]. *)
Inductive payload : Type :=
| Malformed                       (* rejected by [checkValid] *)
| WellFormed (v : value).

Inductive error : Type :=
| SyntaxError
| UnmarshalTypeError (Value : string) (Type_ : string).

(** *** Struct tags *)

Fixpoint skip_spaces (s : string) : string :=
  match s with
  | String c s' => if Ascii.eqb c " " then skip_spaces s' else s
  | EmptyString => s
  end.

(** The key of a tag: bytes up to a space, colon, quote or control. *)
Fixpoint scan_key (s : string) : string * string :=
  match s with
  | String c s' =>
      if (code " " <? code c)%N && negb (Ascii.eqb c ":")
         && negb (Ascii.eqb c quote) && negb (Ascii.eqb c "127")
      then let '(k, r) := scan_key s' in (String c k, r)
      else (EmptyString, s)
  | EmptyString => (EmptyString, s)
  end.

(** The quoted value, scanned from just after its opening quote to its
    closing quote, a backslash protecting the next byte.  [None] when the
    closing quote is missing. *)
Fixpoint scan_quoted (s : string) : option (string * string) :=
  match s with
  | EmptyString => None
  | String c s' =>
      if Ascii.eqb c quote then Some (EmptyString, s')
      else if Ascii.eqb c "\" then
        match s' with
        | EmptyString => None
        | String c' s'' =>
            match scan_quoted s'' with
            | Some (v, r) => Some (String c (String c' v), r)
            | None => None
            end
        end
      else
        match scan_quoted s' with
        | Some (v, r) => Some (String c v, r)
        | None => None
        end
  end.

Fixpoint has_byte (c : ascii) (s : string) : bool :=
  match s with
  | EmptyString => false
  | String c' s' => Ascii.eqb c c' || has_byte c s'
  end.

(** [strconv.Unquote] on the body of a double-quoted literal that has no
    escape sequence.  (No tag of the program has one; a body with a
    backslash or a newline is left undecided and read as an error.) *)
Definition unquote_plain (body : string) : option string :=
  if has_byte "\" body || has_byte newline body then None else Some body.

(** [StructTag.Lookup]; the fuel bounds the number of [key:"value"]
    pairs, each of which takes at least four bytes. *)
Fixpoint Lookup_loop (fuel : nat) (tag key : string) : option string :=
  match fuel with
  | O => None
  | S fuel' =>
      let tag := skip_spaces tag in
      match scan_key tag with
      | (EmptyString, _) => None
      | (name, String ":" (String q after)) =>
          if Ascii.eqb q quote then
            match scan_quoted after with
            | None => None
            | Some (body, tag') =>
                if String.eqb key name then unquote_plain body
                else Lookup_loop fuel' tag' key
            end
          else None
      | (_, _) => None
      end
  end.

Definition Lookup (tag key : string) : option string :=
  Lookup_loop (String.length tag) tag key.

(** [StructTag.Get] *)
Definition Get (tag key : string) : string :=
  match Lookup tag key with Some v => v | None => EmptyString end.

(** [parseTag]: the name is what precedes the first comma. *)
Fixpoint tag_name (s : string) : string :=
  match s with
  | EmptyString => EmptyString
  | String c s' => if Ascii.eqb c "," then EmptyString else String c (tag_name s')
  end.

(** [isValidTag], on ASCII names: letters, digits and the punctuation
    [!#$%&()*+-./:;<=>?@[]^_{|}~ ] are allowed. *)
Definition valid_tag_byte (c : ascii) : bool :=
  between "a" "z" c || between "A" "Z" c || is_digit c
  || has_byte c "!#$%&()*+-./:;<=>?@[]^_{|}~ ".

Fixpoint all_valid_tag_bytes (s : string) : bool :=
  match s with
  | EmptyString => true
  | String c s' => valid_tag_byte c && all_valid_tag_bytes s'
  end.

Definition isValidTag (s : string) : bool :=
  match s with
  | EmptyString => false
  | _ => all_valid_tag_bytes s
  end.

(** The JSON name of an exported struct field ([typeFields]): the name
    given by its [json] tag when there is a valid one, its Go name
    otherwise; [None] for a field tagged ["-"], which is left out. *)
Definition field_name (goName tag : string) : option string :=
  let t := Get tag "json" in
  if String.eqb t "-" then None
  else
    let name := tag_name t in
    Some (if isValidTag name then name else goName).

(** *** Matching an object key with a field *)

(** Case folding of a key, as far as it can meet an ASCII field name:
    ASCII letters to upper case, and the two runes whose simple fold
    is an ASCII letter, the Kelvin sign U+212A (bytes E2 84 AA) to [K]
    and the long s U+017F (bytes C5 BF) to [S]. *)
Fixpoint fold_key (s : string) : string :=
  match s with
  | EmptyString => EmptyString
  | String "226" (String "132" (String "170" s')) => String "K" (fold_key s')
  | String "197" (String "191" s') => String "S" (fold_key s')
  | String c s' =>
      String (if between "a" "z" c then ascii_of_N (code c - 32) else c) (fold_key s')
  end.

(** *** Decoding *)

(** A decoder stores a JSON value into a Go value of type [A] and
    returns the errors it saved ([d.saveError]); decoding goes on after
    an error, and [Unmarshal] reports the first one. *)
Definition decoder (A : Type) : Type := value -> A -> A * list error.

(** The description of a JSON value in an [UnmarshalTypeError]. *)
Definition describe (v : value) : string :=
  match v with
  | Null => "null"
  | Bool _ => "bool"
  | Number lit => "number " +:+ lit
  | Str _ => "string"
  | Array _ => "array"
  | Object _ => "object"
  end.

Definition mismatch {A : Type} (ty : string) (v : value) (x : A) : A * list error :=
  (x, [UnmarshalTypeError (describe v) ty]).

(** [literalStore] into an [int64], a [float32] and a [string].  A
    [null] leaves these untouched. *)
Definition decode_int64 : decoder Z := fun v x =>
  match v with
  | Null => (x, [])
  | Number lit =>
      match ParseInt64 lit with
      | (n, None) => (n, [])
      | (_, Some _) => mismatch "int64" v x
      end
  | _ => mismatch "int64" v x
  end.

Definition decode_float32 : decoder float32 := fun v x =>
  match v with
  | Null => (x, [])
  | Number lit =>
      match ParseFloat lit 32 with
      | (f, None) => (f, [])
      | (_, Some _) => mismatch "float32" v x
      end
  | _ => mismatch "float32" v x
  end.

Definition decode_string : decoder string := fun v x =>
  match v with
  | Null => (x, [])
  | Str s => (s, [])
  | _ => mismatch "string" v x
  end.

(** A field of a struct of type [A]: its JSON name and the decoder that
    stores into it. *)
Record field (A : Type) := {
  f_name  : string;
  f_store : decoder A
}.
Arguments f_name {A}.
Arguments f_store {A}.

(** The field an object key selects: the one of that exact name, or
    else the first whose name is equal under case folding. *)
Definition find_field {A : Type} (fields : list (field A)) (key : string)
  : option (field A) :=
  match find (fun f => String.eqb (f_name f) key) fields with
  | Some f => Some f
  | None => find (fun f => String.eqb (fold_key (f_name f)) (fold_key key)) fields
  end.

(** One member of an object: stored through its field, or skipped when
    no field has its key. *)
Definition decode_member {A : Type} (fields : list (field A))
           (acc : A * list error) (m : string * value) : A * list error :=
  match find_field fields (fst m) with
  | Some f =>
      let '(x, errs) := f_store f (snd m) (fst acc) in (x, snd acc ++ errs)
  | None => acc
  end.

(** [d.object] into a struct. *)
Definition decode_struct {A : Type} (ty : string) (fields : list (field A))
  : decoder A := fun v x =>
  match v with
  | Null => (x, [])
  | Object members => fold_left (decode_member fields) members (x, [])
  | _ => mismatch ty v x
  end.

(** The elements of an array, each decoded into the slot of the backing
    array at its index, or into a zero value past its end. *)
Fixpoint decode_elements {E : Type} (zero : E) (elem : decoder E)
         (vs : list value) (slots : list E) : list E * list error :=
  match vs with
  | [] => ([], [])
  | v :: vs' =>
      let '(x, e1) := elem v (hd zero slots) in
      let '(xs, e2) := decode_elements zero elem vs' (tl slots) in
      (x :: xs, e1 ++ e2)
  end.

(** [d.array] into a slice.  [null] gives the nil slice, an empty array
    a fresh empty one. *)
Definition decode_slice {E : Type} (ty : string) (zero : E) (elem : decoder E)
  : decoder (slice E) := fun v s =>
  match v with
  | Null => (NilSlice, [])
  | Array [] => (Slice [] [], [])
  | Array vs =>
      let '(xs, errs) := decode_elements zero elem vs (backing s) in
      (Slice xs (skipn (length vs) (backing s)), errs)
  | _ => mismatch ty v s
  end.

(** [Unmarshal(data, &x)] *)
Definition Unmarshal {A : Type} (dec : decoder A) (data : payload) (x : A)
  : A * option error :=
  match data with
  | Malformed => (x, Some SyntaxError)
  | WellFormed v => let '(x', errs) := dec v x in (x', head errs)
  end.

(** *** Encoding *)

(** [Marshal] of a string, of a slice and of a struct given by its
    exported fields in order. *)
Definition encode_string (s : string) : value := Str s.

Definition encode_slice {E : Type} (enc : E -> value) (s : slice E) : value :=
  match s with
  | NilSlice => Null
  | Slice xs _ => Array (map enc xs)
  end.

(** [(goName, tag, encoded value)] for each field. *)
Definition encode_struct (fields : list (string * string * value)) : value :=
  Object (flat_map (fun '(goName, tag, v) =>
                      match field_name goName tag with
                      | Some n => [(n, v)]
                      | None => []
                      end) fields).

(** The tag [json:"name"], and the same with its closing quote missing. *)
Definition json_tag (name : string) : string :=
  "json:" +:+ String quote (name +:+ String quote EmptyString).
Definition json_tag_unclosed (name : string) : string :=
  "json:" +:+ String quote name.

End Json.

(** ** time

    [time.Unix(sec, 0)] is the instant [sec] seconds after the epoch, in
    the location [time.Local].  [Format] renders the calendar date and
    clock of that instant in the location of the time value, shifted by
    the offset the location has at that instant.  The location is part of
    the process environment: it is a parameter of the model, given by the
    offset east of UTC, in seconds, that it has at each instant. *)
Module Time.

Record Location := { lookup : Z -> Z }.

Definition UTC : Location := {| lookup := fun _ => 0 |}.
Definition FixedZone (offset : Z) : Location := {| lookup := fun _ => offset |}.

Definition secondsPerMinute : Z := 60.
Definition secondsPerHour : Z := 60 * secondsPerMinute.
Definition secondsPerDay : Z := 24 * secondsPerHour.
Definition daysPer400Years : Z := 365 * 400 + 97.
Definition daysPer100Years : Z := 365 * 100 + 24.
Definition daysPer4Years : Z := 365 * 4 + 1.

Definition absoluteZeroYear : Z := -292277022399.
Definition internalYear : Z := 1.
(** [(absoluteZeroYear - internalYear) * 365.2425 * secondsPerDay] *)
Definition absoluteToInternal : Z :=
  (absoluteZeroYear - internalYear) * 3652425 * secondsPerDay / 10000.
Definition internalToAbsolute : Z := - absoluteToInternal.
Definition unixToInternal : Z :=
  (1969 * 365 + 1969 / 4 - 1969 / 100 + 1969 / 400) * secondsPerDay.

(** Conversions to [int64] and [uint64] wrap around. *)
Definition wrap_int64 (z : Z) : Z := (z + 2 ^ 63) mod 2 ^ 64 - 2 ^ 63.
Definition wrap_uint64 (z : Z) : Z := z mod 2 ^ 64.

(** A [Time] without monotonic clock reading: its seconds since the
    epoch and its location. *)
Record Time := { unixSec : Z; loc : Location }.

(** [time.Unix(sec, 0)], with [local] for [time.Local]. *)
Definition Unix (local : Location) (sec : Z) : Time :=
  {| unixSec := sec; loc := local |}.

(** [t.locabs()]: the offset in force, and the seconds since the absolute
    zero year of the instant seen in the location. *)
Definition locabs (t : Time) : Z * Z :=
  let offset := lookup (loc t) (unixSec t) in
  let sec := wrap_int64 (unixSec t + offset) in
  (offset, wrap_uint64 (sec + (unixToInternal + internalToAbsolute))).

Definition isLeap (year : Z) : bool :=
  (Z.rem year 4 =? 0) && (negb (Z.rem year 100 =? 0) || (Z.rem year 400 =? 0)).

(** [daysBefore[m]]: the days of a non-leap year before month [m + 1]. *)
Definition daysBefore : list Z :=
  [0; 31; 31 + 28; 31 + 28 + 31; 31 + 28 + 31 + 30; 31 + 28 + 31 + 30 + 31;
   31 + 28 + 31 + 30 + 31 + 30; 31 + 28 + 31 + 30 + 31 + 30 + 31;
   31 + 28 + 31 + 30 + 31 + 30 + 31 + 31;
   31 + 28 + 31 + 30 + 31 + 30 + 31 + 31 + 30;
   31 + 28 + 31 + 30 + 31 + 30 + 31 + 31 + 30 + 31;
   31 + 28 + 31 + 30 + 31 + 30 + 31 + 31 + 30 + 31 + 30;
   31 + 28 + 31 + 30 + 31 + 30 + 31 + 31 + 30 + 31 + 30 + 31].

Definition daysBefore_at (m : Z) : Z := nth (Z.to_nat m) daysBefore 0.

(** [absDate(abs, true)]: year, month and day of month. *)
Definition absDate (abs : Z) : Z * Z * Z :=
  let d := abs / secondsPerDay in
  (* 400-year cycles *)
  let n := d / daysPer400Years in
  let y := 400 * n in
  let d := d - daysPer400Years * n in
  (* 100-year cycles; the last one is a day longer *)
  let n := d / daysPer100Years in
  let n := n - Z.shiftr n 2 in
  let y := y + 100 * n in
  let d := d - daysPer100Years * n in
  (* 4-year cycles *)
  let n := d / daysPer4Years in
  let y := y + 4 * n in
  let d := d - daysPer4Years * n in
  (* years; the last one is a day longer *)
  let n := d / 365 in
  let n := n - Z.shiftr n 2 in
  let y := y + n in
  let d := d - 365 * n in
  let year := wrap_int64 (y + absoluteZeroYear) in
  let day := d in
  let from_day (day : Z) :=
    let month := day / 31 in
    let end_ := daysBefore_at (month + 1) in
    if end_ <=? day then (year, month + 2, day - end_ + 1)
    else (year, month + 1, day - daysBefore_at month + 1) in
  if isLeap year then
    if 31 + 29 - 1 <? day then from_day (day - 1)
    else if day =? 31 + 29 - 1 then (year, 2, 29)
    else from_day day
  else from_day day.

(** [absClock(abs)]: hour, minute and second. *)
Definition absClock (abs : Z) : Z * Z * Z :=
  let sec := abs mod secondsPerDay in
  let hour := sec / secondsPerHour in
  let sec := sec - hour * secondsPerHour in
  let min := sec / secondsPerMinute in
  (hour, min, sec - min * secondsPerMinute).

(** The decimal digits of a natural number, most significant first. *)
Fixpoint digits_fuel (fuel : nat) (n : Z) (acc : string) : string :=
  match fuel with
  | O => acc
  | S fuel' =>
      let acc := String (ascii_of_N (Z.to_N (48 + n mod 10))) acc in
      if n <? 10 then acc else digits_fuel fuel' (n / 10) acc
  end.

Definition utoa (n : Z) : string := digits_fuel (S (Z.to_nat (Z.log2 n))) n "".

Fixpoint zeros (n : nat) : string :=
  match n with O => "" | S n' => String "0" (zeros n') end.

(** [appendInt(b, x, width)]: sign, then the digits padded with zeros on
    the left up to [width]. *)
Definition appendInt (x : Z) (width : nat) : string :=
  let ds := utoa (Z.abs x) in
  (if x <? 0 then "-" else "") +:+ zeros (width - String.length ds) +:+ ds.

(** The zone of the layout element [Z07:00]. *)
Definition appendZone (offset : Z) : string :=
  if offset =? 0 then "Z"
  else
    let zone := Z.quot offset 60 in
    let '(sign, zone) := if zone <? 0 then ("-", - zone) else ("+", zone) in
    sign +:+ appendInt (Z.quot zone 60) 2 +:+ ":" +:+ appendInt (Z.rem zone 60) 2.

(** [t.Format(time.RFC3339)], the layout [2006-01-02T15:04:05Z07:00]. *)
Definition FormatRFC3339 (t : Time) : string :=
  let '(offset, abs) := locabs t in
  let '(year, month, day) := absDate abs in
  let '(hour, min, sec) := absClock abs in
  appendInt year 4 +:+ "-" +:+ appendInt month 2 +:+ "-" +:+ appendInt day 2
  +:+ "T" +:+ appendInt hour 2 +:+ ":" +:+ appendInt min 2 +:+ ":" +:+ appendInt sec 2
  +:+ appendZone offset.

End Time.

(** ** net/http and chi *)
Module Http.

(** [http.StatusText], for the codes the service answers with. *)
Definition StatusText (code : Z) : string :=
  match code with
  | 200 => "OK"
  | 400 => "Bad Request"
  | 404 => "Not Found"
  | 405 => "Method Not Allowed"
  | 500 => "Internal Server Error"
  | _ => ""
  end.

(** What a handler writes: bytes given as text, or the bytes that
    [json.Marshal] produced for a JSON value. *)
Inductive chunk : Type :=
| Text (s : string)
| Encoded (v : Json.value).

(** The state of an [http.ResponseWriter]: the status code once the
    header is written, and the body so far. *)
Record ResponseWriter := {
  status : option Z;
  body   : list chunk
}.

Definition fresh : ResponseWriter := {| status := None; body := [] |}.

(** A second [WriteHeader] is ignored. *)
Definition WriteHeader (code : Z) (w : ResponseWriter) : ResponseWriter :=
  match status w with
  | None => {| status := Some code; body := body w |}
  | Some _ => w
  end.

(** [Write] sends the header with status 200 if none was sent. *)
Definition Write (c : chunk) (w : ResponseWriter) : ResponseWriter :=
  let w := WriteHeader 200 w in
  {| status := status w; body := body w ++ [c] |}.

(** [http.Error(w, text, code)]: the status code and the text followed
    by a newline. *)
Definition Error (text : string) (code : Z) (w : ResponseWriter) : ResponseWriter :=
  Write (Text (text +:+ String newline "")) (WriteHeader code w).

(** [http.NotFound], chi's answer when no route matches, and chi's answer
    when a route matches the path but not the method. *)
Definition NotFound (w : ResponseWriter) : ResponseWriter :=
  Error "404 page not found" 404 w.
Definition MethodNotAllowed (w : ResponseWriter) : ResponseWriter :=
  Write (Text "") (WriteHeader 405 w).

(** The part of a request the service looks at: the method, the path the
    router works on, and the values that route matching and middleware
    attach to it (chi's URL parameters, and the [context.WithValue]
    entries of type [float64] under their [URLParamKey]). *)
Record Request := {
  method    : string;
  path      : string;
  urlParams : list (string * string);
  ctx       : gmap string float64
}.

Definition NewRequest (method path : string) : Request :=
  {| method := method; path := path; urlParams := []; ctx := ∅ |}.

Definition WithURLParams (ps : list (string * string)) (r : Request) : Request :=
  {| method := method r; path := path r; urlParams := ps; ctx := ctx r |}.

Definition WithContext (c : gmap string float64) (r : Request) : Request :=
  {| method := method r; path := path r; urlParams := urlParams r; ctx := c |}.

(** [chi.URLParam(r, key)]: the value of the parameter, or the empty
    string when the route has none of that name. *)
Fixpoint lookup_param (ps : list (string * string)) (key : string) : string :=
  match ps with
  | [] => ""
  | (k, v) :: ps' => if String.eqb k key then v else lookup_param ps' key
  end.

Definition URLParam (r : Request) (key : string) : string :=
  lookup_param (rev (urlParams r)) key.

(** *** Route patterns

    A pattern is cut at its slashes; each piece is a literal or one
    [{name:regexp}] placeholder.  A placeholder takes one whole, non-empty
    path segment, which its regexp must match from end to end. *)
Inductive segment : Type :=
| Literal (s : string)
| Param (name : string) (re : Regexp.regex).

(** The pieces of a path between its slashes. *)
Fixpoint split_slash (s : string) (cur : string) : list string :=
  match s with
  | EmptyString => [cur]
  | String c s' =>
      if Ascii.eqb c "/" then cur :: split_slash s' ""
      else split_slash s' (cur +:+ String c "")
  end.

Definition segments (path : string) : list string := split_slash path "".

Fixpoint match_pattern (pat : list segment) (segs : list string)
  : option (list (string * string)) :=
  match pat, segs with
  | [], [] => Some []
  | Literal l :: pat', s :: segs' =>
      if String.eqb l s then match_pattern pat' segs' else None
  | Param name re :: pat', s :: segs' =>
      if negb (String.eqb s "") && Regexp.MatchString re s then
        match match_pattern pat' segs' with
        | Some ps => Some ((name, s) :: ps)
        | None => None
        end
      else None
  | _, _ => None
  end.

End Http.
(* ===================================================================== *)
(** * The data types of the program *)
(* ===================================================================== *)

(** The anonymous element type of [Weather]. *)
Record WeatherEntry := { Main : string }.

Record OpenWeatherOneCallCurrentConditions := {
  DT        : Z;        (* int64 *)
  FeelsLike : float32;
  Weather   : slice WeatherEntry
}.

Record OpenWeatherOneCallAlert := {
  SenderName  : string;
  Event       : string;
  Description : string
}.

Record OpenWeatherOneCallResponse := {
  Current : OpenWeatherOneCallCurrentConditions;
  Alerts  : slice OpenWeatherOneCallAlert
}.

Record MyWeatherResponse := {
  Timestamp              : string;
  CurrentTemperatureFeel : string;
  CurrentConditions      : slice string;
  CurrentAlerts          : slice OpenWeatherOneCallAlert
}.

(** Zero values ([var respParsed OpenWeatherOneCallResponse]). *)
Definition zeroWeatherEntry : WeatherEntry := {| Main := "" |}.
Definition zeroAlert : OpenWeatherOneCallAlert :=
  {| SenderName := ""; Event := ""; Description := "" |}.
Definition zeroCurrent : OpenWeatherOneCallCurrentConditions :=
  {| DT := 0; FeelsLike := zero32; Weather := NilSlice |}.
Definition zeroResponse : OpenWeatherOneCallResponse :=
  {| Current := zeroCurrent; Alerts := NilSlice |}.

(* ===================================================================== *)
(** * The response transformer *)
(* ===================================================================== *)

(** The untyped constants [277.0] and [297], converted to [float32]. *)
Definition c277 : float32 := Eval vm_compute in f32_of_Z 277.
Definition c297 : float32 := Eval vm_compute in f32_of_Z 297.

Definition GetCurrentTemperatureFeel (respParsed : OpenWeatherOneCallResponse) : string :=
  if SFltb (FeelsLike (Current respParsed)) c277 then "cold"
  else if SFleb (FeelsLike (Current respParsed)) c297 then "moderate"
  else "hot".

Definition GetCurrentConditions (respParsed : OpenWeatherOneCallResponse) : slice string :=
  let results := make0 "" (len (Weather (Current respParsed))) in
  fold_left (fun results weatherCondition => append1 results (Main weatherCondition))
            (items (Weather (Current respParsed))) results.

Definition GetCurrentAlerts (respParsed : OpenWeatherOneCallResponse)
  : slice OpenWeatherOneCallAlert :=
  append (make0 zeroAlert (len (Alerts respParsed))) (items (Alerts respParsed)).

(** ** The JSON form of the program's types

    [encoding/json] derives, by reflection, the decoder and the encoder of
    each struct from its declaration: the field list below gives for each
    field its Go name and its tag as written in the source. *)
Import Json.

Definition WeatherEntry_fields : list (string * string) :=
  [("Main", json_tag "main")].

Definition OpenWeatherOneCallCurrentConditions_fields : list (string * string) :=
  [("DT", json_tag "dt"); ("FeelsLike", json_tag "feels_like");
   ("Weather", json_tag "weather")].

Definition OpenWeatherOneCallAlert_fields : list (string * string) :=
  [("SenderName", json_tag "sender_name"); ("Event", json_tag "event");
   ("Description", json_tag "description")].

Definition OpenWeatherOneCallResponse_fields : list (string * string) :=
  [("Current", json_tag "current"); ("Alerts", json_tag "alerts")].

(** The tag of [CurrentTemperatureFeel] has no closing quote in the
    source. *)
Definition MyWeatherResponse_fields : list (string * string) :=
  [("Timestamp", "");
   ("CurrentTemperatureFeel", json_tag_unclosed "current_temperature_feel");
   ("CurrentConditions", json_tag "current_conditions");
   ("CurrentAlerts", json_tag "alerts")].

(** The decoder of a struct: for each declared field that has a JSON
    name, the store into that field. *)
Definition struct_fields {A : Type} (decl : list (string * string))
           (stores : list (decoder A)) : list (field A) :=
  flat_map (fun '((goName, tag), store) =>
              match field_name goName tag with
              | Some n => [{| f_name := n; f_store := store |}]
              | None => []
              end)
           (combine decl stores).

(** A field store: decode into the current value of the field, and put
    the result back. *)
Definition store {A B : Type} (get : A -> B) (set : B -> A -> A) (dec : decoder B)
  : decoder A := fun v x =>
  let '(b, errs) := dec v (get x) in (set b x, errs).

Definition WeatherEntry_table : list (field WeatherEntry) :=
  struct_fields WeatherEntry_fields
    [store Main (fun s _ => {| Main := s |}) decode_string].

Definition decode_WeatherEntry : decoder WeatherEntry :=
  decode_struct "struct { Main string }" WeatherEntry_table.

Definition Current_table : list (field OpenWeatherOneCallCurrentConditions) :=
  struct_fields OpenWeatherOneCallCurrentConditions_fields
    [store DT (fun n x => {| DT := n; FeelsLike := FeelsLike x; Weather := Weather x |})
           decode_int64;
     store FeelsLike (fun f x => {| DT := DT x; FeelsLike := f; Weather := Weather x |})
           decode_float32;
     store Weather (fun w x => {| DT := DT x; FeelsLike := FeelsLike x; Weather := w |})
           (decode_slice "[]struct { Main string }" zeroWeatherEntry decode_WeatherEntry)].

Definition decode_Current : decoder OpenWeatherOneCallCurrentConditions :=
  decode_struct "main.OpenWeatherOneCallCurrentConditions" Current_table.

Definition Alert_table : list (field OpenWeatherOneCallAlert) :=
  struct_fields OpenWeatherOneCallAlert_fields
    [store SenderName
           (fun s x => {| SenderName := s; Event := Event x; Description := Description x |})
           decode_string;
     store Event
           (fun s x => {| SenderName := SenderName x; Event := s; Description := Description x |})
           decode_string;
     store Description
           (fun s x => {| SenderName := SenderName x; Event := Event x; Description := s |})
           decode_string].

Definition decode_Alert : decoder OpenWeatherOneCallAlert :=
  decode_struct "main.OpenWeatherOneCallAlert" Alert_table.

Definition Response_table : list (field OpenWeatherOneCallResponse) :=
  struct_fields OpenWeatherOneCallResponse_fields
    [store Current (fun c x => {| Current := c; Alerts := Alerts x |}) decode_Current;
     store Alerts (fun a x => {| Current := Current x; Alerts := a |})
           (decode_slice "[]main.OpenWeatherOneCallAlert" zeroAlert decode_Alert)].

Definition decode_Response : decoder OpenWeatherOneCallResponse :=
  decode_struct "main.OpenWeatherOneCallResponse" Response_table.

Definition values_of {A : Type} (decl : list (string * string)) (vs : list value)
  : list (string * string * value) :=
  combine decl vs.

Definition encode_Alert (a : OpenWeatherOneCallAlert) : value :=
  encode_struct (values_of (A := unit) OpenWeatherOneCallAlert_fields
    [encode_string (SenderName a); encode_string (Event a); encode_string (Description a)]).

(** [json.Marshal(MyWeatherResponse{...})] *)
Definition encode_MyWeatherResponse (m : MyWeatherResponse) : value :=
  encode_struct (values_of (A := unit) MyWeatherResponse_fields
    [encode_string (Timestamp m);
     encode_string (CurrentTemperatureFeel m);
     encode_slice encode_string (CurrentConditions m);
     encode_slice encode_Alert (CurrentAlerts m)]).

(* ===================================================================== *)
(** * The HTTP service *)
(* ===================================================================== *)
Import Http.

(** The weather provider, as the service sees it: the request is
    determined by the two coordinates and the API key (they are formatted
    into the URL of the [onecall] endpoint), and the provider either
    cannot be reached, or answers with a status code and a body that
    reads completely or not. *)
Record UpstreamCall := {
  call_lat   : float64;
  call_lon   : float64;
  call_appid : string
}.

Inductive UpstreamReply : Type :=
| GetFails (detail : string)                    (* [http.Get] returns an error *)
| ReadFails (code : Z) (detail : string)        (* [ioutil.ReadAll] returns an error *)
| Replies (code : Z) (data : Json.payload).

(** Go errors and the values a handler panics with. *)
Inductive GoError : Type :=
| NumErr (func input : string) (e : NumError)  (* [*strconv.NumError] *)
| NetErr (detail : string)                      (* from [net/http] or the body reader *)
| JsonErr (e : Json.error)
| AssertErr (detail : string).                  (* a failed type assertion *)

Inductive LogEntry : Type :=
| LogContext (c : gmap string float64)          (* [log.Println(ctx)] *)
| LogPanic (e : GoError).                       (* [log.Println(r)] *)

(** What handling a request can change: the response writer, the calls
    made to the provider, and the log. *)
Record World := {
  writer : ResponseWriter;
  calls  : list UpstreamCall;
  logged : list LogEntry
}.

Definition start : World := {| writer := fresh; calls := []; logged := [] |}.

(** Handler code either returns or panics, having changed the world. *)
Inductive outcome (A : Type) : Type :=
| Returned (a : A)
| Panicked (e : GoError).
Arguments Returned {A} a.
Arguments Panicked {A} e.

Definition Go (A : Type) : Type := World -> outcome A * World.

Definition ret {A : Type} (a : A) : Go A := fun s => (Returned a, s).

Definition bind {A B : Type} (m : Go A) (k : A -> Go B) : Go B := fun s =>
  match m s with
  | (Returned a, s') => k a s'
  | (Panicked e, s') => (Panicked e, s')
  end.

Notation "x <- m ;; k" := (bind m (fun x => k))
  (at level 100, m at next level, right associativity).
Notation "m ;;; k" := (bind m (fun _ => k))
  (at level 100, right associativity).

Definition panic {A : Type} (e : GoError) : Go A := fun s => (Panicked e, s).

(** [defer func() { if r := recover(); r != nil { handle r } }()] around
    a body. *)
Definition recovering (body : Go unit) (handle : GoError -> Go unit) : Go unit :=
  fun s =>
    match body s with
    | (Returned _, s') => (Returned tt, s')
    | (Panicked e, s') => handle e s'
    end.

Definition on_writer (f : ResponseWriter -> ResponseWriter) : Go unit := fun s =>
  (Returned tt, {| writer := f (writer s); calls := calls s; logged := logged s |}).

Definition log_Println (e : LogEntry) : Go unit := fun s =>
  (Returned tt, {| writer := writer s; calls := calls s; logged := logged s ++ [e] |}).

(** [panicIfErr] *)
Definition panicIfErr (err : option GoError) : Go unit :=
  match err with
  | Some e => panic e
  | None => ret tt
  end.

(** [r.Context().Value(URLParamKey(key)).(float64)] *)
Definition context_float64 (r : Request) (key : string) : Go float64 :=
  match ctx r !! key with
  | Some f => ret f
  | None => panic (AssertErr "interface conversion: interface {} is nil, not float64")
  end.

Definition Handler : Type := Request -> Go unit.

Section Service.

(** The process environment a request is served in. *)
Variable apiKey : string.
Variable local : Time.Location.
Variable upstream : UpstreamCall -> UpstreamReply.

(** [http.Get] on the provider's URL: the call is made and recorded. *)
Definition http_Get (c : UpstreamCall) : Go UpstreamReply := fun s =>
  (Returned (upstream c),
   {| writer := writer s; calls := calls s ++ [c]; logged := logged s |}).

Definition latLonContext (next : Handler) : Handler := fun r =>
  recovering
    (let '(lat, err) := ParseFloat (URLParam r "lat") 64 in
     panicIfErr (option_map (NumErr "ParseFloat" (URLParam r "lat")) err) ;;;
     let ctx := <["lat" := lat]> (ctx r) in
     let '(lon, err) := ParseFloat (URLParam r "lon") 64 in
     panicIfErr (option_map (NumErr "ParseFloat" (URLParam r "lon")) err) ;;;
     let ctx := <["lon" := lon]> ctx in
     log_Println (LogContext ctx) ;;;
     next (WithContext ctx r))
    (fun _ => on_writer (Error (StatusText 400) 400)).

(** The deferred recovery of every route handler. *)
Definition recover500 (body : Go unit) : Go unit :=
  recovering body
    (fun e => log_Println (LogPanic e) ;;; on_writer (Error (StatusText 500) 500)).

Definition hello (greeting : string) : Handler := fun _ =>
  recover500 (on_writer (Write (Text greeting))).

Definition weather : Handler := fun r =>
  recover500
    (lat <- context_float64 r "lat" ;;
     lon <- context_float64 r "lon" ;;
     reply <- http_Get {| call_lat := lat; call_lon := lon; call_appid := apiKey |} ;;
     match reply with
     | GetFails detail => panic (NetErr detail)
     | ReadFails _ detail => panic (NetErr detail)
     | Replies _ respBody =>
         let '(respParsed, err) := Unmarshal decode_Response respBody zeroResponse in
         panicIfErr (option_map JsonErr err) ;;;
         let myResp :=
           encode_MyWeatherResponse
             {| Timestamp := Time.FormatRFC3339 (Time.Unix local (DT (Current respParsed)));
                CurrentTemperatureFeel := GetCurrentTemperatureFeel respParsed;
                CurrentConditions := GetCurrentConditions respParsed;
                CurrentAlerts := GetCurrentAlerts respParsed |} in
         on_writer (Write (Encoded myResp))
     end).

(** The route table built by [main], in the order of registration: the
    pattern and the handler, wrapped in [latLonContext] where the route
    is registered through [r.With(latLonContext)].  Every route is
    registered for [GET].  (The logging middleware installed with
    [r.Use] writes one line per request and changes no response; it is
    left out.) *)
Record Route := {
  pattern : list segment;
  handler : Handler
}.

Definition hello_route : Route :=
  {| pattern := [Literal ""; Literal "hello"];
     handler := hello "hello 1!" |}.

Definition helloCtx_route : Route :=
  {| pattern := [Literal ""; Literal "helloCtx"];
     handler := latLonContext (hello "hello 2!") |}.

Definition test_route : Route :=
  {| pattern := [Literal ""; Literal "test"; Literal "lat"; Literal "-40";
                 Literal "lon"; Literal "40"];
     handler := latLonContext (hello "hello 3!") |}.

Definition test2_route : Route :=
  {| pattern := [Literal ""; Literal "test2";
                 Literal "lat"; Param "lat" Regexp.signed_integer;
                 Literal "lon"; Param "lon" Regexp.signed_integer];
     handler := latLonContext (hello "hello 3!") |}.

Definition weather_route : Route :=
  {| pattern := [Literal ""; Literal "weather";
                 Literal "lat"; Param "lat" Regexp.signed_decimal;
                 Literal "lon"; Param "lon" Regexp.signed_decimal];
     handler := latLonContext weather |}.

Definition routes : list Route :=
  [hello_route; helloCtx_route; test_route; test2_route; weather_route].

(** The first route whose pattern matches the path, with the parameters
    it binds. *)
Fixpoint find_route (rs : list Route) (segs : list string)
  : option (Route * list (string * string)) :=
  match rs with
  | [] => None
  | rt :: rs' =>
      match match_pattern (pattern rt) segs with
      | Some ps => Some (rt, ps)
      | None => find_route rs' segs
      end
  end.

(** The router: 404 when no pattern matches the path, 405 when one does
    but the method is not [GET], the handler otherwise. *)
Definition ServeHTTP (r : Request) : Go unit :=
  match find_route routes (segments (path r)) with
  | None => on_writer NotFound
  | Some (rt, ps) =>
      if String.eqb (method r) "GET" then handler rt (WithURLParams ps r)
      else on_writer MethodNotAllowed
  end.

(** Serving one request, from a fresh response writer. *)
Definition serve (method path : string) : World :=
  snd (ServeHTTP (NewRequest method path) start).

End Service.

(** ** [main] *)

(** [os.Getenv]: the value of the variable, empty when it is not set. *)
Definition Getenv (environ : gmap string string) (key : string) : string :=
  match environ !! key with
  | Some v => v
  | None => ""
  end.

(** What [main] comes to: the process has exited with a code, or it
    listens on an address with a handler.  [stderr] is what it wrote to
    standard error on the way. *)
Inductive Running : Type :=
| Exited (code : Z)
| Listening (addr : string) (serve : string -> string -> World).

Record Process := {
  stderr  : string;
  running : Running
}.

Definition main (environ : gmap string string) (local : Time.Location)
           (upstream : UpstreamCall -> UpstreamReply) : Process :=
  let apiKey := Getenv environ "OPENWEATHERMAP_API_KEY" in
  if String.eqb apiKey "" then
    {| stderr := "Missing required environment variable OPENWEATHERMAP_API_KEY"
                 +:+ String newline "";
       running := Exited 1 |}
  else
    {| stderr := ""; running := Listening ":8080" (serve apiKey local upstream) |}.

(* ===================================================================== *)
(** * Auxiliary definitions for the proofs *)
(* ===================================================================== *)

(** The state of [readFloat]'s mantissa loop after a run of decimal
    digits. *)
Fixpoint push_digits (ds : string) (st : mant_state) : mant_state :=
  match ds with
  | EmptyString => st
  | String c ds' => push_digits ds' (push_digit 10 (code c - 48) st)
  end.

(** The state after the digits [ip] and the fraction [fr], which is empty
    or a point followed by digits. *)
Definition decimal_state (ip fr : string) : mant_state :=
  match fr with
  | EmptyString => push_digits ip mant_init
  | String _ fd => push_digits fd (set_dot (push_digits ip mant_init))
  end.

(** What [readFloat] returns on a signed decimal number without
    exponent. *)
Definition scanned_decimal (sg ip fr : string) : scanned :=
  let st := decimal_state ip fr in
  {| neg := String.eqb sg "-"; hex := false; mant := mantissa st;
     exp := if (mantissa st =? 0)%N then 0 else 0 - frac_digits st;
     rest := "" |}.

(** The segments of a path [/weather/lat/{lat}/lon/{lon}]. *)
Definition weather_segments (lat lon : string) : list string :=
  [""; "weather"; "lat"; lat; "lon"; lon].

(** The two error responses of the service, on a fresh writer. *)
Definition bad_request : ResponseWriter := Error (StatusText 400) 400 fresh.
Definition internal_server_error : ResponseWriter := Error (StatusText 500) 500 fresh.

(** The context entries [latLonContext] adds. *)
Definition coordinates (lat lon : float64) : gmap string float64 :=
  <["lon" := lon]> (<["lat" := lat]> ∅).

(** What the handler gets from the provider: the error it panics with
    when [http.Get] or the reading of the body returns an error or the
    body does not decode, and the decoded answer otherwise. *)
Definition provider_result (reply : UpstreamReply)
  : GoError + OpenWeatherOneCallResponse :=
  match reply with
  | GetFails detail => inl (NetErr detail)
  | ReadFails _ detail => inl (NetErr detail)
  | Replies _ data =>
      match Unmarshal decode_Response data zeroResponse with
      | (_, Some e) => inl (JsonErr e)
      | (respParsed, None) => inr respParsed
      end
  end.

(** The report the handler builds from a decoded provider answer. *)
Definition report (local : Time.Location) (respParsed : OpenWeatherOneCallResponse)
  : MyWeatherResponse :=
  {| Timestamp := Time.FormatRFC3339 (Time.Unix local (DT (Current respParsed)));
     CurrentTemperatureFeel := GetCurrentTemperatureFeel respParsed;
     CurrentConditions := GetCurrentConditions respParsed;
     CurrentAlerts := GetCurrentAlerts respParsed |}.

(** A key is unknown to a field table when it is equal, under case
    folding, to none of the names in the table; such a key selects no
    field. *)
Definition unknown {A : Type} (table : list (field A)) (key : string) : Prop :=
  Forall (fun name => fold_key name <> fold_key key) (map f_name table).

(** An object has no member for the field called [name] when none of
    its keys is equal to [name] under case folding. *)
Definition lacks (members : list (string * value)) (name : string) : Prop :=
  Forall (fun m => fold_key (fst m) <> fold_key name) members.

(** The errors of a decoder depend on the JSON value alone, not on the
    Go value it decodes into. *)
Definition state_blind {A : Type} (dec : decoder A) : Prop :=
  forall (v : value) (x y : A), snd (dec v x) = snd (dec v y).

(* ===================================================================== *)
(** * Sample inputs *)
(* ===================================================================== *)

(** A provider answer with the given feels-like temperature and nothing
    else. *)
Definition with_feels_like (t : float32) : OpenWeatherOneCallResponse :=
  {| Current := {| DT := 0; FeelsLike := t; Weather := NilSlice |}; Alerts := NilSlice |}.

(** The provider answer of the specification's examples: two conditions
    and one alert. *)
Definition sample_alert : OpenWeatherOneCallAlert :=
  {| SenderName := "NWS"; Event := "Heat Advisory"; Description := "..." |}.

Definition sample_response : OpenWeatherOneCallResponse :=
  {| Current := {| DT := 1684000000; FeelsLike := f32_of_Z 300;
                   Weather := Slice [{| Main := "Clear" |}; {| Main := "Clouds" |}] [] |};
     Alerts := Slice [sample_alert] [] |}.

(** A process environment with and without the API key. *)
Definition environ_without_key : gmap string string := {[ "HOME" := "/root" ]}.
Definition environ_with_key : gmap string string :=
  {[ "OPENWEATHERMAP_API_KEY" := "0123456789abcdef" ]}.

Definition unreachable_provider : UpstreamCall -> UpstreamReply :=
  fun _ => GetFails "dial tcp: lookup api.openweathermap.org: no such host".

(** The provider answer of the specification's end-to-end example, as
    the JSON value of its body. *)
Definition sample_body : Json.value :=
  Json.Object
    [("current", Json.Object [("dt", Json.Number "1684000000");
                              ("feels_like", Json.Number "300.0");
                              ("weather", Json.Array [Json.Object [("main", Json.Str "Clear")]])]);
     ("alerts", Json.Array [])].

Definition sample_provider : UpstreamCall -> UpstreamReply :=
  fun _ => Replies 200 (Json.WellFormed sample_body).

(** A zone five hours west of Greenwich. *)
Definition five_hours_west : Time.Location := Time.FixedZone (-18000).

(** A provider that rejects the API key: status 401 and a JSON body that
    describes the error. *)
Definition rejecting_provider : UpstreamCall -> UpstreamReply :=
  fun _ => Replies 401 (Json.WellFormed
                          (Json.Object [("cod", Json.Number "401");
                                        ("message", Json.Str "Invalid API key.")])).

(** A provider whose body is not JSON. *)
Definition garbled_provider : UpstreamCall -> UpstreamReply :=
  fun _ => Replies 200 Json.Malformed.



(** A provider answer with fields this service does not know, and with
    [alerts] and [feels_like] missing. *)
Definition sparse_body : Json.value :=
  Json.Object
    [("lat", Json.Number "40.7");
     ("timezone", Json.Str "America/New_York");
     ("current", Json.Object [("dt", Json.Number "1684000000");
                              ("sunrise", Json.Number "1683970000");
                              ("weather", Json.Array [])])].

(* ===================================================================== *)
(** * Further definitions for the properties of the whole service *)
(* ===================================================================== *)

(** The parts of a signed decimal number as the route patterns write it:
    an optional sign, and an optional fraction made of a point and at
    least one digit. *)
Definition is_sign (sg : string) : Prop := sg = "" \/ sg = "-" \/ sg = "+".


(** The segments of a path [/test2/lat/{lat}/lon/{lon}]. *)
Definition test2_segments (lat lon : string) : list string :=
  [""; "test2"; "lat"; lat; "lon"; lon].

(** The path that has the given segments: the segments with a slash
    between them. *)
Fixpoint join_slash (segs : list string) : string :=
  match segs with
  | [] => ""
  | [s] => s
  | s :: rest => s +:+ String "/" (join_slash rest)
  end.

Fixpoint no_slash (s : string) : bool :=
  match s with
  | EmptyString => true
  | String c s' => negb (Ascii.eqb c "/") && no_slash s'
  end.

(** A provider answer as the provider writes it: the [current] object
    with its three members, one object per condition, and the alerts
    with their three members. *)
Definition condition_json (main : string) : value := Object [("main", Str main)].

Definition alert_json (a : OpenWeatherOneCallAlert) : value :=
  Object [("sender_name", Str (SenderName a)); ("event", Str (Event a));
          ("description", Str (Description a))].

Definition answer_json (dt feels_like : string) (conditions : list string)
           (alerts : list OpenWeatherOneCallAlert) : value :=
  Object [("current", Object [("dt", Number dt);
                              ("feels_like", Number feels_like);
                              ("weather", Array (map condition_json conditions))]);
          ("alerts", Array (map alert_json alerts))].

(** The fields of the two structs with more than one level, by name. *)
Definition dt_field : field OpenWeatherOneCallCurrentConditions :=
  {| f_name := "dt";
     f_store := store DT (fun n x => {| DT := n; FeelsLike := FeelsLike x;
                                        Weather := Weather x |})
                      decode_int64 |}.

Definition feels_like_field : field OpenWeatherOneCallCurrentConditions :=
  {| f_name := "feels_like";
     f_store := store FeelsLike (fun f x => {| DT := DT x; FeelsLike := f;
                                               Weather := Weather x |})
                      decode_float32 |}.

Definition weather_field : field OpenWeatherOneCallCurrentConditions :=
  {| f_name := "weather";
     f_store := store Weather (fun w x => {| DT := DT x; FeelsLike := FeelsLike x;
                                             Weather := w |})
                      (decode_slice "[]struct { Main string }" zeroWeatherEntry
                                    decode_WeatherEntry) |}.

Definition current_field : field OpenWeatherOneCallResponse :=
  {| f_name := "current";
     f_store := store Current (fun c x => {| Current := c; Alerts := Alerts x |})
                      decode_Current |}.

Definition alerts_field : field OpenWeatherOneCallResponse :=
  {| f_name := "alerts";
     f_store := store Alerts (fun a x => {| Current := Current x; Alerts := a |})
                      (decode_slice "[]main.OpenWeatherOneCallAlert" zeroAlert
                                    decode_Alert) |}.

(** The three answers of [GetCurrentTemperatureFeel], in order. *)
Definition feel_rank (feel : string) : nat :=
  if String.eqb feel "cold" then 0
  else if String.eqb feel "moderate" then 1
  else 2.

(** The paths that have a route, by their segments: one of the three
    fixed paths, or [/test2] or [/weather] with two segments that the
    pattern of the route accepts. *)
Definition routed (segs : list string) : Prop :=
  segs = [""; "hello"]
  \/ segs = [""; "helloCtx"]
  \/ segs = [""; "test"; "lat"; "-40"; "lon"; "40"]
  \/ (exists lat lon,
         segs = test2_segments lat lon
         /\ Regexp.MatchString Regexp.signed_integer lat = true
         /\ Regexp.MatchString Regexp.signed_integer lon = true)
  \/ (exists lat lon,
         segs = weather_segments lat lon
         /\ Regexp.MatchString Regexp.signed_decimal lat = true
         /\ Regexp.MatchString Regexp.signed_decimal lon = true).

(** The ways in which a request is answered: by the router when no
    route matches or the method is not [GET]; by [latLonContext] when a
    coordinate does not convert; by the greeting handler of [/hello] or
    of [/test2]; or by the [/weather] handler, after its call to the
    provider. *)
Inductive Answer (apiKey : string) (local : Time.Location)
          (upstream : UpstreamCall -> UpstreamReply) (method target : string)
  : World -> Prop :=
| NotRouted :
    ~ routed (segments target) ->
    Answer apiKey local upstream method target
           {| writer := NotFound fresh; calls := []; logged := [] |}
| WrongMethod :
    method <> "GET" ->
    routed (segments target) ->
    Answer apiKey local upstream method target
           {| writer := MethodNotAllowed fresh; calls := []; logged := [] |}
| Rejected :
    method = "GET" ->
    routed (segments target) ->
    Answer apiKey local upstream method target
           {| writer := bad_request; calls := []; logged := [] |}
| Hello :
    method = "GET" ->
    segments target = [""; "hello"] ->
    Answer apiKey local upstream method target
           {| writer := Write (Text "hello 1!") fresh; calls := []; logged := [] |}
| Test2 (lat lon : string) (flat flon : float64) :
    method = "GET" ->
    segments target = test2_segments lat lon ->
    Regexp.MatchString Regexp.signed_integer lat = true ->
    Regexp.MatchString Regexp.signed_integer lon = true ->
    ParseFloat lat 64 = (flat, None) ->
    ParseFloat lon 64 = (flon, None) ->
    Answer apiKey local upstream method target
           {| writer := Write (Text "hello 3!") fresh; calls := [];
              logged := [LogContext (coordinates flat flon)] |}
| Handled (lat lon : string) (flat flon : float64) :
    method = "GET" ->
    segments target = weather_segments lat lon ->
    Regexp.MatchString Regexp.signed_decimal lat = true ->
    Regexp.MatchString Regexp.signed_decimal lon = true ->
    ParseFloat lat 64 = (flat, None) ->
    ParseFloat lon 64 = (flon, None) ->
    Answer apiKey local upstream method target
           (let call := {| call_lat := flat; call_lon := flon; call_appid := apiKey |} in
            match provider_result (upstream call) with
            | inl e =>
                {| writer := internal_server_error;
                   calls := [call];
                   logged := [LogContext (coordinates flat flon); LogPanic e] |}
            | inr respParsed =>
                {| writer := Write (Encoded (encode_MyWeatherResponse
                                               (report local respParsed))) fresh;
                   calls := [call];
                   logged := [LogContext (coordinates flat flon)] |}
            end).

(* ===================================================================== *)
(** * Properties of the response transformer *)
(* ===================================================================== *)

(** ** Temperature feel *)

(** The comparison of two positive finite floats: by exponent, then by
    mantissa. *)
Lemma SFcompare_positive (m1 : positive) (e1 : Z) (m2 : positive) (e2 : Z) :
  SFcompare (S754_finite false m1 e1) (S754_finite false m2 e2)
  = Some match e1 ?= e2 with
         | Lt => Lt
         | Gt => Gt
         | Eq => Z.pos m1 ?= Z.pos m2
         end.
Proof. reflexivity. Qed.

(** Both constants have exponent [-15], so the three facts below are
    read off the sign, the exponent and the mantissa of the other side. *)
Ltac positive_finite_case :=
  unfold SFltb, SFleb, c277, c297 in *;
  rewrite !SFcompare_positive in *;
  repeat match goal with
         | H : context [?a ?= ?b] |- _ => destruct (Z.compare_spec a b)
         | |- context [?a ?= ?b] => destruct (Z.compare_spec a b)
         end;
  try discriminate; try reflexivity; lia.

Lemma below_c277_not_above_c297 (t : float32) :
  SFltb t c277 = true -> SFltb c297 t = false.
Proof.
  intros H.
  destruct t as [s | s | | s m e]; try destruct s;
    try reflexivity; try discriminate H.
  positive_finite_case.
Qed.

Lemma above_c297_not_le (t : float32) :
  SFltb c297 t = true -> SFleb t c297 = false.
Proof.
  intros H.
  destruct t as [s | s | | s m e]; try destruct s;
    try reflexivity; try discriminate H.
  positive_finite_case.
Qed.

Lemma at_least_c277_not_below (t : float32) :
  SFleb c277 t = true -> SFltb t c277 = false.
Proof.
  intros H.
  destruct t as [s | s | | s m e]; try destruct s;
    try reflexivity; try discriminate H.
  positive_finite_case.
Qed.

(** *** The comparisons, read on the values

    For a finite [float32] the two comparisons of the function are the
    comparisons of its value with 277 and 297. *)

Lemma digits2_pos_bounds (m : positive) :
  2 ^ (Z.pos (digits2_pos m) - 1) <= Z.pos m < 2 ^ Z.pos (digits2_pos m).
Proof.
  induction m as [p IH | p IH |]; cbn [digits2_pos].
  - rewrite Pos2Z.inj_succ.
    replace (Z.succ (Z.pos (digits2_pos p)) - 1) with (Z.succ (Z.pos (digits2_pos p) - 1)) by lia.
    rewrite !Z.pow_succ_r by lia. lia.
  - rewrite Pos2Z.inj_succ.
    replace (Z.succ (Z.pos (digits2_pos p)) - 1) with (Z.succ (Z.pos (digits2_pos p) - 1)) by lia.
    rewrite !Z.pow_succ_r by lia. lia.
  - cbn. lia.
Qed.

Lemma bounded32 (m : positive) (e : Z) :
  bounded prec32 emax32 m e = true ->
  -149 <= e /\ Z.pos m < 2 ^ 24 /\ (-149 < e -> 2 ^ 23 <= Z.pos m).
Proof.
  unfold bounded, canonical_mantissa, fexp, emin, prec32, emax32.
  intros H. apply andb_prop in H as [H1 H2].
  apply Z.eqb_eq in H1. apply Z.leb_le in H2.
  pose proof (digits2_pos_bounds m) as [Hlo Hhi].
  set (d := Z.pos (digits2_pos m)) in *.
  assert (Hd : 0 < d) by (subst d; lia).
  split; [lia|]. split.
  - assert (d <= 24) by lia.
    apply Z.lt_le_trans with (1 := Hhi). apply Z.pow_le_mono_r; lia.
  - intros He. assert (d = 24) by lia.
    replace 23 with (d - 1) by lia. exact Hlo.
Qed.

(** Against a positive normal number with exponent [-15], the order of
    the floats is the order of the values. *)
Lemma compare_units32 (m : positive) (e : Z) (mc : positive) :
  bounded prec32 emax32 m e = true ->
  2 ^ 23 <= Z.pos mc < 2 ^ 24 ->
  match e ?= -15 with
  | Eq => Z.pos m ?= Z.pos mc
  | Lt => Lt
  | Gt => Gt
  end = (Z.pos m * 2 ^ (e + 149) ?= Z.pos mc * 2 ^ 134).
Proof.
  intros Hb Hc. apply bounded32 in Hb as (He & Hhi & Hlo).
  symmetry.
  destruct (Z.compare_spec e (-15)) as [-> | Hlt | Hgt].
  - change (-15 + 149) with 134.
    assert (Hp : 0 < 2 ^ 134) by now apply Z.pow_pos_nonneg.
    destruct (Z.compare_spec (Z.pos m) (Z.pos mc)) as [E | E | E].
    + apply Z.compare_eq_iff. now rewrite E.
    + apply Z.compare_lt_iff. now apply Z.mul_lt_mono_pos_r.
    + apply Z.compare_gt_iff. now apply Z.mul_lt_mono_pos_r.
  - apply Z.compare_lt_iff.
    assert (Hp : 0 < 2 ^ (e + 149)) by (apply Z.pow_pos_nonneg; lia).
    assert (Hq : 2 ^ (e + 149) <= 2 ^ 133) by (apply Z.pow_le_mono_r; lia).
    apply Z.lt_le_trans with (2 ^ 24 * 2 ^ 133).
    + apply Z.lt_le_trans with (2 ^ 24 * 2 ^ (e + 149)).
      * apply Z.mul_lt_mono_pos_r; assumption.
      * apply Z.mul_le_mono_nonneg_l; [lia | assumption].
    + change (2 ^ 24 * 2 ^ 133) with (2 ^ 23 * 2 ^ 134).
      apply Z.mul_le_mono_nonneg_r; [lia | tauto].
  - apply Z.compare_gt_iff.
    assert (Hq : 2 ^ 135 <= 2 ^ (e + 149)) by (apply Z.pow_le_mono_r; lia).
    specialize (Hlo ltac:(lia)).
    apply Z.lt_le_trans with (2 ^ 24 * 2 ^ 134).
    + apply Z.mul_lt_mono_pos_r; [lia | tauto].
    + change (2 ^ 24 * 2 ^ 134) with (2 ^ 23 * 2 ^ 135).
      apply Z.le_trans with (2 ^ 23 * 2 ^ (e + 149)).
      * apply Z.mul_le_mono_nonneg_l; [lia | assumption].
      * apply Z.mul_le_mono_nonneg_r; [lia | assumption].
Qed.

Lemma units_of_constants :
  kelvin 277 = 9076736 * 2 ^ 134 /\ kelvin 297 = 9732096 * 2 ^ 134.
Proof. split; reflexivity. Qed.

(** The IEEE comparison of a finite [float32] with a positive normal
    constant of exponent [-15] is the comparison of the values. *)
Lemma SFcompare_units32 (t : float32) (mc : positive) :
  valid32 t = true -> is_finite t = true ->
  2 ^ 23 <= Z.pos mc < 2 ^ 24 ->
  SFcompare t (S754_finite false mc (-15)) = Some (units32 t ?= Z.pos mc * 2 ^ 134)
  /\ SFcompare (S754_finite false mc (-15)) t = Some (Z.pos mc * 2 ^ 134 ?= units32 t).
Proof.
  intros Hv Hf Hc.
  assert (Hpos : 0 < Z.pos mc * 2 ^ 134)
    by (apply Z.mul_pos_pos; [lia | now apply Z.pow_pos_nonneg]).
  destruct t as [s | s | | s m e]; try discriminate Hf.
  - cbn [units32].
    split; cbn [SFcompare]; f_equal;
      try (symmetry; first [apply Z.compare_lt_iff | apply Z.compare_gt_iff]; lia).
  - cbn [valid32 valid_binary] in Hv. unfold valid32 in Hv. cbn [valid_binary] in Hv.
    destruct s.
    + assert (Hneg : units32 (S754_finite true m e) < 0).
      { cbn [units32]. pose proof (bounded32 m e Hv) as (He & _ & _).
        assert (0 < 2 ^ (e + 149)) by (apply Z.pow_pos_nonneg; lia).
        nia. }
      split; cbn [SFcompare]; f_equal;
        try (symmetry; first [apply Z.compare_lt_iff | apply Z.compare_gt_iff]; lia).
    + rewrite !SFcompare_positive.
      assert (Eu : units32 (S754_finite false m e) = Z.pos m * 2 ^ (e + 149))
        by (cbn [units32]; lia).
      rewrite Eu. split; f_equal.
      * now apply compare_units32.
      * rewrite (Z.compare_antisym (Z.pos m * 2 ^ (e + 149))).
        rewrite <- (compare_units32 m e mc Hv Hc).
        rewrite (Z.compare_antisym e (-15)), (Z.compare_antisym (Z.pos m) (Z.pos mc)).
        destruct (e ?= -15); reflexivity.
Qed.

Lemma order_with_constants (t : float32) :
  valid32 t = true -> is_finite t = true ->
  (SFltb t c277 = true <-> units32 t < kelvin 277)
  /\ (SFleb c277 t = true <-> kelvin 277 <= units32 t)
  /\ (SFleb t c297 = true <-> units32 t <= kelvin 297)
  /\ (SFltb c297 t = true <-> kelvin 297 < units32 t).
Proof.
  intros Hv Hf.
  destruct units_of_constants as [-> ->].
  destruct (SFcompare_units32 t 9076736 Hv Hf ltac:(lia)) as [A1 A2].
  destruct (SFcompare_units32 t 9732096 Hv Hf ltac:(lia)) as [B1 B2].
  unfold SFltb, SFleb, c277, c297. rewrite A1, A2, B1, B2.
  change (Z.pos 9076736) with 9076736. change (Z.pos 9732096) with 9732096.
  repeat split; intros H;
    match goal with
    | |- context [?a ?= ?b] => destruct (Z.compare_spec a b)
    | H : context [?a ?= ?b] |- _ => destruct (Z.compare_spec a b)
    end; try discriminate; try reflexivity; lia.
Qed.

(** C1. For every feels-like temperature [t] (a [float32]),
    [GetCurrentTemperatureFeel] answers ["cold"] when [t < 277.0],
    ["moderate"] when [277.0 <= t <= 297.0] and ["hot"] when [t > 297.0],
    the comparisons being those of Go on [float32]; it answers nothing
    but these three; and the two boundary values themselves are
    ["moderate"].  For a finite [t] the comparisons are those of the
    value of [t] with 277 and 297. *)
Theorem C1_temperature_feel_buckets (r : OpenWeatherOneCallResponse) :
  let t := FeelsLike (Current r) in
  (SFltb t c277 = true -> GetCurrentTemperatureFeel r = "cold")
  /\ (SFleb c277 t = true -> SFleb t c297 = true ->
      GetCurrentTemperatureFeel r = "moderate")
  /\ (SFltb c297 t = true -> GetCurrentTemperatureFeel r = "hot")
  /\ (GetCurrentTemperatureFeel r = "cold" \/ GetCurrentTemperatureFeel r = "moderate"
      \/ GetCurrentTemperatureFeel r = "hot")
  /\ GetCurrentTemperatureFeel (with_feels_like c277) = "moderate"
  /\ GetCurrentTemperatureFeel (with_feels_like c297) = "moderate"
  /\ (valid32 t = true -> is_finite t = true ->
      (units32 t < kelvin 277 -> GetCurrentTemperatureFeel r = "cold")
      /\ (kelvin 277 <= units32 t <= kelvin 297 ->
          GetCurrentTemperatureFeel r = "moderate")
      /\ (kelvin 297 < units32 t -> GetCurrentTemperatureFeel r = "hot")).
Proof.
  cbv zeta.
  assert (Hcold : SFltb (FeelsLike (Current r)) c277 = true ->
                  GetCurrentTemperatureFeel r = "cold").
  { unfold GetCurrentTemperatureFeel. intros ->. reflexivity. }
  assert (Hmoderate : SFleb c277 (FeelsLike (Current r)) = true ->
                      SFleb (FeelsLike (Current r)) c297 = true ->
                      GetCurrentTemperatureFeel r = "moderate").
  { unfold GetCurrentTemperatureFeel. intros H1 H2.
    rewrite (at_least_c277_not_below _ H1), H2. reflexivity. }
  assert (Hhot : SFltb c297 (FeelsLike (Current r)) = true ->
                 GetCurrentTemperatureFeel r = "hot").
  { unfold GetCurrentTemperatureFeel. intros H.
    rewrite (above_c297_not_le _ H).
    destruct (SFltb (FeelsLike (Current r)) c277) eqn:E; [|reflexivity].
    apply below_c277_not_above_c297 in E. congruence. }
  repeat apply conj; try assumption; try reflexivity.
  - unfold GetCurrentTemperatureFeel.
    destruct (SFltb _ c277); [now left|].
    destruct (SFleb _ c297); [right; now left | right; now right].
  - intros Hv Hf.
    destruct (order_with_constants _ Hv Hf) as (O1 & O2 & O3 & O4).
    repeat split.
    + intros H. apply Hcold. now apply O1.
    + intros [H1 H2]. apply Hmoderate; [now apply O2 | now apply O3].
    + intros H. apply Hhot. now apply O4.
Qed.

(** The theorem at 250 K, at 280 K and at 300 K, and on the value of
    the least [float32] above 297. *)
Lemma C1_temperature_feel_buckets_witness :
  GetCurrentTemperatureFeel (with_feels_like (f32_of_Z 250)) = "cold"
  /\ GetCurrentTemperatureFeel (with_feels_like (f32_of_Z 280)) = "moderate"
  /\ GetCurrentTemperatureFeel (with_feels_like (f32_of_Z 300)) = "hot"
  /\ GetCurrentTemperatureFeel (with_feels_like (S754_finite false 9732097 (-15))) = "hot".
Proof.
  split; [|split; [|split]].
  - apply (proj1 (C1_temperature_feel_buckets (with_feels_like (f32_of_Z 250)))).
    reflexivity.
  - apply (proj1 (proj2 (C1_temperature_feel_buckets (with_feels_like (f32_of_Z 280)))));
      reflexivity.
  - apply (proj1 (proj2 (proj2
             (C1_temperature_feel_buckets (with_feels_like (f32_of_Z 300)))))).
    reflexivity.
  - destruct (C1_temperature_feel_buckets
                (with_feels_like (S754_finite false 9732097 (-15))))
      as (_ & _ & _ & _ & _ & _ & H).
    destruct (H eq_refl eq_refl) as (_ & _ & Hhot).
    apply Hhot. vm_compute. reflexivity.
Defined.

(** The temperature that is classified is the [float32] that the decoder
    stored: a number of the payload a little above 297 that rounds to
    297 as a [float32] is ["moderate"]. *)
Lemma feels_like_is_a_float32 :
  ParseFloat "297.00001" 32 = (c297, None)
  /\ GetCurrentTemperatureFeel (with_feels_like (fst (ParseFloat "297.00001" 32)))
     = "moderate".
Proof. split; vm_compute; reflexivity. Qed.

(** ** Condition and alert extraction *)

Section SliceFacts.
Context {A B : Type}.

(** Appending, one by one, as many elements as the slice has spare slots
    fills exactly those slots. *)
Lemma fold_append1_within_capacity (f : B -> A) (zero : A) (xs : list B) :
  forall (acc : list A) (k : nat),
    fold_left (fun s x => append1 s (f x)) xs
              (Slice acc (repeat zero (length xs + k)))
    = Slice (acc ++ map f xs) (repeat zero k).
Proof.
  induction xs as [| x xs IH]; intros acc k; cbn.
  - now rewrite app_nil_r.
  - rewrite IH. now rewrite <- app_assoc.
Qed.

Lemma fold_append1_exact (f : B -> A) (zero : A) (xs : list B) :
  fold_left (fun s x => append1 s (f x)) xs (make0 zero (length xs))
  = Slice (map f xs) [].
Proof.
  unfold make0.
  rewrite <- (Nat.add_0_r (length xs)).
  now rewrite fold_append1_within_capacity.
Qed.

End SliceFacts.

Lemma GetCurrentConditions_eq (r : OpenWeatherOneCallResponse) :
  GetCurrentConditions r = Slice (map Main (items (Weather (Current r)))) [].
Proof.
  unfold GetCurrentConditions, len. cbv zeta.
  apply (fold_append1_exact Main).
Qed.

Lemma GetCurrentAlerts_eq (r : OpenWeatherOneCallResponse) :
  GetCurrentAlerts r = Slice (items (Alerts r)) [].
Proof.
  unfold GetCurrentAlerts, append, len.
  rewrite (fold_append1_exact (fun a => a)).
  now rewrite map_id.
Qed.

(** C6. For every provider answer, [GetCurrentConditions] returns a
    non-nil slice with one string per entry of [Weather], the [Main] of
    the entry at the same position: same length, same order, nothing
    left out.  For an empty [Weather] (nil or not) the result is the
    empty, non-nil slice, which is marshalled as an empty array. *)
Theorem C6_conditions_positional (r : OpenWeatherOneCallResponse) :
  items (GetCurrentConditions r) = map Main (items (Weather (Current r)))
  /\ len (GetCurrentConditions r) = len (Weather (Current r))
  /\ (forall i e, nth_error (items (Weather (Current r))) i = Some e ->
                  nth_error (items (GetCurrentConditions r)) i = Some (Main e))
  /\ is_nil (GetCurrentConditions r) = false
  /\ (len (Weather (Current r)) = 0%nat ->
      GetCurrentConditions r = Slice [] []
      /\ Json.encode_slice Json.encode_string (GetCurrentConditions r) = Json.Array []).
Proof.
  rewrite GetCurrentConditions_eq. cbn [items is_nil]. unfold len. cbn [items].
  repeat split.
  - now rewrite length_map.
  - intros i e H. now rewrite nth_error_map, H.
  - destruct (items (Weather (Current r))); [reflexivity | discriminate].
  - destruct (items (Weather (Current r))); [reflexivity | discriminate].
Qed.

Lemma C6_conditions_positional_witness :
  items (GetCurrentConditions sample_response) = ["Clear"; "Clouds"]
  /\ nth_error (items (GetCurrentConditions sample_response)) 1 = Some "Clouds"
  /\ GetCurrentConditions zeroResponse = Slice [] [].
Proof.
  split; [|split].
  - apply (proj1 (C6_conditions_positional sample_response)).
  - apply (proj1 (proj2 (proj2 (C6_conditions_positional sample_response)))
             1%nat {| Main := "Clouds" |}).
    reflexivity.
  - apply (proj2 (proj2 (proj2 (proj2 (C6_conditions_positional zeroResponse))))).
    reflexivity.
Defined.

(** C7. For every provider answer, [GetCurrentAlerts] returns a non-nil
    slice holding the alerts of the answer, each triple unchanged and at
    its position; for an empty [Alerts] (nil or not) it is the empty
    slice. *)
Theorem C7_alerts_positional_copy (r : OpenWeatherOneCallResponse) :
  items (GetCurrentAlerts r) = items (Alerts r)
  /\ len (GetCurrentAlerts r) = len (Alerts r)
  /\ (forall i, nth_error (items (GetCurrentAlerts r)) i = nth_error (items (Alerts r)) i)
  /\ is_nil (GetCurrentAlerts r) = false
  /\ (len (Alerts r) = 0%nat -> GetCurrentAlerts r = Slice [] []).
Proof.
  rewrite GetCurrentAlerts_eq. unfold len. cbn [items is_nil].
  repeat split.
  destruct (items (Alerts r)); [reflexivity | discriminate].
Qed.

Lemma C7_alerts_positional_copy_witness :
  items (GetCurrentAlerts sample_response) = [sample_alert]
  /\ GetCurrentAlerts zeroResponse = Slice [] [].
Proof.
  split.
  - apply (proj1 (C7_alerts_positional_copy sample_response)).
  - apply (proj2 (proj2 (proj2 (proj2 (C7_alerts_positional_copy zeroResponse))))).
    reflexivity.
Defined.

(** ** Startup *)

(** C9. When the variable [OPENWEATHERMAP_API_KEY] is not in the
    environment, [main] writes its diagnostic to standard error and
    exits with status 1: it does not come to listen. *)
Theorem C9_missing_api_key_is_fatal
        (environ : gmap string string) (local : Time.Location)
        (upstream : UpstreamCall -> UpstreamReply) :
  environ !! "OPENWEATHERMAP_API_KEY" = None ->
  main environ local upstream
  = {| stderr := "Missing required environment variable OPENWEATHERMAP_API_KEY"
                 +:+ String newline "";
       running := Exited 1 |}.
Proof.
  intros H. unfold main, Getenv. now rewrite H.
Qed.

Lemma C9_missing_api_key_is_fatal_witness :
  running (main environ_without_key Time.UTC unreachable_provider) = Exited 1.
Proof.
  rewrite (C9_missing_api_key_is_fatal environ_without_key Time.UTC unreachable_provider).
  - reflexivity.
  - reflexivity.
Defined.

(** With the key set to a non-empty value, [main] writes nothing to
    standard error and goes on to listen on port 8080. *)
Lemma main_with_key_listens
      (environ : gmap string string) (local : Time.Location)
      (upstream : UpstreamCall -> UpstreamReply) (key : string) :
  environ !! "OPENWEATHERMAP_API_KEY" = Some key -> key <> "" ->
  main environ local upstream
  = {| stderr := ""; running := Listening ":8080" (serve key local upstream) |}.
Proof.
  intros H Hkey. unfold main, Getenv. rewrite H.
  destruct (String.eqb_spec key ""); [contradiction | reflexivity].
Qed.

(** ** The timestamp *)





(** ** The names of the fields in the response body *)

(** C3, on the code.  The tag of [CurrentTemperatureFeel] lacks its
    closing quote, so [StructTag.Get] finds no [json] key in it and the
    field is marshalled under its Go name: every body the handler writes
    has the keys [Timestamp], [CurrentTemperatureFeel],
    [current_conditions] and [alerts], in this order. *)
Theorem C3_marshalled_field_names (m : MyWeatherResponse) :
  Json.Get (Json.json_tag_unclosed "current_temperature_feel") "json" = ""
  /\ encode_MyWeatherResponse m
     = Json.Object
         [("Timestamp", Json.Str (Timestamp m));
          ("CurrentTemperatureFeel", Json.Str (CurrentTemperatureFeel m));
          ("current_conditions", Json.encode_slice Json.encode_string (CurrentConditions m));
          ("alerts", Json.encode_slice encode_Alert (CurrentAlerts m))].
Proof.
  split; reflexivity.
Qed.

(* ===================================================================== *)
(** * Route patterns and [ParseFloat] *)
(* ===================================================================== *)

(** ** The matcher is sound and complete for the language *)
Module RegexpFacts.
Import Regexp.

Lemma append_nil (t : string) : "" +:+ t = t.
Proof. reflexivity. Qed.

Lemma append_cons (c : ascii) (s t : string) : String c s +:+ t = String c (s +:+ t).
Proof. reflexivity. Qed.

Lemma append_empty_r (s : string) : s +:+ "" = s.
Proof. induction s as [| c s IH]; [reflexivity | rewrite append_cons; congruence]. Qed.

Lemma append_assoc (a b c : string) : (a +:+ b) +:+ c = a +:+ (b +:+ c).
Proof.
  induction a as [| x a IH]; [reflexivity | rewrite !append_cons; congruence].
Qed.

Lemma nullable_sound (r : regex) : nullable r = true -> Matches r "".
Proof.
  induction r; cbn; intros H; try discriminate.
  - constructor.
  - apply andb_prop in H as [H1 H2].
    change "" with ("" +:+ ""). constructor; auto.
  - apply orb_prop in H as [H | H]; [apply MAltL | apply MAltR]; auto.
  - constructor.
Qed.

Lemma nullable_complete (r : regex) : Matches r "" -> nullable r = true.
Proof.
  intros H. remember "" as s eqn:E.
  induction H; cbn; try discriminate; try reflexivity.
  - destruct s1; [|discriminate]. rewrite append_nil in E. subst s2.
    rewrite IHMatches1, IHMatches2; reflexivity.
  - rewrite IHMatches; [reflexivity | assumption].
  - rewrite IHMatches; [apply orb_true_r | assumption].
Qed.

Lemma deriv_sound (c : ascii) (r : regex) :
  forall s, Matches (deriv c r) s -> Matches r (String c s).
Proof.
  induction r; cbn; intros s H.
  - inversion H.
  - inversion H.
  - destruct (in_class ranges c) eqn:E; inversion H; subst. now constructor.
  - destruct (nullable r1) eqn:N.
    + inversion H; subst.
      * match goal with X : Matches (Cat _ _) _ |- _ => inversion X; subst end.
        change (String c (?a +:+ ?b)) with (String c a +:+ b).
        constructor; auto.
      * change (String c s) with ("" +:+ String c s).
        constructor; auto using nullable_sound.
    + inversion H; subst.
      change (String c (?a +:+ ?b)) with (String c a +:+ b).
      constructor; auto.
  - inversion H; subst; [apply MAltL | apply MAltR]; auto.
  - inversion H; subst.
    change (String c (?a +:+ ?b)) with (String c a +:+ b).
    constructor; auto.
Qed.

Lemma deriv_complete (c : ascii) (r : regex) (s0 : string) :
  Matches r s0 -> forall t, s0 = String c t -> Matches (deriv c r) t.
Proof.
  induction 1 as [| rs c0 Hc | r1 r2 s1 s2 H1 IH1 H2 IH2 | r1 r2 s H IH
                  | r1 r2 s H IH | r | r c0 s1 s2 H1 IH1 H2 IH2];
    intros t E; cbn.
  - discriminate.
  - injection E as E1 E2. subst. rewrite Hc. constructor.
  - destruct s1 as [| c1 s1].
    + rewrite append_nil in E. subst s2.
      rewrite (nullable_complete _ H1). apply MAltR. now apply IH2.
    + rewrite append_cons in E. injection E as E1 E2. subst.
      destruct (nullable r1); [apply MAltL|]; constructor; auto.
  - apply MAltL. now apply IH.
  - apply MAltR. now apply IH.
  - discriminate.
  - rewrite append_cons in E. injection E as E1 E2. subst.
    constructor; auto.
Qed.

Lemma MatchString_sound (s : string) :
  forall r, MatchString r s = true -> Matches r s.
Proof.
  induction s as [| c s IH]; cbn; intros r H.
  - now apply nullable_sound.
  - apply deriv_sound. now apply IH.
Qed.

Lemma MatchString_complete (s : string) :
  forall r, Matches r s -> MatchString r s = true.
Proof.
  induction s as [| c s IH]; cbn; intros r H.
  - now apply nullable_complete.
  - apply IH. now apply (deriv_complete c r (String c s)).
Qed.

(** ** What the two patterns of the route table accept *)

Lemma in_digit_class (c : ascii) : in_class [("0"%char, "9"%char)] c = is_digit c.
Proof. unfold in_class, is_digit. cbn. now rewrite orb_false_r. Qed.

Lemma Matches_digit (s : string) :
  Matches digit_class s -> exists c, s = String c "" /\ is_digit c = true.
Proof.
  inversion 1; subst. eexists; split; [reflexivity|].
  now rewrite <- in_digit_class.
Qed.

Lemma Matches_digits (s : string) :
  Matches (Star digit_class) s -> all_digits s = true.
Proof.
  intros H. remember (Star digit_class) as r eqn:E.
  induction H; try discriminate; [reflexivity|].
  injection E as ->.
  apply Matches_digit in H as (d & Hd & Hdig).
  injection Hd as E1 E2. subst.
  rewrite append_cons, append_nil. cbn [all_digits].
  rewrite Hdig. now apply IHMatches2.
Qed.

Lemma Matches_digits1 (s : string) :
  Matches (Plus digit_class) s ->
  exists c ds, s = String c ds /\ is_digit c = true /\ all_digits ds = true.
Proof.
  inversion 1; subst.
  match goal with X : Matches digit_class _ |- _ =>
    apply Matches_digit in X as (c & -> & Hc) end.
  exists c, s2. repeat split; auto using Matches_digits.
Qed.

Lemma between_same (a c : ascii) : between a a c = true -> c = a.
Proof.
  unfold between, code. intros H.
  apply andb_prop in H as [H1 H2]. apply N.leb_le in H1, H2.
  rewrite <- (ascii_N_embedding c), <- (ascii_N_embedding a).
  f_equal. lia.
Qed.

Lemma Matches_lit (a : ascii) (s : string) : Matches (Lit a) s -> s = String a "".
Proof.
  inversion 1 as [| rs c Hc | | | | |]; subst.
  unfold in_class in Hc. cbn [existsb fst snd] in Hc.
  rewrite orb_false_r in Hc. now rewrite (between_same _ _ Hc).
Qed.

Lemma Matches_sign (s : string) :
  Matches (Opt sign_class) s -> s = "" \/ s = "-" \/ s = "+".
Proof.
  inversion 1 as [| | | r1 r2 s' H1 | r1 r2 s' H1 | |]; subst.
  - inversion H1. now left.
  - inversion H1 as [| rs c Hc | | | | |]; subst. right.
    unfold in_class in Hc. cbn [existsb fst snd] in Hc.
    rewrite orb_false_r in Hc.
    apply orb_prop in Hc as [Hc | Hc]; rewrite (between_same _ _ Hc); auto.
Qed.

(** The fraction of [signed_decimal]: nothing, or a point and digits. *)
Lemma Matches_fraction (s : string) :
  Matches (Opt (Cat dot (Plus digit_class))) s ->
  s = "" \/ exists c ds, s = String "." (String c ds)
                         /\ is_digit c = true /\ all_digits ds = true.
Proof.
  inversion 1 as [| | | r1 r2 s' H1 | r1 r2 s' H1 | |]; subst.
  - inversion H1. now left.
  - right.
    inversion H1 as [| | r1 r2 s1 s2 Hd Hp | | | |]; subst.
    apply Matches_lit in Hd. subst s1.
    apply Matches_digits1 in Hp as (c' & ds & -> & Hc & Hds).
    exists c', ds. auto.
Qed.

(** A segment accepted by [[-+]?[0-9]+(?:\.[0-9]+)?] is a sign, a run of
    digits, and a fraction. *)
Lemma signed_decimal_shape (s : string) :
  MatchString signed_decimal s = true ->
  exists sg c ds fr,
    s = sg +:+ String c ds +:+ fr
    /\ (sg = "" \/ sg = "-" \/ sg = "+")
    /\ is_digit c = true /\ all_digits ds = true
    /\ (fr = "" \/ exists c' ds', fr = String "." (String c' ds')
                                  /\ is_digit c' = true /\ all_digits ds' = true).
Proof.
  intros H. apply MatchString_sound in H.
  inversion H; subst.
  match goal with X : Matches (Cat (Plus _) _) _ |- _ => inversion X; subst end.
  match goal with X : Matches (Opt sign_class) _ |- _ => apply Matches_sign in X end.
  match goal with X : Matches (Plus _) _ |- _ =>
    apply Matches_digits1 in X as (c & ds & -> & Hc & Hds) end.
  match goal with X : Matches (Opt (Cat _ _)) _ |- _ => apply Matches_fraction in X end.
  eexists _, c, ds, _. repeat split; eauto.
Qed.

(** Conversely, every string of that shape is accepted. *)
Lemma digit_Matches (c : ascii) : is_digit c = true -> Matches digit_class (String c "").
Proof. intros H. constructor. now rewrite in_digit_class. Qed.

Lemma digits_Matches (ds : string) :
  all_digits ds = true -> Matches (Star digit_class) ds.
Proof.
  induction ds as [| c ds IH]; intros H; [constructor|].
  cbn [all_digits] in H. apply andb_prop in H as [Hc Hds].
  apply (MStarS digit_class c "" ds); auto using digit_Matches.
Qed.

Lemma digits1_Matches (c : ascii) (ds : string) :
  is_digit c = true -> all_digits ds = true -> Matches (Plus digit_class) (String c ds).
Proof.
  intros Hc Hds.
  apply (MCat digit_class (Star digit_class) (String c "") ds);
    auto using digit_Matches, digits_Matches.
Qed.

Lemma signed_decimal_accepts (sg : string) (c : ascii) (ds fr : string) :
  (sg = "" \/ sg = "-" \/ sg = "+") ->
  is_digit c = true -> all_digits ds = true ->
  (fr = "" \/ exists c' ds', fr = String "." (String c' ds')
                            /\ is_digit c' = true /\ all_digits ds' = true) ->
  MatchString signed_decimal (sg +:+ String c ds +:+ fr) = true.
Proof.
  intros Hsg Hc Hds Hfr. apply MatchString_complete.
  unfold signed_decimal. constructor; [|constructor].
  - destruct Hsg as [-> | [-> | ->]].
    + apply MAltL. constructor.
    + apply MAltR. now constructor.
    + apply MAltR. now constructor.
  - now apply digits1_Matches.
  - destruct Hfr as [-> | (c' & ds' & -> & Hc' & Hds')].
    + apply MAltL. constructor.
    + apply MAltR.
      apply (MCat dot (Plus digit_class) "." (String c' ds')).
      * now constructor.
      * now apply digits1_Matches.
Qed.

End RegexpFacts.

(** ** [ParseFloat] on the segments the [/weather] pattern accepts *)
Module ParseFloatFacts.
Import Regexp RegexpFacts.

Lemma is_digit_cases (c : ascii) :
  is_digit c = true ->
  In c ["0"; "1"; "2"; "3"; "4"; "5"; "6"; "7"; "8"; "9"]%char.
Proof.
  unfold is_digit, between, code. intros H.
  apply andb_prop in H as [H1 H2]. apply N.leb_le in H1, H2.
  change (N_of_ascii "0") with 48%N in H1. change (N_of_ascii "9") with 57%N in H2.
  rewrite <- (ascii_N_embedding c).
  assert (E : (N_of_ascii c = 48 \/ N_of_ascii c = 49 \/ N_of_ascii c = 50
               \/ N_of_ascii c = 51 \/ N_of_ascii c = 52 \/ N_of_ascii c = 53
               \/ N_of_ascii c = 54 \/ N_of_ascii c = 55 \/ N_of_ascii c = 56
               \/ N_of_ascii c = 57)%N) by lia.
  repeat (destruct E as [E | E]; [rewrite E; cbn; tauto |]).
  rewrite E; cbn; tauto.
Qed.

(** Case analysis on a digit. *)
Ltac digit_cases H :=
  apply is_digit_cases in H; cbn [In] in H;
  repeat (destruct H as [H | H]; [subst |]); [.. | contradiction].

Lemma special_of_digit (c : ascii) (s : string) :
  is_digit c = true -> special (String c s) = None.
Proof. intros H. digit_cases H; reflexivity. Qed.

Lemma special_of_signed_digit (c : ascii) (s : string) :
  is_digit c = true ->
  special (String "-" (String c s)) = None /\ special (String "+" (String c s)) = None.
Proof. intros H. digit_cases H; split; reflexivity. Qed.

Lemma read_sign_digit (c : ascii) (s : string) :
  is_digit c = true -> read_sign (String c s) = (false, String c s).
Proof. intros H. digit_cases H; reflexivity. Qed.

Lemma digit_not_x (c : ascii) : is_digit c = true -> Ascii.eqb (lower c) "x" = false.
Proof. intros H. digit_cases H; reflexivity. Qed.

(** No base prefix when a digit or a point follows the first digit. *)
Lemma read_base_prefix_digit (c : ascii) (s : string) :
  is_digit c = true ->
  (s = "" \/ exists x s', s = String x s' /\ Ascii.eqb (lower x) "x" = false) ->
  read_base_prefix (String c s) = (false, String c s).
Proof.
  intros H [-> | (x & s' & -> & Hx)].
  - digit_cases H; reflexivity.
  - digit_cases H; try reflexivity.
    destruct s'; [reflexivity|]. cbn. now rewrite Hx.
Qed.

Lemma scan_digit_step (c : ascii) (s : string) (st : mant_state) :
  is_digit c = true ->
  scan_mantissa false (String c s) st
  = scan_mantissa false s (push_digit 10 (code c - 48) st).
Proof.
  intros H. cbn [scan_mantissa]. rewrite H.
  assert (E1 : Ascii.eqb c "_" = false) by (digit_cases H; reflexivity).
  assert (E2 : Ascii.eqb c "." = false) by (digit_cases H; reflexivity).
  now rewrite E1, E2.
Qed.

Lemma scan_dot_step (s : string) (st : mant_state) :
  sawdot st = false ->
  scan_mantissa false (String "." s) st = scan_mantissa false s (set_dot st).
Proof.
  intros H. cbn [scan_mantissa].
  change (Ascii.eqb "." "_") with false. change (Ascii.eqb "." ".") with true.
  cbv iota. now rewrite H.
Qed.

Lemma scan_digits (ds : string) :
  forall (s : string) (st : mant_state),
    all_digits ds = true ->
    scan_mantissa false (ds +:+ s) st = scan_mantissa false s (push_digits ds st).
Proof.
  induction ds as [| c ds IH]; intros s st H.
  - reflexivity.
  - cbn [all_digits] in H. apply andb_prop in H as [Hc Hds].
    rewrite append_cons, scan_digit_step by assumption.
    cbn [push_digits]. now apply IH.
Qed.

Lemma push_digits_flags (ds : string) :
  forall st, sawdot (push_digits ds st) = sawdot st
             /\ underscores (push_digits ds st) = underscores st
             /\ (sawdigits st = true -> sawdigits (push_digits ds st) = true).
Proof.
  induction ds as [| c ds IH]; intros st; cbn [push_digits]; [auto|].
  destruct (IH (push_digit 10 (code c - 48) st)) as (H1 & H2 & H3).
  rewrite H1, H2. cbn. auto.
Qed.

Lemma push_digits_sawdigits (c : ascii) (ds : string) (st : mant_state) :
  sawdigits (push_digits (String c ds) st) = true.
Proof. cbn [push_digits]. now apply push_digits_flags. Qed.

(** The mantissa loop on digits and a fraction reads everything. *)
Lemma scan_decimal (c : ascii) (ds fr : string) :
  is_digit c = true -> all_digits ds = true ->
  (fr = "" \/ exists c' ds', fr = String "." (String c' ds')
                             /\ is_digit c' = true /\ all_digits ds' = true) ->
  scan_mantissa false (String c ds +:+ fr) mant_init
  = (decimal_state (String c ds) fr, "").
Proof.
  intros Hc Hds Hfr.
  assert (Hip : all_digits (String c ds) = true) by (cbn; now rewrite Hc).
  rewrite scan_digits by assumption.
  destruct Hfr as [-> | (c' & ds' & -> & Hc' & Hds')].
  - reflexivity.
  - rewrite scan_dot_step
      by now destruct (push_digits_flags (String c ds) mant_init) as (-> & _ & _).
    rewrite <- (append_empty_r (String c' ds')).
    rewrite scan_digits by (cbn; now rewrite Hc').
    rewrite append_empty_r. reflexivity.
Qed.

Lemma decimal_state_flags (c : ascii) (ds fr : string) :
  sawdigits (decimal_state (String c ds) fr) = true
  /\ underscores (decimal_state (String c ds) fr) = false.
Proof.
  unfold decimal_state. destruct fr as [| d fd].
  - split; [apply push_digits_sawdigits|].
    now destruct (push_digits_flags (String c ds) mant_init) as (_ & -> & _).
  - destruct (push_digits_flags fd (set_dot (push_digits (String c ds) mant_init)))
      as (_ & -> & H).
    split.
    + apply H. cbn [sawdigits set_dot]. apply push_digits_sawdigits.
    + cbn [underscores set_dot].
      now destruct (push_digits_flags (String c ds) mant_init) as (_ & -> & _).
Qed.

(** After the first digit of the shape comes nothing, a digit or a
    point: never the [x] of a base prefix. *)
Lemma after_first_digit (ds fr : string) :
  all_digits ds = true ->
  (fr = "" \/ exists c' ds', fr = String "." (String c' ds')
                             /\ is_digit c' = true /\ all_digits ds' = true) ->
  ds +:+ fr = ""
  \/ exists x s', ds +:+ fr = String x s' /\ Ascii.eqb (lower x) "x" = false.
Proof.
  intros Hds Hfr. destruct ds as [| d ds].
  - destruct Hfr as [-> | (c' & ds' & -> & _)]; [now left|].
    right. eexists _, _. split; reflexivity.
  - right. cbn [all_digits] in Hds. apply andb_prop in Hds as [Hd _].
    rewrite append_cons. eexists _, _. split; [reflexivity|].
    now apply digit_not_x.
Qed.

Section Shape.
Variables (sg : string) (c : ascii) (ds fr : string).
Hypothesis Hsg : sg = "" \/ sg = "-" \/ sg = "+".
Hypothesis Hc : is_digit c = true.
Hypothesis Hds : all_digits ds = true.
Hypothesis Hfr :
  fr = "" \/ exists c' ds', fr = String "." (String c' ds')
                            /\ is_digit c' = true /\ all_digits ds' = true.

Lemma special_of_shape : special (sg +:+ String c ds +:+ fr) = None.
Proof.
  destruct Hsg as [-> | [-> | ->]].
  - rewrite append_nil, append_cons. now apply special_of_digit.
  - rewrite !append_cons, append_nil. now apply special_of_signed_digit.
  - rewrite !append_cons, append_nil. now apply special_of_signed_digit.
Qed.

Lemma readFloat_of_shape :
  readFloat (sg +:+ String c ds +:+ fr) = Some (scanned_decimal sg (String c ds) fr).
Proof.
  pose proof (after_first_digit ds fr Hds Hfr) as Hnext.
  pose proof (scan_decimal c ds fr Hc Hds Hfr) as Hscan.
  destruct (decimal_state_flags c ds fr) as (Hsaw & Hund).
  assert (Hread : forall neg s0,
             read_sign s0 = (neg, String c ds +:+ fr) ->
             match s0 with EmptyString => False | _ => True end ->
             readFloat s0 = Some {| neg := neg; hex := false;
                                    mant := mantissa (decimal_state (String c ds) fr);
                                    exp := if (mantissa (decimal_state (String c ds) fr) =? 0)%N
                                           then 0
                                           else 0 - frac_digits (decimal_state (String c ds) fr);
                                    rest := "" |}).
  { intros neg s0 Hs Hne. unfold readFloat.
    destruct s0 as [| c0 s0]; [contradiction|].
    rewrite Hs. cbv beta iota zeta.
    rewrite append_cons, (read_base_prefix_digit c (ds +:+ fr) Hc Hnext).
    rewrite <- append_cons, Hscan. cbv beta iota zeta.
    rewrite Hsaw, Hund. reflexivity. }
  unfold scanned_decimal. cbv zeta.
  destruct Hsg as [-> | [-> | ->]].
  - rewrite append_nil. apply Hread; [|now rewrite append_cons].
    rewrite append_cons. apply read_sign_digit, Hc.
  - apply Hread; [reflexivity | exact I].
  - apply Hread; [reflexivity | exact I].
Qed.

(** On such a string [ParseFloat] rounds the number read, and its only
    possible error is the range error of an overflow. *)
Lemma ParseFloat_of_shape :
  ParseFloat (sg +:+ String c ds +:+ fr) 64
  = let f := round_scanned prec64 emax64 (scanned_decimal sg (String c ds) fr) in
    (f, if is_infinity f then Some ErrRange else None).
Proof.
  unfold ParseFloat. change (64 =? 32) with false. cbv beta iota zeta.
  rewrite special_of_shape, readFloat_of_shape. reflexivity.
Qed.

End Shape.


End ParseFloatFacts.

(** ** The range of [ParseFloat]

    A decimal number is out of range when its rounding overflows.  The
    facts below bound the exponent that the standard library's rounding
    produces, and give a length under which no accepted segment is out
    of range. *)
Module RoundingFacts.

Lemma Zdigits2_bound (m k : Z) : 0 <= m -> 0 <= k -> m < 2 ^ k -> Zdigits2 m <= k.
Proof.
  intros Hm Hk H. destruct m as [| p | p]; [cbn; lia | | lia].
  cbn [Zdigits2].
  pose proof (digits2_pos_bounds p) as [Hlo _].
  destruct (Z.le_gt_cases (Z.pos (digits2_pos p)) k) as [|Hgt]; [assumption|].
  exfalso.
  assert (2 ^ k <= 2 ^ (Z.pos (digits2_pos p) - 1)) by (apply Z.pow_le_mono_r; lia).
  lia.
Qed.

Lemma Zdigits2_upper (m : Z) : 0 <= m -> m < 2 ^ Zdigits2 m.
Proof.
  intros Hm. destruct m as [| p | p]; [cbn; lia | | lia].
  cbn [Zdigits2]. apply digits2_pos_bounds.
Qed.

Lemma Zdigits2_nonneg (m : Z) : 0 <= Zdigits2 m.
Proof. destruct m; cbn; lia. Qed.

Lemma shr_1_m (r : shr_record) :
  0 <= shr_m r -> shr_m (shr_1 r) = shr_m r / 2.
Proof.
  destruct r as [m b s]. cbn [shr_m]. intros H.
  rewrite <- Z.div2_div.
  destruct m as [| [p | p |] | p]; try reflexivity. lia.
Qed.

Lemma iter_shr_1_m (p : positive) :
  forall r, 0 <= shr_m r -> shr_m (SpecFloat.iter_pos shr_1 p r) = shr_m r / 2 ^ Z.pos p.
Proof.
  induction p as [p IH | p IH |]; intros r H; cbn [SpecFloat.iter_pos].
  - assert (H1 : 0 <= shr_m (shr_1 r)) by (rewrite shr_1_m by assumption; apply Z.div_pos; lia).
    assert (H2 : 0 <= shr_m (SpecFloat.iter_pos shr_1 p (shr_1 r)))
      by (rewrite IH by assumption; apply Z.div_pos; lia).
    rewrite IH, IH, shr_1_m by assumption.
    rewrite !Z.div_div by lia.
    f_equal. replace (Z.pos p~1) with (1 + Z.pos p + Z.pos p) by lia.
    rewrite !Z.pow_add_r, Z.pow_1_r by lia. ring.
  - assert (H2 : 0 <= shr_m (SpecFloat.iter_pos shr_1 p r))
      by (rewrite IH by assumption; apply Z.div_pos; lia).
    rewrite IH, IH by assumption.
    rewrite !Z.div_div by lia.
    f_equal. replace (Z.pos p~0) with (Z.pos p + Z.pos p) by lia.
    rewrite !Z.pow_add_r by lia. ring.
  - rewrite shr_1_m by assumption. reflexivity.
Qed.

Lemma shr_record_of_loc_m (m : Z) (l : location) : shr_m (shr_record_of_loc m l) = m.
Proof. destruct l as [| []]; reflexivity. Qed.

Lemma round_nearest_even_bounds (m : Z) (l : location) :
  m <= round_nearest_even m l <= m + 1.
Proof. destruct l as [| []]; cbn; try destruct (Z.even m); lia. Qed.

Lemma fexp64 (x : Z) : fexp prec64 emax64 x = Z.max (x - 53) (-1074).
Proof. reflexivity. Qed.

(** The first component of [shr_fexp] is the mantissa shifted to the
    right, the second the exponent moved up by as much. *)
Lemma shr_fexp_exponent (m e : Z) (l : location) :
  snd (shr_fexp prec64 emax64 m e l) = Z.max e (fexp prec64 emax64 (Zdigits2 m + e)).
Proof.
  unfold shr_fexp, shr.
  destruct (fexp prec64 emax64 (Zdigits2 m + e) - e) eqn:E; cbn [snd]; lia.
Qed.

Lemma shr_fexp_mantissa (m e : Z) (l : location) :
  0 <= m ->
  shr_m (fst (shr_fexp prec64 emax64 m e l))
  = m / 2 ^ Z.max 0 (fexp prec64 emax64 (Zdigits2 m + e) - e).
Proof.
  intros Hm. unfold shr_fexp, shr.
  destruct (fexp prec64 emax64 (Zdigits2 m + e) - e) as [| p | p] eqn:E; cbn [fst].
  - rewrite shr_record_of_loc_m. cbn. now rewrite Z.div_1_r.
  - rewrite iter_shr_1_m by (rewrite shr_record_of_loc_m; assumption).
    rewrite shr_record_of_loc_m. f_equal.
  - rewrite shr_record_of_loc_m. cbn. now rewrite Z.div_1_r.
Qed.

(** Below [2^1023] rounding does not overflow: the exponent after the
    first shift is at most 970, and rounding raises it by one at most. *)
Lemma binary_round_aux_no_overflow (sx : bool) (mx ex : Z) (lx : location) :
  0 <= mx -> ex <= 970 -> mx < 2 ^ (1023 - ex) ->
  is_infinity (binary_round_aux prec64 emax64 sx mx ex lx) = false.
Proof.
  intros Hm He Hlt. unfold binary_round_aux.
  pose proof (shr_fexp_exponent mx ex lx) as E1.
  pose proof (shr_fexp_mantissa mx ex lx Hm) as M1.
  destruct (shr_fexp prec64 emax64 mx ex lx) as [r1 e1]. cbn [fst snd] in E1, M1.
  set (m2 := round_nearest_even (shr_m r1) (loc_of_shr_record r1)).
  pose proof (shr_fexp_exponent m2 e1 loc_Exact) as E2.
  destruct (shr_fexp prec64 emax64 m2 e1 loc_Exact) as [r2 e2]. cbn [snd] in E2.
  (* the first shift *)
  pose proof (Zdigits2_nonneg mx) as Hd0.
  assert (Hd : Zdigits2 mx <= 1023 - ex) by (apply Zdigits2_bound; lia).
  rewrite fexp64 in E1, M1.
  assert (He1 : -1074 <= e1 <= 970) by lia.
  assert (Hm1 : 0 <= shr_m r1 < 2 ^ 53).
  { rewrite M1. set (n := Z.max 0 (Z.max (Zdigits2 mx + ex - 53) (-1074) - ex)).
    assert (Hn : 0 <= n) by (subst n; lia).
    assert (Hp : 0 < 2 ^ n) by (apply Z.pow_pos_nonneg; lia).
    split; [apply Z.div_pos; lia|].
    apply Z.div_lt_upper_bound; [assumption|].
    rewrite <- Z.pow_add_r by lia.
    apply Z.lt_le_trans with (1 := Zdigits2_upper mx Hm).
    apply Z.pow_le_mono_r; subst n; lia. }
  (* rounding, and the second shift *)
  pose proof (round_nearest_even_bounds (shr_m r1) (loc_of_shr_record r1)) as Hr.
  fold m2 in Hr.
  assert (Hd2 : Zdigits2 m2 <= 54).
  { apply Zdigits2_bound; lia. }
  rewrite fexp64 in E2.
  assert (He2 : e2 <= 971) by lia.
  destruct (shr_m r2); try reflexivity.
  change (emax64 - prec64) with 971.
  destruct (Z.leb_spec e2 971); [reflexivity | lia].
Qed.

Lemma iter_xO (d m : positive) : Z.pos (Pos.iter xO m d) = Z.pos m * 2 ^ Z.pos d.
Proof.
  induction d as [| d IH] using Pos.peano_ind.
  - cbn. lia.
  - rewrite Pos.iter_succ, Pos2Z.inj_xO, IH, Pos2Z.inj_succ, Z.pow_succ_r by lia. ring.
Qed.

Lemma binary_round_no_overflow (sx : bool) (m : positive) :
  Z.pos m < 2 ^ 1023 ->
  is_infinity (binary_round prec64 emax64 sx m 0) = false.
Proof.
  intros H. unfold binary_round, shl_align.
  set (e' := fexp prec64 emax64 (Z.pos (digits2_pos m) + 0)).
  destruct (e' - 0) as [| d | d] eqn:E.
  - apply binary_round_aux_no_overflow; [lia | lia | exact H].
  - apply binary_round_aux_no_overflow; [lia | lia | exact H].
  - assert (Ee : e' = - Z.pos d) by lia.
    apply binary_round_aux_no_overflow; [lia | lia |].
    rewrite iter_xO, Ee.
    replace (1023 - - Z.pos d) with (1023 + Z.pos d) by lia.
    rewrite Z.pow_add_r by lia.
    apply Z.mul_lt_mono_pos_r; [apply Z.pow_pos_nonneg; lia | exact H].
Qed.

Lemma SFdiv_no_overflow (sx : bool) (m D : positive) :
  Z.pos m < 2 ^ 1023 * Z.pos D ->
  is_infinity (SFdiv prec64 emax64 (S754_finite sx m 0) (S754_finite false D 0)) = false.
Proof.
  intros H. cbn [SFdiv]. unfold SFdiv_core_binary.
  set (e' := Z.min (fexp prec64 emax64 (Zdigits2 (Z.pos m) + 0 - (Zdigits2 (Z.pos D) + 0)))
                   (0 - 0)).
  assert (He : e' <= 0) by (subst e'; lia).
  set (m' := match 0 - 0 - e' with
             | Z.pos _ => Z.shiftl (Z.pos m) (0 - 0 - e')
             | 0 => Z.pos m
             | Z.neg _ => 0
             end).
  assert (Em : m' = Z.pos m * 2 ^ (- e')).
  { subst m'. destruct (0 - 0 - e') as [| p | p] eqn:E.
    - replace (- e') with 0 by lia. cbn. lia.
    - rewrite Z.shiftl_mul_pow2 by lia. f_equal. f_equal. lia.
    - lia. }
  pose proof (Z.div_eucl_eq m' (Z.pos D) ltac:(lia)) as Hdiv.
  pose proof (Z.mod_pos_bound m' (Z.pos D) ltac:(lia)) as Hmod.
  unfold Z.modulo in Hmod.
  destruct (Z.div_eucl m' (Z.pos D)) as [q r].
  assert (Hp : 0 < 2 ^ (- e')) by (apply Z.pow_pos_nonneg; lia).
  assert (Hq : 0 <= q) by nia.
  apply binary_round_aux_no_overflow; [assumption | lia |].
  replace (1023 - e') with (1023 + - e') by lia.
  rewrite Z.pow_add_r by lia.
  assert (Hlt : m' < 2 ^ 1023 * 2 ^ (- e') * Z.pos D).
  { rewrite Em. rewrite <- Z.mul_assoc, (Z.mul_comm (2 ^ (- e'))), Z.mul_assoc.
    apply Z.mul_lt_mono_pos_r; assumption. }
  nia.
Qed.

End RoundingFacts.

Module RangeFacts.
Import Regexp RegexpFacts ParseFloatFacts RoundingFacts.

(** The digits read bound the mantissa, and the digits read after the
    point are counted. *)
Lemma digit_code (c : ascii) : is_digit c = true -> (code c - 48 <= 9)%N.
Proof.
  unfold is_digit, between, code. intros H.
  apply andb_prop in H as [_ H]. apply N.leb_le in H.
  change (N_of_ascii "9") with 57%N in H. lia.
Qed.

Lemma push_digits_mantissa (ds : string) :
  forall st,
    all_digits ds = true ->
    (mantissa (push_digits ds st) + 1
     <= (mantissa st + 1) * 10 ^ N.of_nat (String.length ds))%N.
Proof.
  induction ds as [| c ds IH]; intros st H.
  - cbn. lia.
  - cbn [all_digits] in H. apply andb_prop in H as [Hc Hds].
    cbn [push_digits String.length].
    apply N.le_trans with (1 := IH _ Hds).
    cbn [mantissa push_digit].
    pose proof (digit_code c Hc).
    rewrite Nat2N.inj_succ, N.pow_succ_r by lia.
    nia.
Qed.

Lemma push_digits_frac (ds : string) :
  forall st,
    frac_digits (push_digits ds st)
    = frac_digits st + (if sawdot st then Z.of_nat (String.length ds) else 0).
Proof.
  induction ds as [| c ds IH]; intros st.
  - cbn. destruct (sawdot st); lia.
  - cbn [push_digits String.length]. rewrite IH.
    cbn [frac_digits sawdot push_digit].
    destruct (sawdot st); lia.
Qed.

(** The number read from digits and a fraction is below
    [10 ^ (number of digits before the point)]. *)
Lemma decimal_state_bound (ip fr : string) :
  all_digits ip = true ->
  (fr = "" \/ exists c' ds', fr = String "." (String c' ds')
                            /\ is_digit c' = true /\ all_digits ds' = true) ->
  let st := decimal_state ip fr in
  0 <= frac_digits st
  /\ Z.of_N (mantissa st) < 10 ^ Z.of_nat (String.length ip) * 10 ^ frac_digits st.
Proof.
  intros Hip Hfr. cbv zeta. unfold decimal_state.
  pose proof (push_digits_mantissa ip mant_init Hip) as Hm.
  pose proof (push_digits_frac ip mant_init) as Hf.
  cbn [mantissa frac_digits sawdot mant_init] in Hm, Hf.
  destruct Hfr as [-> | (c' & ds' & -> & Hc' & Hds')].
  - rewrite Hf. split; [lia|].
    apply N2Z.inj_le in Hm. rewrite N2Z.inj_add, N2Z.inj_mul, N2Z.inj_pow in Hm.
    rewrite nat_N_Z in Hm. cbn in Hm |- *. lia.
  - assert (Hfd : all_digits (String c' ds') = true) by (cbn; now rewrite Hc').
    pose proof (push_digits_mantissa (String c' ds')
                  (set_dot (push_digits ip mant_init)) Hfd) as Hm2.
    pose proof (push_digits_frac (String c' ds') (set_dot (push_digits ip mant_init)))
      as Hf2.
    cbn [mantissa frac_digits sawdot set_dot] in Hm2, Hf2.
    rewrite Hf2, Hf. split; [lia|].
    apply N2Z.inj_le in Hm, Hm2.
    rewrite N2Z.inj_add, N2Z.inj_mul, N2Z.inj_pow, nat_N_Z in Hm, Hm2.
    change (Z.of_N 1) with 1 in *. change (Z.of_N 10) with 10 in *.
    change (Z.of_N 0) with 0 in *.
    replace (0 + 0 + Z.of_nat (String.length (String c' ds')))
      with (Z.of_nat (String.length (String c' ds'))) by lia.
    set (P := 10 ^ Z.of_nat (String.length ip)) in *.
    set (Q := 10 ^ Z.of_nat (String.length (String c' ds'))) in *.
    assert (0 < Q) by (subst Q; apply Z.pow_pos_nonneg; lia).
    nia.
Qed.

Lemma ten_307 : 10 ^ 307 < 2 ^ 1023.
Proof. reflexivity. Qed.

(** A number with at most 307 digits before the point is rounded to a
    finite [float64]. *)
Lemma round_decimal_no_overflow (sg ip fr : string) :
  all_digits ip = true ->
  (fr = "" \/ exists c' ds', fr = String "." (String c' ds')
                            /\ is_digit c' = true /\ all_digits ds' = true) ->
  (String.length ip <= 307)%nat ->
  is_infinity (round_scanned prec64 emax64 (scanned_decimal sg ip fr)) = false.
Proof.
  intros Hip Hfr Hlen.
  destruct (decimal_state_bound ip fr Hip Hfr) as [Hf Hm]. cbv zeta in Hf, Hm.
  unfold round_scanned, scanned_decimal. cbn [mant hex exp neg].
  set (st := decimal_state ip fr) in *.
  assert (Hten : 10 ^ Z.of_nat (String.length ip) < 2 ^ 1023).
  { apply Z.le_lt_trans with (10 ^ 307); [|exact ten_307].
    apply Z.pow_le_mono_r; lia. }
  assert (Hq : 0 < 10 ^ frac_digits st) by (apply Z.pow_pos_nonneg; lia).
  destruct (mantissa st) as [| m] eqn:Em; [reflexivity|].
  change (Z.of_N (N.pos m)) with (Z.pos m) in Hm.
  change ((N.pos m =? 0)%N) with false. cbv iota.
  destruct (Z.leb_spec 0 (0 - frac_digits st)) as [Hz | Hz].
  - assert (E0 : frac_digits st = 0) by lia.
    rewrite E0 in *. change (0 - 0) with 0. change (Z.to_pos (10 ^ 0)) with 1%positive.
    apply binary_round_no_overflow.
    rewrite Pos.mul_1_r. change (10 ^ 0) with 1 in Hm. lia.
  - apply SFdiv_no_overflow.
    replace (- (0 - frac_digits st)) with (frac_digits st) by lia.
    rewrite Z2Pos.id by assumption.
    apply Z.lt_trans with (1 := Hm).
    apply Z.mul_lt_mono_pos_r; assumption.
Qed.

Lemma length_append (a b : string) :
  String.length (a +:+ b) = (String.length a + String.length b)%nat.
Proof.
  induction a as [| c a IH]; [reflexivity|].
  rewrite append_cons. cbn [String.length]. now rewrite IH.
Qed.

(** Every segment that the pattern of the [/weather] route accepts and
    that is at most 307 bytes long is converted without error. *)
Lemma ParseFloat_short_segment (s : string) :
  MatchString signed_decimal s = true ->
  (String.length s <= 307)%nat ->
  snd (ParseFloat s 64) = None.
Proof.
  intros H Hlen.
  apply signed_decimal_shape in H as (sg & c & ds & fr & -> & Hsg & Hc & Hds & Hfr).
  rewrite (ParseFloat_of_shape sg c ds fr Hsg Hc Hds Hfr). cbv zeta. cbn [snd].
  rewrite round_decimal_no_overflow; [reflexivity | | assumption |].
  - cbn [all_digits]. now rewrite Hc.
  - rewrite !length_append in Hlen. lia.
Qed.

End RangeFacts.

(* ===================================================================== *)
(** * Properties of the HTTP service *)
(* ===================================================================== *)

Module ServiceFacts.
Import Regexp.

Section Service.
Variable apiKey : string.
Variable local : Time.Location.
Variable upstream : UpstreamCall -> UpstreamReply.

Lemma matched_segment_not_empty (re : regex) (s : string) :
  nullable re = false -> MatchString re s = true -> String.eqb s "" = false.
Proof. intros N H. destruct s; [cbn in H; congruence | reflexivity]. Qed.

(** Only the last route can match a path that starts with [/weather],
    and it does when both segments match its pattern. *)
Lemma find_route_weather (lat lon : string) :
  find_route (routes apiKey local upstream) (weather_segments lat lon)
  = if (negb (String.eqb lat "") && MatchString signed_decimal lat)
       && (negb (String.eqb lon "") && MatchString signed_decimal lon)
    then Some (weather_route apiKey local upstream, [("lat", lat); ("lon", lon)])
    else None.
Proof.
  unfold routes, weather_segments.
  cbn [find_route].
  change (match_pattern (pattern hello_route) _) with
    (@None (list (string * string))).
  change (match_pattern (pattern helloCtx_route) _) with
    (@None (list (string * string))).
  change (match_pattern (pattern test_route) _) with
    (@None (list (string * string))).
  change (match_pattern (pattern test2_route) _) with
    (@None (list (string * string))).
  cbv iota.
  unfold weather_route at 1. cbn [pattern match_pattern].
  change (String.eqb "" "") with true.
  change (String.eqb "weather" "weather") with true.
  change (String.eqb "lat" "lat") with true.
  change (String.eqb "lon" "lon") with true.
  cbv iota.
  destruct (negb (String.eqb lat "") && MatchString signed_decimal lat);
    [|reflexivity].
  destruct (negb (String.eqb lon "") && MatchString signed_decimal lon);
    reflexivity.
Qed.

Lemma find_route_weather_matched (lat lon : string) :
  MatchString signed_decimal lat = true ->
  MatchString signed_decimal lon = true ->
  find_route (routes apiKey local upstream) (weather_segments lat lon)
  = Some (weather_route apiKey local upstream, [("lat", lat); ("lon", lon)]).
Proof.
  intros H1 H2. rewrite find_route_weather.
  rewrite (matched_segment_not_empty signed_decimal lat eq_refl H1), H1.
  rewrite (matched_segment_not_empty signed_decimal lon eq_refl H2), H2.
  reflexivity.
Qed.


(** A route handler never panics: its deferred function recovers. *)
Lemma recover500_run (body : Go unit) (s : World) :
  recover500 body s
  = match body s with
    | (Returned _, s') => (Returned tt, s')
    | (Panicked e, s') =>
        (Returned tt,
         {| writer := Error (StatusText 500) 500 (writer s');
            calls := calls s';
            logged := logged s' ++ [LogPanic e] |})
    end.
Proof.
  unfold recover500, recovering. destruct (body s) as [[a | e] s']; reflexivity.
Qed.

(** [latLonContext], case by case on the two conversions. *)
Lemma latLonContext_lat_fails (next : Handler) (r : Request) (s : World)
      (f : float64) (e : NumError) :
  ParseFloat (URLParam r "lat") 64 = (f, Some e) ->
  latLonContext next r s
  = (Returned tt,
     {| writer := Error (StatusText 400) 400 (writer s);
        calls := calls s; logged := logged s |}).
Proof.
  intros H. unfold latLonContext, recovering, bind. rewrite H. reflexivity.
Qed.

Lemma latLonContext_lon_fails (next : Handler) (r : Request) (s : World)
      (lat f : float64) (e : NumError) :
  ParseFloat (URLParam r "lat") 64 = (lat, None) ->
  ParseFloat (URLParam r "lon") 64 = (f, Some e) ->
  latLonContext next r s
  = (Returned tt,
     {| writer := Error (StatusText 400) 400 (writer s);
        calls := calls s; logged := logged s |}).
Proof.
  intros H1 H2. unfold latLonContext, recovering, bind. rewrite H1.
  cbn -[ParseFloat URLParam insert]. rewrite H2. reflexivity.
Qed.

Lemma latLonContext_passes (next : Handler) (r : Request) (s : World)
      (lat lon : float64) :
  ParseFloat (URLParam r "lat") 64 = (lat, None) ->
  ParseFloat (URLParam r "lon") 64 = (lon, None) ->
  latLonContext next r s
  = recovering
      (next (WithContext (<["lon" := lon]> (<["lat" := lat]> (ctx r))) r))
      (fun _ => on_writer (Error (StatusText 400) 400))
      {| writer := writer s; calls := calls s;
         logged := logged s
                   ++ [LogContext (<["lon" := lon]> (<["lat" := lat]> (ctx r)))] |}.
Proof.
  intros H1 H2. unfold latLonContext, recovering, bind. rewrite H1.
  cbn -[ParseFloat URLParam insert]. rewrite H2. reflexivity.
Qed.

(** The [/weather] handler, from a context that has both coordinates. *)
Lemma weather_run (r : Request) (s : World) (lat lon : float64) :
  ctx r !! "lat" = Some lat -> ctx r !! "lon" = Some lon ->
  let call := {| call_lat := lat; call_lon := lon; call_appid := apiKey |} in
  weather apiKey local upstream r s
  = (Returned tt,
     match provider_result (upstream call) with
     | inl e =>
         {| writer := Error (StatusText 500) 500 (writer s);
            calls := calls s ++ [call];
            logged := logged s ++ [LogPanic e] |}
     | inr respParsed =>
         {| writer := Write (Encoded (encode_MyWeatherResponse (report local respParsed)))
                            (writer s);
            calls := calls s ++ [call];
            logged := logged s |}
     end).
Proof.
  intros Hlat Hlon call.
  unfold weather. rewrite recover500_run.
  unfold bind, context_float64. rewrite Hlat, Hlon. cbn [ret http_Get].
  fold call. unfold provider_result.
  destruct (upstream call) as [d | c d | c data]; try reflexivity.
  destruct (Unmarshal decode_Response data zeroResponse) as [respParsed [e |]];
    reflexivity.
Qed.

End Service.
End ServiceFacts.

Module ServeFacts.
Import Regexp ServiceFacts.

Section Serve.
Variable apiKey : string.
Variable local : Time.Location.
Variable upstream : UpstreamCall -> UpstreamReply.


(** A [GET] request whose segments are both accepted goes through
    [latLonContext] to the [/weather] handler. *)
Lemma serve_matched (target lat lon : string) :
  segments target = weather_segments lat lon ->
  MatchString signed_decimal lat = true ->
  MatchString signed_decimal lon = true ->
  serve apiKey local upstream "GET" target
  = snd (latLonContext (weather apiKey local upstream)
           (WithURLParams [("lat", lat); ("lon", lon)] (NewRequest "GET" target))
           start).
Proof.
  intros Hp H1 H2. unfold serve, ServeHTTP. cbn [Http.path Http.method NewRequest].
  rewrite Hp, (find_route_weather_matched apiKey local upstream lat lon H1 H2).
  reflexivity.
Qed.

Lemma coordinates_lookup (lat lon : float64) :
  coordinates lat lon !! "lat" = Some lat /\ coordinates lat lon !! "lon" = Some lon.
Proof.
  unfold coordinates. split.
  - rewrite lookup_insert_ne by discriminate. apply lookup_insert_eq.
  - apply lookup_insert_eq.
Qed.


(** When both conversions succeed the handler runs once, with both
    coordinates in its context, and calls the provider once. *)
Lemma serve_handled (target lat lon : string) (flat flon : float64) :
  segments target = weather_segments lat lon ->
  MatchString signed_decimal lat = true ->
  MatchString signed_decimal lon = true ->
  ParseFloat lat 64 = (flat, None) ->
  ParseFloat lon 64 = (flon, None) ->
  let call := {| call_lat := flat; call_lon := flon; call_appid := apiKey |} in
  serve apiKey local upstream "GET" target
  = match provider_result (upstream call) with
    | inl e =>
        {| writer := internal_server_error;
           calls := [call];
           logged := [LogContext (coordinates flat flon); LogPanic e] |}
    | inr respParsed =>
        {| writer := Write (Encoded (encode_MyWeatherResponse (report local respParsed)))
                           fresh;
           calls := [call];
           logged := [LogContext (coordinates flat flon)] |}
    end.
Proof.
  intros Hp H1 H2 P1 P2 call. rewrite (serve_matched target lat lon Hp H1 H2).
  set (r := WithURLParams _ _).
  assert (Elat : URLParam r "lat" = lat) by reflexivity.
  assert (Elon : URLParam r "lon" = lon) by reflexivity.
  rewrite (latLonContext_passes _ r start flat flon) by now rewrite ?Elat, ?Elon.
  unfold recovering.
  change (<["lon" := flon]> (<["lat" := flat]> (ctx r))) with (coordinates flat flon).
  destruct (coordinates_lookup flat flon) as [L1 L2].
  rewrite (weather_run apiKey local upstream _ _ flat flon) by assumption.
  cbv zeta. fold call. cbn [snd].
  destruct (provider_result (upstream call)); reflexivity.
Qed.

End Serve.
End ServeFacts.

(** ** Malformed coordinates *)
Import Regexp.




(** ** Failures of the provider *)

(** C5, as stated, fails for a response that is not 2xx: the handler
    never looks at the status code.  When the provider rejects the API
    key with status 401 and a JSON body, that body decodes (its fields
    are unknown ones), and the service answers 200 with a report made of
    zero values. *)
Lemma C5_upstream_status_counterexample :
  writer (serve "key" Time.UTC rejecting_provider "GET" "/weather/lat/40.7/lon/-74.0")
  = {| status := Some 200;
       body := [Encoded
                  (Json.Object [("Timestamp", Json.Str "1970-01-01T00:00:00Z");
                                ("CurrentTemperatureFeel", Json.Str "cold");
                                ("current_conditions", Json.Array []);
                                ("alerts", Json.Array [])])] |}.
Proof. vm_compute. reflexivity. Qed.

(** C5, amended.  For a request that reaches the handler (both segments
    accepted and converted), when [http.Get] fails, or the body cannot be
    read, or the body is not JSON, or it is JSON that does not decode
    into the provider's answer, the service makes its one call, answers
    500 with the status text alone, whatever the error, and logs the
    error.  The status code of the provider's response plays no part: a
    response whose body decodes is answered 200 with the report, whatever
    its code. *)
Theorem C5_upstream_failure_is_500
        (apiKey : string) (local : Time.Location)
        (upstream : UpstreamCall -> UpstreamReply)
        (target lat lon : string) (flat flon : float64) :
  segments target = weather_segments lat lon ->
  MatchString signed_decimal lat = true ->
  MatchString signed_decimal lon = true ->
  ParseFloat lat 64 = (flat, None) ->
  ParseFloat lon 64 = (flon, None) ->
  let call := {| call_lat := flat; call_lon := flon; call_appid := apiKey |} in
  let failed (e : GoError) :=
    {| writer := {| status := Some 500;
                    body := [Text ("Internal Server Error" +:+ String newline "")] |};
       calls := [call];
       logged := [LogContext (coordinates flat flon); LogPanic e] |} in
  (forall detail, upstream call = GetFails detail ->
                  serve apiKey local upstream "GET" target = failed (NetErr detail))
  /\ (forall code detail, upstream call = ReadFails code detail ->
                          serve apiKey local upstream "GET" target = failed (NetErr detail))
  /\ (forall code, upstream call = Replies code Json.Malformed ->
                   serve apiKey local upstream "GET" target
                   = failed (JsonErr Json.SyntaxError))
  /\ (forall code v x e errs,
         upstream call = Replies code (Json.WellFormed v) ->
         decode_Response v zeroResponse = (x, e :: errs) ->
         serve apiKey local upstream "GET" target = failed (JsonErr e))
  /\ (forall code data respParsed,
         upstream call = Replies code data ->
         Json.Unmarshal decode_Response data zeroResponse = (respParsed, None) ->
         serve apiKey local upstream "GET" target
         = {| writer := {| status := Some 200;
                           body := [Encoded (encode_MyWeatherResponse
                                               (report local respParsed))] |};
              calls := [call];
              logged := [LogContext (coordinates flat flon)] |}).
Proof.
  intros Hp H1 H2 P1 P2 call failed.
  pose proof (ServeFacts.serve_handled apiKey local upstream target lat lon flat flon
                Hp H1 H2 P1 P2) as Hs.
  cbv zeta in Hs. fold call in Hs.
  repeat split.
  - intros detail E. rewrite Hs, E. reflexivity.
  - intros code detail E. rewrite Hs, E. reflexivity.
  - intros code E. rewrite Hs, E. reflexivity.
  - intros code v x e errs E D. rewrite Hs, E.
    unfold provider_result, Json.Unmarshal. rewrite D. reflexivity.
  - intros code data respParsed E U. rewrite Hs, E.
    unfold provider_result. rewrite U. reflexivity.
Qed.

Lemma C5_upstream_failure_is_500_witness :
  writer (serve "key" Time.UTC unreachable_provider "GET" "/weather/lat/40.7/lon/-74.0")
  = {| status := Some 500;
       body := [Text ("Internal Server Error" +:+ String newline "")] |}
  /\ status (writer (serve "key" Time.UTC garbled_provider
                           "GET" "/weather/lat/40.7/lon/-74.0")) = Some 500.
Proof.
  split.
  - rewrite (proj1 (C5_upstream_failure_is_500
                      "key" Time.UTC unreachable_provider
                      "/weather/lat/40.7/lon/-74.0" "40.7" "-74.0"
                      (fst (ParseFloat "40.7" 64)) (fst (ParseFloat "-74.0" 64))
                      eq_refl eq_refl eq_refl eq_refl eq_refl)
               "dial tcp: lookup api.openweathermap.org: no such host" eq_refl).
    reflexivity.
  - rewrite (proj1 (proj2 (proj2 (C5_upstream_failure_is_500
                      "key" Time.UTC garbled_provider
                      "/weather/lat/40.7/lon/-74.0" "40.7" "-74.0"
                      (fst (ParseFloat "40.7" 64)) (fst (ParseFloat "-74.0" 64))
                      eq_refl eq_refl eq_refl eq_refl eq_refl)))
               200 eq_refl).
    reflexivity.
Defined.

(** ** The 400 branch behind the route pattern *)




(* ===================================================================== *)
(** * Decoding the provider's answer *)
(* ===================================================================== *)

Module JsonFacts.

Section Struct.
Context {A : Type}.
Variable fields : list (field A).

Lemma find_field_in (key : string) (f : field A) :
  find_field fields key = Some f -> In f fields.
Proof.
  unfold find_field. intros H.
  destruct (find (fun f => String.eqb (f_name f) key) fields) eqn:E.
  - injection H as <-. now apply find_some in E.
  - now apply find_some in H.
Qed.

(** A key selects no field when its folded form is that of no field
    name. *)
Lemma find_field_none (key : string) :
  (forall f, In f fields -> fold_key (f_name f) <> fold_key key) ->
  find_field fields key = None.
Proof.
  intros H. unfold find_field.
  destruct (find (fun f => String.eqb (f_name f) key) fields) eqn:E.
  - apply find_some in E as [Hin Heq]. apply String.eqb_eq in Heq.
    exfalso. apply (H _ Hin). now rewrite Heq.
  - destruct (find (fun f => String.eqb (fold_key (f_name f)) (fold_key key)) fields)
      eqn:E'; [|reflexivity].
    apply find_some in E' as [Hin Heq]. apply String.eqb_eq in Heq.
    exfalso. now apply (H _ Hin).
Qed.

Lemma decode_member_unknown (acc : A * list Json.error) (key : string) (v : value) :
  find_field fields key = None -> decode_member fields acc (key, v) = acc.
Proof. intros H. unfold decode_member. cbn [fst]. now rewrite H. Qed.

(** A member whose key selects no field can be struck out. *)
Lemma decode_struct_unknown (ty : string) (pre post : list (string * value))
      (key : string) (v : value) (x : A) :
  find_field fields key = None ->
  decode_struct ty fields (Object (pre ++ (key, v) :: post)) x
  = decode_struct ty fields (Object (pre ++ post)) x.
Proof.
  intros H. cbn [decode_struct].
  rewrite !fold_left_app. cbn [fold_left].
  now rewrite decode_member_unknown.
Qed.

(** An object none of whose keys selects a field changes nothing and
    raises no error. *)
Lemma decode_members_all_unknown (members : list (string * value)) :
  forall acc,
    (forall m, In m members -> find_field fields (fst m) = None) ->
    fold_left (decode_member fields) members acc = acc.
Proof.
  induction members as [| [k v] ms IH]; intros acc H; [reflexivity|].
  cbn [fold_left]. rewrite decode_member_unknown by (apply (H (k, v)); now left).
  apply IH. intros m Hm. apply H. now right.
Qed.

(** A part [get] of the struct that only the field called [name] stores
    into is left as it was by an object none of whose keys selects that
    field. *)
Lemma decode_members_frame {B : Type} (get : A -> B) (name : string) :
  (forall f, In f fields -> f_name f <> name ->
             forall v x, get (fst (f_store f v x)) = get x) ->
  forall (members : list (string * value)) (acc : A * list Json.error),
    (forall m f, In m members -> find_field fields (fst m) = Some f -> f_name f <> name) ->
    get (fst (fold_left (decode_member fields) members acc)) = get (fst acc).
Proof.
  intros Hframe members.
  induction members as [| [k v] ms IH]; intros acc H; [reflexivity|].
  cbn [fold_left]. rewrite IH by (intros m f Hm; apply H; now right).
  unfold decode_member. cbn [fst snd].
  destruct (find_field fields k) as [f |] eqn:E; [|reflexivity].
  specialize (Hframe f (find_field_in _ _ E) (H (k, v) f (or_introl eq_refl) E)
                     v (fst acc)).
  destruct (f_store f v (fst acc)). exact Hframe.
Qed.

End Struct.

(** The names in the four field tables. *)
Lemma Response_table_names :
  map f_name Response_table = ["current"; "alerts"].
Proof. reflexivity. Qed.

Lemma Current_table_names :
  map f_name Current_table = ["dt"; "feels_like"; "weather"].
Proof. reflexivity. Qed.

Lemma Alert_table_names :
  map f_name Alert_table = ["sender_name"; "event"; "description"].
Proof. reflexivity. Qed.

Lemma WeatherEntry_table_names :
  map f_name WeatherEntry_table = ["main"].
Proof. reflexivity. Qed.

Lemma unknown_find_field {A : Type} (table : list (field A)) (key : string) :
  unknown table key -> find_field table key = None.
Proof.
  intros H. apply find_field_none. intros f Hin.
  unfold unknown in H. rewrite List.Forall_forall in H.
  apply H. now apply in_map.
Qed.

(** A key that does not select the field called [name]. *)
Lemma not_selected {A : Type} (table : list (field A)) (key name : string)
      (f : field A) :
  fold_key key <> fold_key name ->
  find_field table key = Some f -> f_name f <> name.
Proof.
  intros Hk Hf Hn. subst name.
  unfold find_field in Hf.
  destruct (find (fun f => String.eqb (f_name f) key) table) eqn:E.
  - injection Hf as <-. apply find_some in E as [_ Heq].
    apply String.eqb_eq in Heq. apply Hk. now rewrite Heq.
  - apply find_some in Hf as [_ Heq]. apply String.eqb_eq in Heq.
    now apply Hk.
Qed.

End JsonFacts.

(** ** The errors of decoding do not depend on what is decoded into *)
Module ErrorFacts.
Import JsonFacts.

Lemma state_blind_int64 : state_blind decode_int64.
Proof.
  intros v x y. destruct v; try reflexivity.
  cbn [decode_int64]. destruct (ParseInt64 literal) as [n [e |]]; reflexivity.
Qed.

Lemma state_blind_float32 : state_blind decode_float32.
Proof.
  intros v x y. destruct v; try reflexivity.
  cbn [decode_float32]. destruct (ParseFloat literal 32) as [n [e |]]; reflexivity.
Qed.

Lemma state_blind_string : state_blind decode_string.
Proof. intros v x y. destruct v; reflexivity. Qed.

Lemma state_blind_store {A B : Type} (get : A -> B) (set : B -> A -> A)
      (dec : decoder B) :
  state_blind dec -> state_blind (store get set dec).
Proof.
  intros H v x y. unfold store.
  specialize (H v (get x) (get y)).
  destruct (dec v (get x)), (dec v (get y)). exact H.
Qed.

Lemma decode_elements_errors {E : Type} (zero : E) (elem : decoder E) :
  state_blind elem ->
  forall vs slots slots',
    snd (decode_elements zero elem vs slots) = snd (decode_elements zero elem vs slots').
Proof.
  intros H vs. induction vs as [| v vs IH]; intros slots slots'; [reflexivity|].
  cbn [decode_elements].
  specialize (H v (hd zero slots) (hd zero slots')).
  specialize (IH (tl slots) (tl slots')).
  destruct (elem v (hd zero slots)), (elem v (hd zero slots')).
  destruct (decode_elements zero elem vs (tl slots)),
           (decode_elements zero elem vs (tl slots')).
  cbn [snd] in *. congruence.
Qed.

Lemma state_blind_slice {E : Type} (ty : string) (zero : E) (elem : decoder E) :
  state_blind elem -> state_blind (decode_slice ty zero elem).
Proof.
  intros H v x y. destruct v as [| | | | vs |]; try reflexivity.
  destruct vs as [| v vs]; [reflexivity|].
  cbn [decode_slice].
  pose proof (decode_elements_errors zero elem H (v :: vs) (backing x) (backing y)) as E'.
  destruct (decode_elements zero elem (v :: vs) (backing x)),
           (decode_elements zero elem (v :: vs) (backing y)).
  exact E'.
Qed.

Section Struct.
Context {A : Type}.
Variable fields : list (field A).
Hypothesis Hblind : forall f, In f fields -> state_blind (f_store f).

(** The errors of the members of an object come one after the other. *)
Lemma decode_members_errors (members : list (string * value)) :
  forall (x y : A) (errs : list Json.error),
    snd (fold_left (decode_member fields) members (x, errs))
    = errs ++ snd (fold_left (decode_member fields) members (y, [])).
Proof.
  induction members as [| [k v] ms IH]; intros x y errs; cbn [fold_left].
  - cbn. now rewrite app_nil_r.
  - unfold decode_member at 2 4. cbn [fst snd].
    destruct (find_field fields k) as [f |] eqn:E.
    + pose proof (Hblind f (find_field_in _ _ _ E) v x y) as Hf.
      destruct (f_store f v x) as [x' e1], (f_store f v y) as [y' e2].
      cbn [snd] in Hf. subst e2.
      rewrite (IH x' y' (errs ++ e1)), (IH y' y' ([] ++ e1)).
      cbn [app]. now rewrite app_assoc.
    + apply IH.
Qed.

Lemma state_blind_struct (ty : string) : state_blind (decode_struct ty fields).
Proof.
  intros v x y. destruct v as [| | | | | ms]; try reflexivity.
  cbn [decode_struct].
  rewrite (decode_members_errors ms x y []). reflexivity.
Qed.

(** Striking a member out of an object that decodes without error
    leaves an object that decodes without error. *)
Lemma decode_struct_without_member (ty : string)
      (pre post : list (string * value)) (m : string * value) (x : A) :
  snd (decode_struct ty fields (Object (pre ++ m :: post)) x) = [] ->
  snd (decode_struct ty fields (Object (pre ++ post)) x) = [].
Proof.
  cbn [decode_struct]. rewrite !fold_left_app. cbn [fold_left].
  destruct (fold_left (decode_member fields) pre (x, [])) as [x1 e1].
  destruct (decode_member fields (x1, e1) m) as [x2 e2] eqn:Em.
  rewrite (decode_members_errors post x2 x1 e2).
  rewrite (decode_members_errors post x1 x1 e1).
  intros H. apply app_eq_nil in H as [H2 Hpost]. rewrite Hpost, app_nil_r.
  subst e2. unfold decode_member in Em. cbn [fst snd] in Em.
  destruct (find_field fields (fst m)) as [f |].
  - destruct (f_store f (snd m) x1) as [x' e']. injection Em as _ Em.
    now apply app_eq_nil in Em as [-> _].
  - now injection Em as _ ->.
Qed.

End Struct.

Lemma state_blind_WeatherEntry : state_blind decode_WeatherEntry.
Proof.
  apply state_blind_struct. intros f Hin. cbn in Hin.
  destruct Hin as [<- | []].
  apply state_blind_store, state_blind_string.
Qed.

Lemma state_blind_Alert : state_blind decode_Alert.
Proof.
  apply state_blind_struct. intros f Hin. cbn in Hin.
  destruct Hin as [<- | [<- | [<- | []]]];
    apply state_blind_store, state_blind_string.
Qed.

Lemma Current_table_blind : forall f, In f Current_table -> state_blind (f_store f).
Proof.
  intros f Hin. cbn in Hin.
  destruct Hin as [<- | [<- | [<- | []]]]; apply state_blind_store.
  - apply state_blind_int64.
  - apply state_blind_float32.
  - apply state_blind_slice, state_blind_WeatherEntry.
Qed.

Lemma state_blind_Current : state_blind decode_Current.
Proof. apply state_blind_struct, Current_table_blind. Qed.

Lemma Response_table_blind : forall f, In f Response_table -> state_blind (f_store f).
Proof.
  intros f Hin. cbn in Hin.
  destruct Hin as [<- | [<- | []]]; apply state_blind_store.
  - apply state_blind_Current.
  - apply state_blind_slice, state_blind_Alert.
Qed.

End ErrorFacts.

Module DecodeFacts.
Import JsonFacts.

Lemma lacks_not_selected {A : Type} (table : list (field A))
      (members : list (string * value)) (name : string) :
  lacks members name ->
  forall m f, In m members -> find_field table (fst m) = Some f -> f_name f <> name.
Proof.
  intros H m f Hm Hf. unfold lacks in H. rewrite List.Forall_forall in H.
  exact (not_selected table (fst m) name f (H m Hm) Hf).
Qed.

Lemma lacks_app (pre post : list (string * value)) (name : string) :
  lacks (pre ++ post) name -> lacks pre name /\ lacks post name.
Proof. unfold lacks. apply List.Forall_app. Qed.

(** The field tables, computed from the declarations and their tags. *)
Lemma Response_table_eq :
  Response_table
  = [ {| f_name := "current";
         f_store := store Current (fun c x => {| Current := c; Alerts := Alerts x |})
                          decode_Current |};
      {| f_name := "alerts";
         f_store := store Alerts (fun a x => {| Current := Current x; Alerts := a |})
                          (decode_slice "[]main.OpenWeatherOneCallAlert" zeroAlert
                                        decode_Alert) |} ].
Proof. reflexivity. Qed.

Lemma Current_table_eq :
  Current_table
  = [ {| f_name := "dt";
         f_store := store DT (fun n x => {| DT := n; FeelsLike := FeelsLike x;
                                            Weather := Weather x |})
                          decode_int64 |};
      {| f_name := "feels_like";
         f_store := store FeelsLike (fun f x => {| DT := DT x; FeelsLike := f;
                                                   Weather := Weather x |})
                          decode_float32 |};
      {| f_name := "weather";
         f_store := store Weather (fun w x => {| DT := DT x; FeelsLike := FeelsLike x;
                                                 Weather := w |})
                          (decode_slice "[]struct { Main string }" zeroWeatherEntry
                                        decode_WeatherEntry) |} ].
Proof. reflexivity. Qed.

(** Each store touches its own field only. *)
Ltac other_fields :=
  intros f Hin Hname v x;
  cbn [In] in Hin;
  repeat (destruct Hin as [<- | Hin]; [try (exfalso; now apply Hname) |]);
  [.. | contradiction];
  cbn [f_store]; unfold store;
  match goal with |- context [let '(_, _) := ?d in _] => destruct d end;
  reflexivity.

Lemma Response_stores_Current :
  forall f, In f Response_table -> f_name f <> "current" ->
            forall v x, Current (fst (f_store f v x)) = Current x.
Proof. rewrite Response_table_eq. other_fields. Qed.

Lemma Response_stores_Alerts :
  forall f, In f Response_table -> f_name f <> "alerts" ->
            forall v x, Alerts (fst (f_store f v x)) = Alerts x.
Proof. rewrite Response_table_eq. other_fields. Qed.

Lemma Current_stores_DT :
  forall f, In f Current_table -> f_name f <> "dt" ->
            forall v x, DT (fst (f_store f v x)) = DT x.
Proof. rewrite Current_table_eq. other_fields. Qed.

Lemma Current_stores_FeelsLike :
  forall f, In f Current_table -> f_name f <> "feels_like" ->
            forall v x, FeelsLike (fst (f_store f v x)) = FeelsLike x.
Proof. rewrite Current_table_eq. other_fields. Qed.

Lemma Current_stores_Weather :
  forall f, In f Current_table -> f_name f <> "weather" ->
            forall v x, Weather (fst (f_store f v x)) = Weather x.
Proof. rewrite Current_table_eq. other_fields. Qed.

(** The frame of an object decoder, field by field. *)
Lemma Response_lacks_current (members : list (string * value))
      (x : OpenWeatherOneCallResponse) :
  lacks members "current" ->
  Current (fst (decode_Response (Object members) x)) = Current x.
Proof.
  intros H. unfold decode_Response. cbn [decode_struct].
  now rewrite (decode_members_frame Response_table Current "current"
                 Response_stores_Current members (x, [])
                 (lacks_not_selected _ _ _ H)).
Qed.

Lemma Response_lacks_alerts (members : list (string * value))
      (x : OpenWeatherOneCallResponse) :
  lacks members "alerts" ->
  Alerts (fst (decode_Response (Object members) x)) = Alerts x.
Proof.
  intros H. unfold decode_Response. cbn [decode_struct].
  now rewrite (decode_members_frame Response_table Alerts "alerts"
                 Response_stores_Alerts members (x, [])
                 (lacks_not_selected _ _ _ H)).
Qed.

Lemma Current_lacks_dt (members : list (string * value))
      (x : OpenWeatherOneCallCurrentConditions) :
  lacks members "dt" -> DT (fst (decode_Current (Object members) x)) = DT x.
Proof.
  intros H. unfold decode_Current. cbn [decode_struct].
  now rewrite (decode_members_frame Current_table DT "dt"
                 Current_stores_DT members (x, [])
                 (lacks_not_selected _ _ _ H)).
Qed.

Lemma Current_lacks_feels_like (members : list (string * value))
      (x : OpenWeatherOneCallCurrentConditions) :
  lacks members "feels_like" ->
  FeelsLike (fst (decode_Current (Object members) x)) = FeelsLike x.
Proof.
  intros H. unfold decode_Current. cbn [decode_struct].
  now rewrite (decode_members_frame Current_table FeelsLike "feels_like"
                 Current_stores_FeelsLike members (x, [])
                 (lacks_not_selected _ _ _ H)).
Qed.

Lemma Current_lacks_weather (members : list (string * value))
      (x : OpenWeatherOneCallCurrentConditions) :
  lacks members "weather" ->
  Weather (fst (decode_Current (Object members) x)) = Weather x.
Proof.
  intros H. unfold decode_Current. cbn [decode_struct].
  now rewrite (decode_members_frame Current_table Weather "weather"
                 Current_stores_Weather members (x, [])
                 (lacks_not_selected _ _ _ H)).
Qed.

(** With a single [current] member, the [Current] of the result is that
    member decoded from the zero value. *)
Lemma Response_single_current (pre post : list (string * value)) (cur : value) :
  lacks (pre ++ post) "current" ->
  Current (fst (decode_Response (Object (pre ++ ("current", cur) :: post)) zeroResponse))
  = fst (decode_Current cur zeroCurrent).
Proof.
  intros H. apply lacks_app in H as [Hpre Hpost].
  unfold decode_Response. cbn [decode_struct].
  rewrite fold_left_app. cbn [fold_left].
  rewrite (decode_members_frame Response_table Current "current"
             Response_stores_Current post _ (lacks_not_selected _ _ _ Hpost)).
  pose proof (decode_members_frame Response_table Current "current"
                Response_stores_Current pre (zeroResponse, [])
                (lacks_not_selected _ _ _ Hpre)) as Hp.
  cbn [fst] in Hp.
  destruct (fold_left (decode_member Response_table) pre (zeroResponse, []))
    as [x errs].
  cbn [fst] in Hp.
  unfold decode_member. cbn [fst snd].
  change (find_field Response_table "current")
    with (Some {| f_name := "current";
                  f_store := store Current
                                   (fun c x => {| Current := c; Alerts := Alerts x |})
                                   decode_Current |}).
  cbn [f_store]. unfold store. rewrite Hp.
  change (Current zeroResponse) with zeroCurrent.
  destruct (decode_Current cur zeroCurrent). reflexivity.
Qed.

End DecodeFacts.

(** C8. Decoding the provider's answer is permissive.
    - A member whose key is equal, under case folding, to no field name
      of the struct being decoded is ignored: the answer decodes as it
      does without that member, at the top level, in [current], in an
      alert and in a weather entry.
    - A field for which the payload has no member keeps its zero value:
      without [current] the whole of [Current] is zero, without [alerts]
      the alerts are the nil (empty) slice, and in the [current] object a
      missing [dt], [feels_like] or [weather] gives the timestamp 0, the
      temperature 0 or the nil (empty) slice of conditions.
    - Missing members make no error: an object with none but unknown
      members, the empty object included, decodes without error into the
      zero value; and striking a member out of an object that decodes
      without error never makes the decoding fail. *)
Theorem C8_permissive_decoding :
  (* unknown fields *)
  (forall pre post key v x,
      unknown Response_table key ->
      decode_Response (Object (pre ++ (key, v) :: post)) x
      = decode_Response (Object (pre ++ post)) x)
  /\ (forall pre post key v x,
         unknown Current_table key ->
         decode_Current (Object (pre ++ (key, v) :: post)) x
         = decode_Current (Object (pre ++ post)) x)
  /\ (forall pre post key v x,
         unknown Alert_table key ->
         decode_Alert (Object (pre ++ (key, v) :: post)) x
         = decode_Alert (Object (pre ++ post)) x)
  /\ (forall pre post key v x,
         unknown WeatherEntry_table key ->
         decode_WeatherEntry (Object (pre ++ (key, v) :: post)) x
         = decode_WeatherEntry (Object (pre ++ post)) x)
  (* absent fields *)
  /\ (forall members,
         lacks members "current" ->
         Current (fst (decode_Response (Object members) zeroResponse)) = zeroCurrent)
  /\ (forall members,
         lacks members "alerts" ->
         Alerts (fst (decode_Response (Object members) zeroResponse)) = NilSlice)
  /\ (forall pre post members,
         lacks (pre ++ post) "current" ->
         let decoded :=
           fst (decode_Response (Object (pre ++ ("current", Object members) :: post))
                                zeroResponse) in
         (lacks members "dt" -> DT (Current decoded) = 0)
         /\ (lacks members "feels_like" -> FeelsLike (Current decoded) = S754_zero false)
         /\ (lacks members "weather" -> Weather (Current decoded) = NilSlice))
  (* no failure *)
  /\ (forall members,
         Forall (fun m => unknown Response_table (fst m)) members ->
         Unmarshal decode_Response (WellFormed (Object members)) zeroResponse
         = (zeroResponse, None))
  /\ (forall pre post m x,
         snd (Unmarshal decode_Response (WellFormed (Object (pre ++ m :: post))) x) = None ->
         snd (Unmarshal decode_Response (WellFormed (Object (pre ++ post))) x) = None)
  /\ (forall pre post m x,
         snd (decode_Current (Object (pre ++ m :: post)) x) = [] ->
         snd (decode_Current (Object (pre ++ post)) x) = []).
Proof.
  repeat apply conj.
  - intros. now apply JsonFacts.decode_struct_unknown, JsonFacts.unknown_find_field.
  - intros. now apply JsonFacts.decode_struct_unknown, JsonFacts.unknown_find_field.
  - intros. now apply JsonFacts.decode_struct_unknown, JsonFacts.unknown_find_field.
  - intros. now apply JsonFacts.decode_struct_unknown, JsonFacts.unknown_find_field.
  - intros members H. now rewrite DecodeFacts.Response_lacks_current.
  - intros members H. now rewrite DecodeFacts.Response_lacks_alerts.
  - intros pre post members H decoded. subst decoded.
    rewrite DecodeFacts.Response_single_current by assumption.
    repeat split; intros Hl.
    + now rewrite DecodeFacts.Current_lacks_dt.
    + now rewrite DecodeFacts.Current_lacks_feels_like.
    + now rewrite DecodeFacts.Current_lacks_weather.
  - intros members H. unfold Unmarshal, decode_Response. cbn [decode_struct].
    rewrite JsonFacts.decode_members_all_unknown; [reflexivity|].
    intros m Hm. rewrite List.Forall_forall in H.
    now apply JsonFacts.unknown_find_field, H.
  - intros pre post m x. unfold Unmarshal.
    pose proof (ErrorFacts.decode_struct_without_member
                  Response_table ErrorFacts.Response_table_blind
                  "main.OpenWeatherOneCallResponse" pre post m x) as H.
    fold decode_Response in H.
    destruct (decode_Response (Object (pre ++ m :: post)) x) as [x1 e1].
    destruct (decode_Response (Object (pre ++ post)) x) as [x2 e2].
    cbn [snd] in *. intros E.
    destruct e1; [|discriminate]. now rewrite H.
  - intros pre post m x.
    exact (ErrorFacts.decode_struct_without_member
             Current_table ErrorFacts.Current_table_blind
             "main.OpenWeatherOneCallCurrentConditions" pre post m x).
Qed.

Lemma C8_permissive_decoding_witness :
  decode_Response sparse_body zeroResponse
  = decode_Response
      (Object [("current", Object [("dt", Number "1684000000");
                                   ("sunrise", Number "1683970000");
                                   ("weather", Array [])])])
      zeroResponse
  /\ Alerts (fst (decode_Response sparse_body zeroResponse)) = NilSlice
  /\ FeelsLike (Current (fst (decode_Response sparse_body zeroResponse))) = S754_zero false
  /\ Unmarshal decode_Response (WellFormed (Object [("cod", Number "401")])) zeroResponse
     = (zeroResponse, None).
Proof.
  assert (U : forall k, fold_key "current" <> fold_key k ->
                        fold_key "alerts" <> fold_key k ->
                        unknown Response_table k).
  { intros k H1 H2. repeat constructor; assumption. }
  split; [|split; [|split]].
  - unfold sparse_body.
    etransitivity.
    { apply (proj1 C8_permissive_decoding [] _ "lat" (Number "40.7") zeroResponse).
      apply U; vm_compute; discriminate. }
    cbn [app].
    etransitivity.
    { apply (proj1 C8_permissive_decoding [] _ "timezone" (Str "America/New_York")
               zeroResponse).
      apply U; vm_compute; discriminate. }
    reflexivity.
  - apply (proj1 (proj2 (proj2 (proj2 (proj2 (proj2 C8_permissive_decoding)))))).
    repeat constructor; vm_compute; discriminate.
  - apply (proj1 (proj2 (proj1 (proj2 (proj2 (proj2 (proj2 (proj2 (proj2
             C8_permissive_decoding))))))
             [("lat", Number "40.7"); ("timezone", Str "America/New_York")] []
             [("dt", Number "1684000000"); ("sunrise", Number "1683970000");
              ("weather", Array [])]
             ltac:(repeat constructor; vm_compute; discriminate)))).
    repeat constructor; vm_compute; discriminate.
  - apply (proj1 (proj2 (proj2 (proj2 (proj2 (proj2 (proj2 (proj2
             C8_permissive_decoding)))))))).
    repeat constructor; vm_compute; discriminate.
Defined.

(* ===================================================================== *)
(** * Further properties: the route patterns *)
(* ===================================================================== *)

Module PatternFacts.
Import Regexp RegexpFacts.



Lemma signed_integer_shape (s : string) :
  MatchString signed_integer s = true ->
  exists sg c ds,
    s = sg +:+ String c ds /\ is_sign sg /\ is_digit c = true /\ all_digits ds = true.
Proof.
  intros H. apply MatchString_sound in H.
  inversion H as [| | r1 r2 s1 s2 Hs Hd | | | |]; subst.
  apply Matches_sign in Hs.
  apply Matches_digits1 in Hd as (c & ds & -> & Hc & Hds).
  exists s1, c, ds. auto.
Qed.

Lemma signed_integer_accepts (sg : string) (c : ascii) (ds : string) :
  is_sign sg -> is_digit c = true -> all_digits ds = true ->
  MatchString signed_integer (sg +:+ String c ds) = true.
Proof.
  intros Hsg Hc Hds. apply MatchString_complete.
  unfold signed_integer. constructor.
  - destruct Hsg as [-> | [-> | ->]].
    + apply MAltL. constructor.
    + apply MAltR. now constructor.
    + apply MAltR. now constructor.
  - now apply digits1_Matches.
Qed.

Lemma signed_integer_is_decimal (s : string) :
  MatchString signed_integer s = true -> MatchString signed_decimal s = true.
Proof.
  intros H. apply signed_integer_shape in H as (sg & c & ds & -> & Hsg & Hc & Hds).
  rewrite <- (append_empty_r (String c ds)), <- append_assoc.
  rewrite append_assoc.
  apply signed_decimal_accepts; auto.
Qed.

(** X2. What the pattern [[-+]?[0-9]+] of the [/test2] route accepts: an
    optional sign and at least one digit; and everything it accepts, the
    pattern of the [/weather] route accepts. *)
Theorem signed_integer_language (s : string) :
  (MatchString signed_integer s = true
   <-> exists sg c ds,
         s = sg +:+ String c ds
         /\ is_sign sg /\ is_digit c = true /\ all_digits ds = true)
  /\ (MatchString signed_integer s = true -> MatchString signed_decimal s = true).
Proof.
  split; [split|].
  - apply signed_integer_shape.
  - intros (sg & c & ds & -> & Hsg & Hc & Hds). now apply signed_integer_accepts.
  - apply signed_integer_is_decimal.
Qed.

Lemma signed_integer_language_witness :
  MatchString signed_decimal "-40" = true.
Proof.
  apply (proj2 (signed_integer_language "-40")). reflexivity.
Defined.

End PatternFacts.

(* ===================================================================== *)
(** * Further properties: paths and their segments *)
(* ===================================================================== *)

Module PathFacts.
Import Regexp RegexpFacts ParseFloatFacts PatternFacts.

Lemma split_slash_not_nil (s cur : string) : split_slash s cur <> [].
Proof.
  revert cur. induction s as [| c s IH]; intros cur; cbn [split_slash].
  - discriminate.
  - destruct (Ascii.eqb c "/"); [discriminate | apply IH].
Qed.

Lemma join_slash_cons (s : string) (rest : list string) :
  rest <> [] -> join_slash (s :: rest) = s +:+ String "/" (join_slash rest).
Proof. destruct rest; [contradiction | reflexivity]. Qed.

(** Cutting a path at its slashes loses nothing. *)
Lemma join_split_slash (s cur : string) :
  join_slash (split_slash s cur) = cur +:+ s.
Proof.
  revert cur. induction s as [| c s IH]; intros cur; cbn [split_slash].
  - cbn [join_slash]. now rewrite append_empty_r.
  - destruct (Ascii.eqb_spec c "/") as [-> | _].
    + rewrite join_slash_cons by apply split_slash_not_nil.
      now rewrite IH, append_nil.
    + rewrite IH, append_assoc. reflexivity.
Qed.

Lemma split_slash_app (a b cur : string) :
  no_slash a = true ->
  split_slash (a +:+ b) cur = split_slash b (cur +:+ a).
Proof.
  revert cur. induction a as [| c a IH]; intros cur H.
  - now rewrite append_nil, append_empty_r.
  - cbn [no_slash] in H. apply andb_prop in H as [Hc Ha].
    rewrite append_cons. cbn [split_slash].
    destruct (Ascii.eqb c "/"); [discriminate|].
    rewrite (IH _ Ha), append_assoc. reflexivity.
Qed.

Lemma split_join_slash (segs : list string) (cur : string) :
  Forall (fun s => no_slash s = true) segs -> segs <> [] ->
  forall s rest, segs = s :: rest ->
  split_slash (join_slash segs) cur = (cur +:+ s) :: rest.
Proof.
  intros Hall. revert cur.
  induction Hall as [| x l Hx Hl IH]; intros cur Hne s rest E; [contradiction|].
  injection E as -> ->.
  destruct rest as [| y rest].
  - cbn [join_slash].
    rewrite <- (append_empty_r s) at 1.
    rewrite (split_slash_app s "" cur Hx). reflexivity.
  - rewrite join_slash_cons by discriminate.
    rewrite (split_slash_app s _ cur Hx). cbn [split_slash].
    change (Ascii.eqb "/" "/") with true. cbv iota.
    rewrite (IH "" ltac:(discriminate) y rest eq_refl).
    now rewrite append_nil.
Qed.

Lemma no_slash_app (a b : string) :
  no_slash (a +:+ b) = no_slash a && no_slash b.
Proof.
  induction a as [| c a IH]; [reflexivity|].
  rewrite append_cons. cbn [no_slash]. rewrite IH. now rewrite andb_assoc.
Qed.

Lemma no_slash_digit (c : ascii) : is_digit c = true -> Ascii.eqb c "/" = false.
Proof. intros H. digit_cases H; reflexivity. Qed.

Lemma no_slash_digits (ds : string) : all_digits ds = true -> no_slash ds = true.
Proof.
  induction ds as [| c ds IH]; [reflexivity|].
  cbn [all_digits no_slash]. intros H. apply andb_prop in H as [Hc Hds].
  now rewrite (no_slash_digit c Hc), (IH Hds).
Qed.

Lemma no_slash_signed_decimal (s : string) :
  MatchString signed_decimal s = true -> no_slash s = true.
Proof.
  intros H. apply signed_decimal_shape in H
    as (sg & c & ds & fr & -> & Hsg & Hc & Hds & Hfr).
  rewrite !no_slash_app. cbn [no_slash].
  rewrite (no_slash_digit c Hc), (no_slash_digits ds Hds).
  assert (Esg : no_slash sg = true)
    by (destruct Hsg as [-> | [-> | ->]]; reflexivity).
  assert (Efr : no_slash fr = true).
  { destruct Hfr as [-> | (c' & ds' & -> & Hc' & Hds')]; [reflexivity|].
    cbn [no_slash]. now rewrite (no_slash_digit c' Hc'), (no_slash_digits ds' Hds'). }
  now rewrite Esg, Efr.
Qed.

Lemma segments_of_six (a b c d e f target : string) :
  no_slash a = true -> no_slash b = true -> no_slash c = true ->
  no_slash d = true -> no_slash e = true -> no_slash f = true ->
  (segments target = [a; b; c; d; e; f]
   <-> target = join_slash [a; b; c; d; e; f]).
Proof.
  intros Ha Hb Hc Hd He Hf. unfold segments. split.
  - intros H. rewrite <- H, join_split_slash. reflexivity.
  - intros ->.
    rewrite (split_join_slash [a; b; c; d; e; f] "" ltac:(repeat constructor; assumption)
               ltac:(discriminate) a [b; c; d; e; f] eq_refl).
    reflexivity.
Qed.

(** X3. The segments a route sees are those of the path as written: a
    path is cut at its slashes and nothing is lost, so two paths with
    the same segments are the same path.  For two segments that the
    pattern of the route accepts, the path whose segments are those of
    the [/weather] route is [/weather/lat/{lat}/lon/{lon}] and no other,
    and likewise for [/test2]. *)
Theorem segments_of_the_path (target lat lon : string) :
  join_slash (segments target) = target
  /\ (MatchString signed_decimal lat = true ->
      MatchString signed_decimal lon = true ->
      (segments target = weather_segments lat lon
       <-> target = "/weather/lat/" +:+ lat +:+ "/lon/" +:+ lon))
  /\ (MatchString signed_integer lat = true ->
      MatchString signed_integer lon = true ->
      (segments target = test2_segments lat lon
       <-> target = "/test2/lat/" +:+ lat +:+ "/lon/" +:+ lon)).
Proof.
  split; [|split].
  - unfold segments. now rewrite join_split_slash.
  - intros Hlat Hlon.
    apply (segments_of_six "" "weather" "lat" lat "lon" lon target);
      try reflexivity; now apply no_slash_signed_decimal.
  - intros Hlat Hlon.
    apply (segments_of_six "" "test2" "lat" lat "lon" lon target);
      try reflexivity;
      now apply no_slash_signed_decimal, signed_integer_is_decimal.
Qed.

Lemma segments_of_the_path_witness :
  segments "/weather/lat/40.7/lon/-74.0" = weather_segments "40.7" "-74.0".
Proof.
  apply (proj1 (proj2 (segments_of_the_path "/weather/lat/40.7/lon/-74.0"
                                            "40.7" "-74.0"))
               eq_refl eq_refl).
  reflexivity.
Defined.

End PathFacts.

(* ===================================================================== *)
(** * Further properties: the router and the handlers *)
(* ===================================================================== *)

Module RouterFacts.
Import Regexp ServiceFacts ServeFacts.

(** ** Matching a pattern, piece by piece *)

Lemma match_nil (segs : list string) (ps : list (string * string)) :
  match_pattern [] segs = Some ps -> segs = [] /\ ps = [].
Proof. destruct segs; cbn; [intros [= <-]; auto | discriminate]. Qed.

Lemma match_literal (l : string) (pat : list segment) (segs : list string)
      (ps : list (string * string)) :
  match_pattern (Literal l :: pat) segs = Some ps ->
  exists segs', segs = l :: segs' /\ match_pattern pat segs' = Some ps.
Proof.
  destruct segs as [| s segs']; cbn [match_pattern]; [discriminate|].
  destruct (String.eqb_spec l s) as [-> | _]; [|discriminate].
  intros H. now exists segs'.
Qed.

Lemma match_param (name : string) (re : regex) (pat : list segment)
      (segs : list string) (ps : list (string * string)) :
  match_pattern (Param name re :: pat) segs = Some ps ->
  exists s segs' ps',
    segs = s :: segs' /\ MatchString re s = true
    /\ match_pattern pat segs' = Some ps' /\ ps = (name, s) :: ps'.
Proof.
  destruct segs as [| s segs']; cbn [match_pattern]; [discriminate|].
  destruct (negb (String.eqb s "") && MatchString re s) eqn:E; [|discriminate].
  apply andb_prop in E as [_ E].
  destruct (match_pattern pat segs') as [ps' |] eqn:M; [|discriminate].
  intros [= <-]. now exists s, segs', ps'.
Qed.

Ltac match_steps H :=
  repeat first
    [ apply match_literal in H as (? & -> & H)
    | apply match_param in H as (? & ? & ? & -> & ? & H & ->)
    | apply match_nil in H as [-> ->] ].

Lemma find_route_some (rs : list Route) (segs : list string)
      (rt : Route) (ps : list (string * string)) :
  find_route rs segs = Some (rt, ps) ->
  In rt rs /\ match_pattern (pattern rt) segs = Some ps.
Proof.
  induction rs as [| r rs IH]; cbn [find_route]; [discriminate|].
  destruct (match_pattern (pattern r) segs) as [ps' |] eqn:M.
  - intros [= <- <-]. split; [now left | assumption].
  - intros H. destruct (IH H) as [Hin Hm]. split; [now right | assumption].
Qed.

(** ** The handlers, run *)

Lemma hello_run (greeting : string) (r : Request) (s : World) :
  hello greeting r s
  = (Returned tt,
     {| writer := Write (Text greeting) (writer s);
        calls := calls s; logged := logged s |}).
Proof. reflexivity. Qed.

Lemma ParseFloat_empty : ParseFloat "" 64 = (S754_zero false, Some ErrSyntax).
Proof. reflexivity. Qed.

(** [latLonContext] on a request without the parameter [lat]: the
    conversion of the empty string fails. *)
Lemma latLonContext_no_lat (next : Handler) (r : Request) (s : World) :
  URLParam r "lat" = "" ->
  latLonContext next r s
  = (Returned tt,
     {| writer := Error (StatusText 400) 400 (writer s);
        calls := calls s; logged := logged s |}).
Proof.
  intros E. apply (latLonContext_lat_fails next r s (S754_zero false) ErrSyntax).
  now rewrite E.
Qed.

(** Only the fourth route can match a path that starts with [/test2]. *)
Lemma find_route_test2 (apiKey : string) (local : Time.Location)
      (upstream : UpstreamCall -> UpstreamReply) (lat lon : string) :
  MatchString signed_integer lat = true ->
  MatchString signed_integer lon = true ->
  find_route (routes apiKey local upstream) (test2_segments lat lon)
  = Some (test2_route, [("lat", lat); ("lon", lon)]).
Proof.
  intros H1 H2. unfold routes, test2_segments.
  cbn [find_route].
  change (match_pattern (pattern hello_route) _) with
    (@None (list (string * string))).
  change (match_pattern (pattern helloCtx_route) _) with
    (@None (list (string * string))).
  change (match_pattern (pattern test_route) _) with
    (@None (list (string * string))).
  cbv iota.
  unfold test2_route at 1. cbn [pattern match_pattern].
  change (String.eqb "" "") with true.
  change (String.eqb "test2" "test2") with true.
  change (String.eqb "lat" "lat") with true.
  change (String.eqb "lon" "lon") with true.
  cbv iota.
  rewrite (matched_segment_not_empty signed_integer lat eq_refl H1), H1.
  rewrite (matched_segment_not_empty signed_integer lon eq_refl H2), H2.
  reflexivity.
Qed.

Section Cases.
Variable apiKey : string.
Variable local : Time.Location.
Variable upstream : UpstreamCall -> UpstreamReply.

Lemma find_route_hello :
  find_route (routes apiKey local upstream) [""; "hello"] = Some (hello_route, []).
Proof. reflexivity. Qed.

Lemma find_route_helloCtx :
  find_route (routes apiKey local upstream) [""; "helloCtx"]
  = Some (helloCtx_route, []).
Proof. reflexivity. Qed.

Lemma find_route_test :
  find_route (routes apiKey local upstream) [""; "test"; "lat"; "-40"; "lon"; "40"]
  = Some (test_route, []).
Proof. reflexivity. Qed.

(** A path that has a route is one of the five shapes, and conversely. *)
Lemma find_route_routed (segs : list string) :
  find_route (routes apiKey local upstream) segs <> None <-> routed segs.
Proof.
  split.
  - destruct (find_route (routes apiKey local upstream) segs) as [[rt ps] |] eqn:F;
      [intros _ | congruence].
    apply find_route_some in F as [Hin Hmatch].
    cbn [routes In] in Hin.
    destruct Hin as [<- | [<- | [<- | [<- | [<- | []]]]]];
      cbn [pattern hello_route helloCtx_route test_route test2_route weather_route]
        in Hmatch;
      match_steps Hmatch; unfold routed.
    + auto.
    + auto.
    + auto.
    + right; right; right; left. eexists _, _. unfold test2_segments. eauto.
    + right; right; right; right. eexists _, _. unfold weather_segments. eauto.
  - intros [-> | [-> | [-> | [(lat & lon & -> & H1 & H2)
                              | (lat & lon & -> & H1 & H2)]]]].
    + now rewrite find_route_hello.
    + now rewrite find_route_helloCtx.
    + now rewrite find_route_test.
    + now rewrite (find_route_test2 apiKey local upstream lat lon H1 H2).
    + now rewrite (find_route_weather_matched apiKey local upstream lat lon H1 H2).
Qed.

(** Every request is answered in one of the six ways. *)
Lemma serve_answer (method target : string) :
  Answer apiKey local upstream method target
         (serve apiKey local upstream method target).
Proof.
  unfold serve, ServeHTTP. cbn [Http.path Http.method NewRequest].
  pose proof (find_route_routed (segments target)) as Hrouted.
  remember (segments target) as segs eqn:Hsegs.
  destruct (find_route (routes apiKey local upstream) segs)
    as [[rt ps] |] eqn:F.
  2: { constructor. rewrite <- Hsegs. intros R. now apply Hrouted in R. }
  assert (R : routed (segments target))
    by (rewrite <- Hsegs; apply Hrouted; discriminate).
  clear Hrouted.
  destruct (String.eqb_spec method "GET") as [-> | Hm]; [|now constructor].
  apply find_route_some in F as [Hin Hmatch].
  cbn [routes In] in Hin.
  destruct Hin as [<- | [<- | [<- | [<- | [<- | []]]]]];
    cbn [handler hello_route helloCtx_route test_route test2_route weather_route].
  - (* /hello *)
    cbn [pattern hello_route] in Hmatch. match_steps Hmatch.
    rewrite hello_run. cbn [snd writer calls logged start].
    now apply Hello.
  - (* /helloCtx *)
    rewrite latLonContext_no_lat.
    + now apply Rejected.
    + cbn [pattern helloCtx_route] in Hmatch. now match_steps Hmatch.
  - (* /test/lat/-40/lon/40 *)
    rewrite latLonContext_no_lat.
    + now apply Rejected.
    + cbn [pattern test_route] in Hmatch. now match_steps Hmatch.
  - (* /test2 *)
    cbn [pattern test2_route] in Hmatch.
    match_steps Hmatch.
    match goal with
    | H1 : MatchString signed_integer ?lat = true,
      H2 : MatchString signed_integer ?lon = true |- _ =>
        rename H1 into Hlat, H2 into Hlon;
        set (r := WithURLParams _ _);
        assert (Elat : URLParam r "lat" = lat) by reflexivity;
        assert (Elon : URLParam r "lon" = lon) by reflexivity;
        symmetry in Hsegs; fold (test2_segments lat lon) in Hsegs;
        destruct (ParseFloat lat 64) as [flat [e1 |]] eqn:P1;
        [ rewrite (latLonContext_lat_fails _ r start flat e1) by (now rewrite Elat);
          now apply Rejected
        | destruct (ParseFloat lon 64) as [flon [e2 |]] eqn:P2;
          [ rewrite (latLonContext_lon_fails _ r start flat flon e2)
              by (now rewrite ?Elat, ?Elon);
            now apply Rejected
          | rewrite (latLonContext_passes _ r start flat flon)
              by (now rewrite ?Elat, ?Elon);
            now apply (Test2 apiKey local upstream "GET" target lat lon flat flon) ] ]
    end.
  - (* /weather *)
    cbn [pattern weather_route] in Hmatch.
    match_steps Hmatch.
    match goal with
    | H1 : MatchString signed_decimal ?lat = true,
      H2 : MatchString signed_decimal ?lon = true |- _ =>
        rename H1 into Hlat, H2 into Hlon;
        set (r := WithURLParams _ _);
        assert (Elat : URLParam r "lat" = lat) by reflexivity;
        assert (Elon : URLParam r "lon" = lon) by reflexivity;
        symmetry in Hsegs; fold (weather_segments lat lon) in Hsegs;
        destruct (ParseFloat lat 64) as [flat [e1 |]] eqn:P1;
        [ rewrite (latLonContext_lat_fails _ r start flat e1) by (now rewrite Elat);
          now apply Rejected
        | destruct (ParseFloat lon 64) as [flon [e2 |]] eqn:P2;
          [ rewrite (latLonContext_lon_fails _ r start flat flon e2)
              by (now rewrite ?Elat, ?Elon);
            now apply Rejected
          | pose proof (serve_handled apiKey local upstream target lat lon flat flon
                          Hsegs Hlat Hlon P1 P2) as Hs;
            rewrite (serve_matched apiKey local upstream target lat lon Hsegs Hlat Hlon)
              in Hs;
            fold r in Hs; rewrite Hs;
            now apply (Handled apiKey local upstream "GET" target lat lon flat flon) ] ]
    end.
Qed.

End Cases.

End RouterFacts.

(* ===================================================================== *)
(** * Further properties: the service as a whole *)
(* ===================================================================== *)

Module ServiceProperties.
Import Regexp ServiceFacts ServeFacts RouterFacts.

Lemma Write_fresh (c : chunk) :
  Write c fresh = {| status := Some 200; body := [c] |}.
Proof. reflexivity. Qed.

Lemma NotFound_fresh :
  NotFound fresh
  = {| status := Some 404;
       body := [Text ("404 page not found" +:+ String newline "")] |}.
Proof. reflexivity. Qed.

Lemma MethodNotAllowed_fresh :
  MethodNotAllowed fresh = {| status := Some 405; body := [Text ""] |}.
Proof. reflexivity. Qed.

Lemma bad_request_eq :
  bad_request
  = {| status := Some 400; body := [Text ("Bad Request" +:+ String newline "")] |}.
Proof. reflexivity. Qed.

Lemma internal_server_error_eq :
  internal_server_error
  = {| status := Some 500;
       body := [Text ("Internal Server Error" +:+ String newline "")] |}.
Proof. reflexivity. Qed.

Ltac answer_intro apiKey local upstream method target w A :=
  cbv zeta;
  generalize (serve_answer apiKey local upstream method target);
  generalize (serve apiKey local upstream method target);
  intros w A.

Ltac answer_cases A :=
  destruct A; cbv zeta in *;
  try match goal with
      | |- context [provider_result ?reply] =>
          let E := fresh "E" in
          destruct (provider_result reply) eqn:E
      | H : context [provider_result ?reply] |- _ =>
          let E := fresh "E" in
          destruct (provider_result reply) eqn:E
      end;
  cbn [writer calls logged] in *;
  rewrite ?Write_fresh, ?NotFound_fresh, ?MethodNotAllowed_fresh,
    ?bad_request_eq, ?internal_server_error_eq in *;
  cbn [status body] in *.

(** X4. The provider is called at most once per request, and only by a
    [GET] request on the [/weather] route whose two segments were
    accepted by the pattern and converted by [ParseFloat]: the call
    carries the two converted numbers and the API key of the process.
    A JSON body is written only after such a call. *)
Theorem provider_called_at_most_once
        (apiKey : string) (local : Time.Location)
        (upstream : UpstreamCall -> UpstreamReply) (method target : string) :
  let w := serve apiKey local upstream method target in
  (length (calls w) <= 1)%nat
  /\ (forall c, In c (calls w) ->
        method = "GET" /\ call_appid c = apiKey
        /\ exists lat lon,
             segments target = weather_segments lat lon
             /\ MatchString signed_decimal lat = true
             /\ MatchString signed_decimal lon = true
             /\ ParseFloat lat 64 = (call_lat c, None)
             /\ ParseFloat lon 64 = (call_lon c, None))
  /\ (forall v, In (Encoded v) (body (writer w)) -> length (calls w) = 1%nat).
Proof.
  answer_intro apiKey local upstream method target w A.
  split; [|split].
  - answer_cases A; cbn [length]; lia.
  - intros c Hc.
    answer_cases A; cbn [In] in Hc; try contradiction;
      (destruct Hc as [<- | []]; cbn [call_appid call_lat call_lon];
       split; [assumption | split; [reflexivity |]];
       exists lat, lon; auto).
  - intros v Hv.
    answer_cases A; try reflexivity;
      exfalso; destruct Hv as [Hv | []]; discriminate Hv.
Qed.

Lemma provider_called_at_most_once_witness :
  exists lat lon,
    segments "/weather/lat/40.7/lon/-74.0" = weather_segments lat lon
    /\ ParseFloat lat 64 = (fst (ParseFloat "40.7" 64), None)
    /\ ParseFloat lon 64 = (fst (ParseFloat "-74.0" 64), None).
Proof.
  destruct (proj1 (proj2 (provider_called_at_most_once
                            "0123456789abcdef" Time.UTC sample_provider
                            "GET" "/weather/lat/40.7/lon/-74.0"))
                  {| call_lat := fst (ParseFloat "40.7" 64);
                     call_lon := fst (ParseFloat "-74.0" 64);
                     call_appid := "0123456789abcdef" |}
                  (or_introl eq_refl))
    as (_ & _ & lat & lon & Hsegs & _ & _ & Hlat & Hlon).
  exists lat, lon. auto.
Defined.

(** X5. The answer is 500 exactly when a recovered panic is logged, and the
    logged panic is always the failure of the call to the provider:
    [http.Get] or the reading of the body returned an error, or the body
    did not decode.  Nothing else makes a handler panic. *)
Theorem internal_errors_are_logged
        (apiKey : string) (local : Time.Location)
        (upstream : UpstreamCall -> UpstreamReply) (method target : string) :
  let w := serve apiKey local upstream method target in
  (status (writer w) = Some 500 <-> exists e, In (LogPanic e) (logged w))
  /\ (forall e, In (LogPanic e) (logged w) ->
        exists c, calls w = [c] /\ provider_result (upstream c) = inl e).
Proof.
  answer_intro apiKey local upstream method target w A.
  split; [split|].
  - intros H. answer_cases A; try discriminate H.
    eexists. right. left. reflexivity.
  - intros [e H].
    answer_cases A; cbn [In] in H; try contradiction; try reflexivity;
      exfalso; intuition discriminate.
  - intros e H.
    answer_cases A; cbn [In] in H; try contradiction;
      try (exfalso; intuition discriminate).
    destruct H as [H | [H | []]]; [discriminate H |].
    injection H as <-. eexists. split; [reflexivity | assumption].
Qed.

Lemma internal_errors_are_logged_witness :
  exists e, In (LogPanic e)
               (logged (serve "key" Time.UTC unreachable_provider
                              "GET" "/weather/lat/40.7/lon/-74.0")).
Proof.
  apply (proj1 (proj1 (internal_errors_are_logged
                         "key" Time.UTC unreachable_provider
                         "GET" "/weather/lat/40.7/lon/-74.0"))).
  reflexivity.
Defined.

(** X6. Only three of the five routes can answer 200: [/hello], [/test2]
    and [/weather].  The greeting of [/helloCtx] is never sent, because
    [latLonContext] finds no parameter to convert on that route, and
    neither is there a 200 on [/test/lat/-40/lon/40]. *)
Theorem success_only_on_three_routes
        (apiKey : string) (local : Time.Location)
        (upstream : UpstreamCall -> UpstreamReply) (method target : string) :
  let w := serve apiKey local upstream method target in
  (status (writer w) = Some 200 ->
   method = "GET"
   /\ (segments target = [""; "hello"]
       \/ (exists lat lon, segments target = test2_segments lat lon)
       \/ (exists lat lon, segments target = weather_segments lat lon)))
  /\ ~ In (Text "hello 2!") (body (writer w)).
Proof.
  answer_intro apiKey local upstream method target w A.
  split.
  - intros H. answer_cases A; try discriminate H; (split; [assumption |]).
    + now left.
    + right; left. eauto.
    + right; right. eauto.
  - intros H.
    answer_cases A; destruct H as [H | []]; try discriminate H;
      cbv in H; discriminate H.
Qed.

Lemma success_only_on_three_routes_witness :
  segments "/hello" = [""; "hello"]
  \/ (exists lat lon, segments "/hello" = test2_segments lat lon)
  \/ (exists lat lon, segments "/hello" = weather_segments lat lon).
Proof.
  apply (proj1 (success_only_on_three_routes
                  "key" Time.UTC sample_provider "GET" "/hello")).
  reflexivity.
Defined.




Lemma provider_result_inr (reply : UpstreamReply) (r : OpenWeatherOneCallResponse) :
  provider_result reply = inr r ->
  exists code data,
    reply = Replies code data
    /\ Unmarshal decode_Response data zeroResponse = (r, None).
Proof.
  destruct reply as [d | c d | c data]; cbn [provider_result]; try discriminate.
  destruct (Unmarshal decode_Response data zeroResponse) as [r' [e |]] eqn:E;
    [discriminate|].
  intros [= <-]. now exists c, data.
Qed.

(** X8. Every request is answered, whatever the method, the path and the
    provider do: no panic escapes the handlers, and the body is written
    exactly once.  The response is one of seven: six fixed texts with
    their status, or a 200 whose body is the report made from the
    provider's decoded answer.  So no detail of an error (of a
    conversion, of the network, of the decoding) and nothing of the
    request ever appears in a response. *)
Theorem answers_are_generic
        (apiKey : string) (local : Time.Location)
        (upstream : UpstreamCall -> UpstreamReply) (method target : string) :
  let w := serve apiKey local upstream method target in
  let generic code text := writer w = {| status := Some code; body := [Text text] |} in
  generic 404 ("404 page not found" +:+ String newline "")
  \/ generic 405 ""
  \/ generic 400 ("Bad Request" +:+ String newline "")
  \/ generic 500 ("Internal Server Error" +:+ String newline "")
  \/ generic 200 "hello 1!"
  \/ generic 200 "hello 3!"
  \/ (exists c code data r,
         calls w = [c]
         /\ upstream c = Replies code data
         /\ Unmarshal decode_Response data zeroResponse = (r, None)
         /\ writer w = {| status := Some 200;
                          body := [Encoded (encode_MyWeatherResponse (report local r))] |}).
Proof.
  answer_intro apiKey local upstream method target w A.
  answer_cases A; auto 7.
  do 6 right.
  match goal with
  | E : provider_result _ = inr _ |- _ =>
      apply provider_result_inr in E as (code & data & Hup & Hun)
  end.
  eexists _, code, data, _. repeat split; eauto.
Qed.

End ServiceProperties.

(* ===================================================================== *)
(** * Further properties: the routes behind [latLonContext] *)
(* ===================================================================== *)

Module RouteProperties.
Import Regexp ServiceFacts ServeFacts RouterFacts PatternFacts RangeFacts.

Lemma ParseFloat_of_integer (s : string) :
  MatchString signed_integer s = true ->
  (String.length s <= 307)%nat ->
  ParseFloat s 64 = (fst (ParseFloat s 64), None).
Proof.
  intros H L.
  pose proof (ParseFloat_short_segment s (signed_integer_is_decimal s H) L) as P.
  destruct (ParseFloat s 64) as [f e]. cbn [fst snd] in *. now subst.
Qed.

(** X9. A [GET] on [/test2/lat/{lat}/lon/{lon}] with two signed integers of
    at most 307 bytes is greeted: [latLonContext] converts both, logs the
    context with the two numbers and runs the handler, which answers 200
    with [hello 3!]; the provider is not called. *)
Theorem test2_greets
        (apiKey : string) (local : Time.Location)
        (upstream : UpstreamCall -> UpstreamReply) (target lat lon : string) :
  segments target = test2_segments lat lon ->
  MatchString signed_integer lat = true ->
  MatchString signed_integer lon = true ->
  (String.length lat <= 307)%nat ->
  (String.length lon <= 307)%nat ->
  serve apiKey local upstream "GET" target
  = {| writer := {| status := Some 200; body := [Text "hello 3!"] |};
       calls := [];
       logged := [LogContext (coordinates (fst (ParseFloat lat 64))
                                          (fst (ParseFloat lon 64)))] |}.
Proof.
  intros Hsegs Hlat Hlon Llat Llon.
  unfold serve, ServeHTTP. cbn [Http.path Http.method NewRequest].
  rewrite Hsegs, (find_route_test2 apiKey local upstream lat lon Hlat Hlon).
  change (String.eqb "GET" "GET") with true. cbv iota.
  cbn [handler test2_route].
  set (r := WithURLParams _ _).
  assert (Elat : URLParam r "lat" = lat) by reflexivity.
  assert (Elon : URLParam r "lon" = lon) by reflexivity.
  rewrite (latLonContext_passes _ r start (fst (ParseFloat lat 64))
                                (fst (ParseFloat lon 64)))
    by (rewrite ?Elat, ?Elon; now apply ParseFloat_of_integer).
  reflexivity.
Qed.

Lemma test2_greets_witness :
  serve "key" Time.UTC unreachable_provider "GET" "/test2/lat/-40/lon/+40"
  = {| writer := {| status := Some 200; body := [Text "hello 3!"] |};
       calls := [];
       logged := [LogContext (coordinates (fst (ParseFloat "-40" 64))
                                          (fst (ParseFloat "+40" 64)))] |}.
Proof.
  apply (test2_greets "key" Time.UTC unreachable_provider
                      "/test2/lat/-40/lon/+40" "-40" "+40");
    [reflexivity | reflexivity | reflexivity | cbn; lia | cbn; lia].
Defined.

(** X10. [latLonContext] on a request that lacks one of the two URL
    parameters answers 400 and does not run the next handler:
    [chi.URLParam] gives the empty string, which [ParseFloat] rejects.
    The routes [/helloCtx] and [/test/lat/-40/lon/40] are registered
    behind [latLonContext] although their patterns bind no parameter, so
    a [GET] on them is always answered 400. *)
Theorem context_routes_without_parameters :
  (forall (next : Handler) (r : Request) (s : World),
      URLParam r "lat" = "" \/ URLParam r "lon" = "" ->
      latLonContext next r s
      = (Returned tt,
         {| writer := Error "Bad Request" 400 (writer s);
            calls := calls s; logged := logged s |}))
  /\ (forall (apiKey : string) (local : Time.Location)
             (upstream : UpstreamCall -> UpstreamReply) (target : string),
         segments target = [""; "helloCtx"]
         \/ segments target = [""; "test"; "lat"; "-40"; "lon"; "40"] ->
         serve apiKey local upstream "GET" target
         = {| writer := {| status := Some 400;
                           body := [Text ("Bad Request" +:+ String newline "")] |};
              calls := []; logged := [] |}).
Proof.
  split.
  - intros next r s [E | E].
    + now apply latLonContext_no_lat.
    + destruct (ParseFloat (URLParam r "lat") 64) as [flat [e |]] eqn:P1.
      * exact (latLonContext_lat_fails next r s flat e P1).
      * apply (latLonContext_lon_fails next r s flat (S754_zero false) ErrSyntax P1).
        now rewrite E.
  - intros apiKey local upstream target [E | E];
      unfold serve, ServeHTTP; cbn [Http.path Http.method NewRequest]; rewrite E.
    + change (find_route (routes apiKey local upstream) [""; "helloCtx"])
        with (Some (helloCtx_route, @nil (string * string))).
      change (String.eqb "GET" "GET") with true. cbv iota.
      cbn [handler helloCtx_route].
      now rewrite latLonContext_no_lat by reflexivity.
    + change (find_route (routes apiKey local upstream)
                         [""; "test"; "lat"; "-40"; "lon"; "40"])
        with (Some (test_route, @nil (string * string))).
      change (String.eqb "GET" "GET") with true. cbv iota.
      cbn [handler test_route].
      now rewrite latLonContext_no_lat by reflexivity.
Qed.

Lemma context_routes_without_parameters_witness :
  status (writer (serve "key" Time.UTC sample_provider "GET" "/helloCtx")) = Some 400
  /\ status (writer (serve "key" Time.UTC sample_provider "GET" "/test/lat/-40/lon/40"))
     = Some 400.
Proof.
  split.
  - rewrite (proj2 context_routes_without_parameters
               "key" Time.UTC sample_provider "/helloCtx").
    + reflexivity.
    + left. reflexivity.
  - rewrite (proj2 context_routes_without_parameters
               "key" Time.UTC sample_provider "/test/lat/-40/lon/40").
    + reflexivity.
    + right. reflexivity.
Defined.

(** X11. [latLonContext] never panics, whatever the next handler does: its
    deferred function recovers a panic of the conversions and of the
    next handler alike.  When both conversions pass, the next handler
    runs once, after the context is logged, on a request whose context
    holds the two numbers; if it returns, so does the middleware, with
    the world the handler left; if it panics, [Bad Request] is written
    to what the handler left of the response. *)
Theorem latLonContext_recovers (next : Handler) (r : Request) (s : World) :
  (exists s', latLonContext next r s = (Returned tt, s'))
  /\ (forall lat lon : float64,
         ParseFloat (URLParam r "lat") 64 = (lat, None) ->
         ParseFloat (URLParam r "lon") 64 = (lon, None) ->
         let c := <["lon" := lon]> (<["lat" := lat]> (ctx r)) in
         let s1 := {| writer := writer s; calls := calls s;
                      logged := logged s ++ [LogContext c] |} in
         (forall s', next (WithContext c r) s1 = (Returned tt, s') ->
                     latLonContext next r s = (Returned tt, s'))
         /\ (forall e s', next (WithContext c r) s1 = (Panicked e, s') ->
                          latLonContext next r s
                          = (Returned tt,
                             {| writer := Error "Bad Request" 400 (writer s');
                                calls := calls s'; logged := logged s' |}))).
Proof.
  split.
  - destruct (ParseFloat (URLParam r "lat") 64) as [flat [e1 |]] eqn:P1.
    + rewrite (latLonContext_lat_fails next r s flat e1 P1). eauto.
    + destruct (ParseFloat (URLParam r "lon") 64) as [flon [e2 |]] eqn:P2.
      * rewrite (latLonContext_lon_fails next r s flat flon e2 P1 P2). eauto.
      * rewrite (latLonContext_passes next r s flat flon P1 P2).
        unfold recovering.
        destruct (next _ _) as [[[] | e] s']; eauto.
  - intros lat lon P1 P2 c s1. split.
    + intros s' H. rewrite (latLonContext_passes next r s lat lon P1 P2).
      unfold recovering. fold c. fold s1. now rewrite H.
    + intros e s' H. rewrite (latLonContext_passes next r s lat lon P1 P2).
      unfold recovering. fold c. fold s1. now rewrite H.
Qed.

Lemma latLonContext_recovers_witness :
  latLonContext (fun _ => panic (AssertErr "boom"))
                (WithURLParams [("lat", "1"); ("lon", "2")] (NewRequest "GET" "/x"))
                start
  = (Returned tt,
     {| writer := bad_request; calls := [];
        logged := [LogContext (coordinates (fst (ParseFloat "1" 64))
                                           (fst (ParseFloat "2" 64)))] |}).
Proof.
  exact (proj2 (proj2 (latLonContext_recovers
                         (fun _ => panic (AssertErr "boom"))
                         (WithURLParams [("lat", "1"); ("lon", "2")]
                                        (NewRequest "GET" "/x"))
                         start)
                      (fst (ParseFloat "1" 64)) (fst (ParseFloat "2" 64))
                      eq_refl eq_refl)
               (AssertErr "boom")
               {| writer := fresh; calls := [];
                  logged := [LogContext (coordinates (fst (ParseFloat "1" 64))
                                                     (fst (ParseFloat "2" 64)))] |}
               eq_refl).
Defined.

End RouteProperties.

(* ===================================================================== *)
(** * Further properties: the API key and [main] *)
(* ===================================================================== *)

Module ProcessProperties.
Import Regexp ServiceFacts ServeFacts RouterFacts.



(** The calls of a request carry the key the service runs with. *)
Lemma calls_carry_key (apiKey : string) (local : Time.Location)
      (upstream : UpstreamCall -> UpstreamReply) (method target : string)
      (c : UpstreamCall) :
  In c (calls (serve apiKey local upstream method target)) -> call_appid c = apiKey.
Proof.
  generalize (serve_answer apiKey local upstream method target).
  generalize (serve apiKey local upstream method target).
  intros w A Hc.
  destruct A; cbv zeta in Hc;
    try (destruct (provider_result _));
    cbn [calls In] in Hc; try contradiction;
    destruct Hc as [<- | []]; reflexivity.
Qed.



(** X13. [main] exits with code 1 also when the variable is set but empty;
    and when it comes to listen, it does so on port 8080, the variable
    is set to a non-empty key, and every call any request makes to the
    provider carries exactly that key. *)
Theorem main_serves_with_the_key
        (environ : gmap string string) (local : Time.Location)
        (upstream : UpstreamCall -> UpstreamReply) :
  (environ !! "OPENWEATHERMAP_API_KEY" = Some "" ->
   running (main environ local upstream) = Exited 1)
  /\ (forall addr srv,
         running (main environ local upstream) = Listening addr srv ->
         addr = ":8080"
         /\ exists key,
             environ !! "OPENWEATHERMAP_API_KEY" = Some key
             /\ key <> ""
             /\ srv = serve key local upstream
             /\ forall method target c,
                 In c (calls (srv method target)) -> call_appid c = key).
Proof.
  unfold main, Getenv. split.
  - intros ->. reflexivity.
  - intros addr srv.
    destruct (environ !! "OPENWEATHERMAP_API_KEY") as [key |].
    + destruct (String.eqb_spec key "") as [-> | Hk]; cbn [running]; [discriminate|].
      intros [= <- <-]. split; [reflexivity|].
      exists key. repeat split; auto.
      intros method target c. apply calls_carry_key.
    + cbn [running String.eqb]. discriminate.
Qed.

Lemma main_serves_with_the_key_witness :
  exists key,
    environ_with_key !! "OPENWEATHERMAP_API_KEY" = Some key /\ key <> "".
Proof.
  destruct (proj2 (main_serves_with_the_key environ_with_key Time.UTC sample_provider)
                  ":8080" (serve "0123456789abcdef" Time.UTC sample_provider)
                  eq_refl)
    as (_ & key & Hk & Hne & _).
  exists key. auto.
Defined.

End ProcessProperties.

(* ===================================================================== *)
(** * Further properties: from the provider's answer to the response *)
(* ===================================================================== *)

Module AnswerProperties.
Import Regexp ServiceFacts ServeFacts JsonFacts ErrorFacts DecodeFacts.

(** ** Encoding *)


Lemma encode_MyWeatherResponse_eq (m : MyWeatherResponse) :
  encode_MyWeatherResponse m
  = Object [("Timestamp", Str (Timestamp m));
            ("CurrentTemperatureFeel", Str (CurrentTemperatureFeel m));
            ("current_conditions", encode_slice encode_string (CurrentConditions m));
            ("alerts", encode_slice encode_Alert (CurrentAlerts m))].
Proof. reflexivity. Qed.

Lemma report_eq (local : Time.Location) (r : OpenWeatherOneCallResponse) :
  encode_MyWeatherResponse (report local r)
  = Object [("Timestamp", Str (Time.FormatRFC3339 (Time.Unix local (DT (Current r)))));
            ("CurrentTemperatureFeel", Str (GetCurrentTemperatureFeel r));
            ("current_conditions",
             Array (map (fun e => Str (Main e)) (items (Weather (Current r)))));
            ("alerts", Array (map alert_json (items (Alerts r))))].
Proof.
  rewrite encode_MyWeatherResponse_eq. unfold report.
  cbn [Timestamp CurrentTemperatureFeel CurrentConditions CurrentAlerts].
  rewrite GetCurrentConditions_eq, GetCurrentAlerts_eq.
  cbn [encode_slice]. rewrite map_map. reflexivity.
Qed.

(** X14. The body of every 200 answer of the [/weather] handler is an object
    of exactly four members, in this order and under these names.  The
    two lists are always JSON arrays, never [null], also when the
    provider's answer had [null] or nothing in their place; the
    conditions are the [main] strings in the provider's order, and each
    alert is written with the three member names it was read with. *)
Theorem report_has_four_members
        (local : Time.Location) (r : OpenWeatherOneCallResponse) :
  encode_MyWeatherResponse (report local r)
  = Object [("Timestamp", Str (Time.FormatRFC3339 (Time.Unix local (DT (Current r)))));
            ("CurrentTemperatureFeel", Str (GetCurrentTemperatureFeel r));
            ("current_conditions",
             Array (map (fun e => Str (Main e)) (items (Weather (Current r)))));
            ("alerts",
             Array (map (fun a => Object [("sender_name", Str (SenderName a));
                                          ("event", Str (Event a));
                                          ("description", Str (Description a))])
                        (items (Alerts r))))].
Proof. exact (report_eq local r). Qed.

(** ** Decoding what the provider writes *)

Lemma decode_Alert_alert_json (a x : OpenWeatherOneCallAlert) :
  decode_Alert (alert_json a) x = (a, []).
Proof. destruct a, x. reflexivity. Qed.

Lemma decode_WeatherEntry_condition_json (m : string) (x : WeatherEntry) :
  decode_WeatherEntry (condition_json m) x = ({| Main := m |}, []).
Proof. destruct x. reflexivity. Qed.

Lemma decode_elements_map {E : Type} (zero : E) (elem : decoder E) (json : E -> value) :
  (forall x y, elem (json x) y = (x, [])) ->
  forall xs slots, decode_elements zero elem (map json xs) slots = (xs, []).
Proof.
  intros H xs. induction xs as [| x xs IH]; intros slots; [reflexivity|].
  cbn [map decode_elements]. now rewrite H, IH.
Qed.

Lemma decode_slice_map {E : Type} (ty : string) (zero : E) (elem : decoder E)
      (json : E -> value) :
  (forall x y, elem (json x) y = (x, [])) ->
  forall xs, decode_slice ty zero elem (Array (map json xs)) NilSlice = (Slice xs [], []).
Proof.
  intros H [| x xs]; [reflexivity|].
  cbn [map decode_slice backing].
  change (json x :: map json xs) with (map json (x :: xs)).
  rewrite (decode_elements_map zero elem json H).
  now rewrite skipn_nil.
Qed.


End AnswerProperties.

(* ===================================================================== *)
(** * Further properties: whole answers *)
(* ===================================================================== *)

Module EndToEnd.
Import Regexp ServiceFacts ServeFacts JsonFacts ErrorFacts DecodeFacts AnswerProperties.

Lemma decode_member_hit {A : Type} (fields : list (field A)) (acc : A * list Json.error)
      (key : string) (v : value) (f : field A) :
  find_field fields key = Some f ->
  decode_member fields acc (key, v)
  = (fst (f_store f v (fst acc)), snd acc ++ snd (f_store f v (fst acc))).
Proof.
  intros H. unfold decode_member. cbn [fst snd]. rewrite H.
  now destruct (f_store f v (fst acc)).
Qed.

Lemma store_eq {A B : Type} (get : A -> B) (set : B -> A -> A) (dec : decoder B)
      (v : value) (x : A) :
  store get set dec v x = (set (fst (dec v (get x))) x, snd (dec v (get x))).
Proof. unfold store. now destruct (dec v (get x)). Qed.

Lemma decode_int64_number (lit : string) (n x : Z) :
  ParseInt64 lit = (n, None) -> decode_int64 (Number lit) x = (n, []).
Proof. intros H. cbn [decode_int64]. now rewrite H. Qed.

Lemma decode_float32_number (lit : string) (f x : float32) :
  ParseFloat lit 32 = (f, None) -> decode_float32 (Number lit) x = (f, []).
Proof. intros H. cbn [decode_float32]. now rewrite H. Qed.

Lemma Current_table_fields :
  Current_table = [dt_field; feels_like_field; weather_field].
Proof. exact Current_table_eq. Qed.

Lemma Response_table_fields : Response_table = [current_field; alerts_field].
Proof. exact Response_table_eq. Qed.

Lemma decode_Current_answer (dt fl : string) (n : Z) (f : float32)
      (conditions : list string) :
  ParseInt64 dt = (n, None) ->
  ParseFloat fl 32 = (f, None) ->
  decode_Current
    (Object [("dt", Number dt); ("feels_like", Number fl);
             ("weather", Array (map condition_json conditions))])
    zeroCurrent
  = ({| DT := n; FeelsLike := f;
        Weather := Slice (map (fun m => {| Main := m |}) conditions) [] |}, []).
Proof.
  intros Hn Hf. unfold decode_Current, decode_struct.
  rewrite Current_table_fields.
  cbn [fold_left].
  rewrite (decode_member_hit [dt_field; feels_like_field; weather_field] _ "dt" _ dt_field eq_refl).
  cbn [dt_field f_store fst snd]. rewrite store_eq, (decode_int64_number dt n _ Hn).
  cbn [fst snd app].
  rewrite (decode_member_hit [dt_field; feels_like_field; weather_field] _ "feels_like" _
             feels_like_field eq_refl).
  cbn [feels_like_field f_store fst snd].
  rewrite store_eq, (decode_float32_number fl f _ Hf).
  cbn [fst snd app].
  rewrite (decode_member_hit [dt_field; feels_like_field; weather_field] _ "weather" _
             weather_field eq_refl).
  cbn [weather_field f_store fst snd]. rewrite store_eq.
  cbn [Weather zeroCurrent DT FeelsLike].
  rewrite <- (map_map (fun m => {| Main := m |}) (fun e => condition_json (Main e))).
  rewrite (decode_slice_map _ zeroWeatherEntry decode_WeatherEntry
                            (fun e => condition_json (Main e))).
  - reflexivity.
  - intros [m] y. apply decode_WeatherEntry_condition_json.
Qed.

Lemma decode_Response_answer (dt fl : string) (n : Z) (f : float32)
      (conditions : list string) (alerts : list OpenWeatherOneCallAlert) :
  ParseInt64 dt = (n, None) ->
  ParseFloat fl 32 = (f, None) ->
  decode_Response (answer_json dt fl conditions alerts) zeroResponse
  = ({| Current := {| DT := n; FeelsLike := f;
                      Weather := Slice (map (fun m => {| Main := m |}) conditions) [] |};
        Alerts := Slice alerts [] |}, []).
Proof.
  intros Hn Hf. unfold decode_Response, decode_struct, answer_json.
  rewrite Response_table_fields.
  cbn [fold_left].
  rewrite (decode_member_hit [current_field; alerts_field] _ "current" _
             current_field eq_refl).
  cbn [current_field f_store fst snd]. rewrite store_eq.
  cbn [Current zeroResponse].
  rewrite (decode_Current_answer dt fl n f conditions Hn Hf).
  cbn [fst snd app].
  rewrite (decode_member_hit [current_field; alerts_field] _ "alerts" _
             alerts_field eq_refl).
  cbn [alerts_field f_store fst snd]. rewrite store_eq.
  cbn [Alerts Current].
  rewrite (decode_slice_map _ zeroAlert decode_Alert alert_json decode_Alert_alert_json).
  reflexivity.
Qed.

(** X16. From the provider's answer to the response, end to end.  When the
    provider answers a [GET] on [/weather] (with any status code) by an
    object with [current.dt], [current.feels_like], the [main] of each
    entry of [current.weather], and the alerts, then the response is 200
    and its body has the time of [dt] in the zone of the process, the
    feel of [feels_like] read as a [float32], the conditions in the
    provider's order, and the alerts as the provider wrote them. *)
Theorem answer_end_to_end
        (apiKey : string) (local : Time.Location)
        (upstream : UpstreamCall -> UpstreamReply)
        (target lat lon : string) (flat flon : float64)
        (code : Z) (dt fl : string) (n : Z) (f : float32)
        (conditions : list string) (alerts : list OpenWeatherOneCallAlert) :
  segments target = weather_segments lat lon ->
  MatchString signed_decimal lat = true ->
  MatchString signed_decimal lon = true ->
  ParseFloat lat 64 = (flat, None) ->
  ParseFloat lon 64 = (flon, None) ->
  upstream {| call_lat := flat; call_lon := flon; call_appid := apiKey |}
  = Replies code (WellFormed (answer_json dt fl conditions alerts)) ->
  ParseInt64 dt = (n, None) ->
  ParseFloat fl 32 = (f, None) ->
  writer (serve apiKey local upstream "GET" target)
  = {| status := Some 200;
       body := [Encoded
                  (Object
                     [("Timestamp", Str (Time.FormatRFC3339 (Time.Unix local n)));
                      ("CurrentTemperatureFeel",
                       Str (GetCurrentTemperatureFeel (with_feels_like f)));
                      ("current_conditions", Array (map Str conditions));
                      ("alerts", Array (map alert_json alerts))])] |}.
Proof.
  intros Hsegs Hlat Hlon P1 P2 Hup Hn Hf.
  rewrite (serve_handled apiKey local upstream target lat lon flat flon
                         Hsegs Hlat Hlon P1 P2).
  cbv zeta. rewrite Hup. unfold provider_result, Unmarshal.
  rewrite (decode_Response_answer dt fl n f conditions alerts Hn Hf).
  cbn [head writer]. rewrite report_eq.
  cbn [Current Alerts DT Weather items]. rewrite map_map.
  reflexivity.
Qed.

Lemma answer_end_to_end_witness :
  writer (serve "key" five_hours_west
                (fun _ => Replies 200 (WellFormed
                                         (answer_json "1684000000" "300.0" ["Clear"] [])))
                "GET" "/weather/lat/40.7/lon/-74.0")
  = {| status := Some 200;
       body := [Encoded
                  (Object [("Timestamp", Str "2023-05-13T12:46:40-05:00");
                           ("CurrentTemperatureFeel", Str "hot");
                           ("current_conditions", Array [Str "Clear"]);
                           ("alerts", Array [])])] |}.
Proof.
  exact (answer_end_to_end
           "key" five_hours_west
           (fun _ => Replies 200 (WellFormed
                                    (answer_json "1684000000" "300.0" ["Clear"] [])))
           "/weather/lat/40.7/lon/-74.0" "40.7" "-74.0"
           (fst (ParseFloat "40.7" 64)) (fst (ParseFloat "-74.0" 64))
           200 "1684000000" "300.0" 1684000000 (fst (ParseFloat "300.0" 32))
           ["Clear"] []
           eq_refl eq_refl eq_refl eq_refl eq_refl eq_refl eq_refl eq_refl).
Defined.

End EndToEnd.

(* ===================================================================== *)
(** * Further properties: what the decoder accepts and refuses *)
(* ===================================================================== *)

Module DecodingProperties.
Import Regexp ServiceFacts ServeFacts JsonFacts ErrorFacts DecodeFacts AnswerProperties
       EndToEnd.

(** ** Errors are never dropped *)

Section Struct.
Context {A : Type}.
Variable fields : list (field A).
Hypothesis Hblind : forall f, In f fields -> state_blind (f_store f).

Lemma decode_struct_member_error (ty : string) (pre post : list (string * value))
      (key : string) (v : value) (f : field A) (x x0 : A) :
  find_field fields key = Some f ->
  snd (f_store f v x0) <> [] ->
  snd (decode_struct ty fields (Object (pre ++ (key, v) :: post)) x) <> [].
Proof.
  intros Hf Herr. cbn [decode_struct]. rewrite fold_left_app. cbn [fold_left].
  destruct (fold_left (decode_member fields) pre (x, [])) as [x1 e1].
  rewrite (decode_member_hit fields (x1, e1) key v f Hf). cbn [fst snd].
  rewrite (decode_members_errors fields Hblind post _ x1 _).
  rewrite (Hblind f (find_field_in _ _ _ Hf) v x1 x0).
  intros H. apply app_eq_nil in H as [H _]. apply app_eq_nil in H as [_ H].
  contradiction.
Qed.

End Struct.

Lemma head_not_nil {X : Type} (l : list X) : l <> [] -> head l <> None.
Proof. destruct l; [contradiction | discriminate]. Qed.

Lemma Unmarshal_error (v : value) (x : OpenWeatherOneCallResponse) :
  snd (decode_Response v x) <> [] ->
  snd (Unmarshal decode_Response (WellFormed v) x) <> None.
Proof.
  intros H. unfold Unmarshal.
  destruct (decode_Response v x) as [x' errs]. cbn [snd] in *.
  now apply head_not_nil.
Qed.

Lemma Current_member_error (pre post cpre cpost : list (string * value))
      (key : string) (v : value) (f : field OpenWeatherOneCallCurrentConditions)
      (x : OpenWeatherOneCallResponse) (x0 : OpenWeatherOneCallCurrentConditions) :
  find_field Current_table key = Some f ->
  snd (f_store f v x0) <> [] ->
  snd (Unmarshal decode_Response
         (WellFormed (Object (pre ++ ("current", Object (cpre ++ (key, v) :: cpost))
                                  :: post))) x) <> None.
Proof.
  intros Hf Herr. apply Unmarshal_error.
  apply (decode_struct_member_error Response_table Response_table_blind _ pre post
           "current" _ current_field x zeroResponse).
  - rewrite Response_table_fields. reflexivity.
  - cbn [current_field f_store]. rewrite store_eq. cbn [snd].
    apply (decode_struct_member_error Current_table Current_table_blind _ cpre cpost
             key v f _ x0 Hf Herr).
Qed.

(** X17. When a value of the wrong type stands for a member the service
    reads, the whole answer is refused, wherever the member stands among
    the others and whatever the others are: [json.Unmarshal] returns an
    error, and the handler panics into a 500.  This holds for
    [current.dt] when it is no integer that fits an [int64] (a string, a
    fraction), for [current.feels_like] when it is no number that fits a
    [float32], and for [current.weather] and [alerts] when they are
    neither an array nor [null]. *)
Theorem mistyped_member_is_refused
        (pre post cpre cpost : list (string * value)) (v : value)
        (x : OpenWeatherOneCallResponse) :
  let answer (key : string) :=
    WellFormed (Object (pre ++ ("current", Object (cpre ++ (key, v) :: cpost)) :: post)) in
  (snd (decode_int64 v 0) <> [] ->
   snd (Unmarshal decode_Response (answer "dt") x) <> None)
  /\ (snd (decode_float32 v zero32) <> [] ->
      snd (Unmarshal decode_Response (answer "feels_like") x) <> None)
  /\ (snd (decode_slice "[]struct { Main string }" zeroWeatherEntry decode_WeatherEntry
                        v NilSlice) <> [] ->
      snd (Unmarshal decode_Response (answer "weather") x) <> None)
  /\ (snd (decode_slice "[]main.OpenWeatherOneCallAlert" zeroAlert decode_Alert
                        v NilSlice) <> [] ->
      snd (Unmarshal decode_Response
             (WellFormed (Object (pre ++ ("alerts", v) :: post))) x) <> None).
Proof.
  cbv zeta. repeat split; intros H.
  - apply (Current_member_error pre post cpre cpost "dt" v dt_field x zeroCurrent).
    + rewrite Current_table_fields. reflexivity.
    + cbn [dt_field f_store]. rewrite store_eq. exact H.
  - apply (Current_member_error pre post cpre cpost "feels_like" v feels_like_field
             x zeroCurrent).
    + rewrite Current_table_fields. reflexivity.
    + cbn [feels_like_field f_store]. rewrite store_eq. exact H.
  - apply (Current_member_error pre post cpre cpost "weather" v weather_field
             x zeroCurrent).
    + rewrite Current_table_fields. reflexivity.
    + cbn [weather_field f_store]. rewrite store_eq. exact H.
  - apply Unmarshal_error.
    apply (decode_struct_member_error Response_table Response_table_blind _ pre post
             "alerts" v alerts_field x zeroResponse).
    + rewrite Response_table_fields. reflexivity.
    + cbn [alerts_field f_store]. rewrite store_eq. exact H.
Qed.

Lemma mistyped_member_is_refused_witness :
  snd (Unmarshal decode_Response
         (WellFormed (Object [("current", Object [("dt", Number "1684000000.5")])]))
         zeroResponse) <> None
  /\ snd (Unmarshal decode_Response
            (WellFormed (Object [("current", Object [("feels_like", Number "1e39")])]))
            zeroResponse) <> None.
Proof.
  split.
  - apply (proj1 (mistyped_member_is_refused [] [] [] [] (Number "1684000000.5")
                                             zeroResponse)).
    vm_compute. discriminate.
  - apply (proj1 (proj2 (mistyped_member_is_refused [] [] [] [] (Number "1e39")
                                                    zeroResponse))).
    vm_compute. discriminate.
Defined.

End DecodingProperties.

(* ===================================================================== *)
(** * Further properties: member keys, absent members, the feel *)
(* ===================================================================== *)

Module TransformProperties.
Import Regexp ServiceFacts ServeFacts JsonFacts ErrorFacts DecodeFacts AnswerProperties
       EndToEnd.

(** ** Keys are matched without regard to case *)

Section Folding.
Context {A : Type}.

(** When no two fields have names that are equal under case folding,
    the field a key selects is the first whose name is equal to the key
    under case folding. *)
Lemma find_field_by_fold (fields : list (field A)) (key : string) :
  (forall f g, In f fields -> In g fields ->
               fold_key (f_name f) = fold_key (f_name g) -> f_name f = f_name g) ->
  find_field fields key
  = find (fun f => String.eqb (fold_key (f_name f)) (fold_key key)) fields.
Proof.
  induction fields as [| g t IH]; intros Hinj; [reflexivity|].
  unfold find_field in *. cbn [find].
  destruct (String.eqb_spec (f_name g) key) as [E | NE].
  - subst key. now rewrite String.eqb_refl.
  - destruct (String.eqb_spec (fold_key (f_name g)) (fold_key key)) as [EF | NEF].
    + destruct (find (fun f => String.eqb (f_name f) key) t) as [f |] eqn:Ff;
        [|reflexivity].
      apply find_some in Ff as [Hin Hname].
      apply String.eqb_eq in Hname.
      exfalso. apply NE. rewrite <- Hname. symmetry.
      apply Hinj; [now right | now left | now rewrite Hname].
    + apply IH. intros f h Hf Hh. apply Hinj; now right.
Qed.

Lemma find_field_same_fold (fields : list (field A)) (key key' : string) :
  (forall f g, In f fields -> In g fields ->
               fold_key (f_name f) = fold_key (f_name g) -> f_name f = f_name g) ->
  fold_key key = fold_key key' ->
  find_field fields key = find_field fields key'.
Proof.
  intros Hinj E. rewrite !find_field_by_fold by assumption. now rewrite E.
Qed.

Lemma decode_struct_same_fold (ty : string) (fields : list (field A))
      (key key' : string) (pre post : list (string * value)) (v : value) (x : A) :
  find_field fields key = find_field fields key' ->
  decode_struct ty fields (Object (pre ++ (key, v) :: post)) x
  = decode_struct ty fields (Object (pre ++ (key', v) :: post)) x.
Proof.
  intros E. cbn [decode_struct]. rewrite !fold_left_app. cbn [fold_left].
  unfold decode_member at 2 4. cbn [fst snd]. now rewrite E.
Qed.

End Folding.

Lemma names_distinct {A : Type} (fields : list (field A)) (names : list string) :
  map f_name fields = names ->
  (forall n m, In n names -> In m names -> fold_key n = fold_key m -> n = m) ->
  forall f g, In f fields -> In g fields ->
              fold_key (f_name f) = fold_key (f_name g) -> f_name f = f_name g.
Proof.
  intros <- H f g Hf Hg. apply H; now apply in_map.
Qed.

Ltac distinct_names :=
  intros n m Hn Hm E; cbn [In] in Hn, Hm;
  repeat match goal with
         | H : _ \/ _ |- _ => destruct H as [H | H]
         | H : False |- _ => destruct H
         end;
  subst; first [reflexivity | discriminate E].

Lemma Response_table_distinct :
  forall f g, In f Response_table -> In g Response_table ->
              fold_key (f_name f) = fold_key (f_name g) -> f_name f = f_name g.
Proof. apply (names_distinct _ _ Response_table_names). distinct_names. Qed.

Lemma Current_table_distinct :
  forall f g, In f Current_table -> In g Current_table ->
              fold_key (f_name f) = fold_key (f_name g) -> f_name f = f_name g.
Proof. apply (names_distinct _ _ Current_table_names). distinct_names. Qed.

Lemma Alert_table_distinct :
  forall f g, In f Alert_table -> In g Alert_table ->
              fold_key (f_name f) = fold_key (f_name g) -> f_name f = f_name g.
Proof. apply (names_distinct _ _ Alert_table_names). distinct_names. Qed.

Lemma WeatherEntry_table_distinct :
  forall f g, In f WeatherEntry_table -> In g WeatherEntry_table ->
              fold_key (f_name f) = fold_key (f_name g) -> f_name f = f_name g.
Proof. apply (names_distinct _ _ WeatherEntry_table_names). distinct_names. Qed.

(** X18. The keys of the provider's objects are matched without regard to
    case: two keys that are equal under case folding select the same
    field, so writing one for the other, anywhere in an object, changes
    neither what is decoded nor the errors.  This holds for each of the
    four structs the answer is decoded into. *)
Theorem keys_match_without_case (key key' : string) :
  fold_key key = fold_key key' ->
  (forall pre post v x,
      decode_Response (Object (pre ++ (key, v) :: post)) x
      = decode_Response (Object (pre ++ (key', v) :: post)) x)
  /\ (forall pre post v x,
         decode_Current (Object (pre ++ (key, v) :: post)) x
         = decode_Current (Object (pre ++ (key', v) :: post)) x)
  /\ (forall pre post v x,
         decode_Alert (Object (pre ++ (key, v) :: post)) x
         = decode_Alert (Object (pre ++ (key', v) :: post)) x)
  /\ (forall pre post v x,
         decode_WeatherEntry (Object (pre ++ (key, v) :: post)) x
         = decode_WeatherEntry (Object (pre ++ (key', v) :: post)) x).
Proof.
  intros E. repeat split; intros pre post v x;
    apply decode_struct_same_fold; apply find_field_same_fold; try assumption.
  - apply Response_table_distinct.
  - apply Current_table_distinct.
  - apply Alert_table_distinct.
  - apply WeatherEntry_table_distinct.
Qed.

Lemma keys_match_without_case_witness :
  decode_Current (Object [("Feels_Like", Number "300.0")]) zeroCurrent
  = decode_Current (Object [("feels_like", Number "300.0")]) zeroCurrent.
Proof.
  apply (proj1 (proj2 (keys_match_without_case "Feels_Like" "feels_like" eq_refl))
           [] []).
Defined.

(** ** An answer without [current] *)

Lemma feel_of_Current (r r' : OpenWeatherOneCallResponse) :
  FeelsLike (Current r) = FeelsLike (Current r') ->
  GetCurrentTemperatureFeel r = GetCurrentTemperatureFeel r'.
Proof. intros E. unfold GetCurrentTemperatureFeel. now rewrite E. Qed.

(** X19. When the provider's answer is an object without a [current] member
    (as its error answers are) and decodes without error, the service
    still answers 200: the time stamp is that of the epoch in the zone
    of the process, the feel is ["cold"] (the temperature is read as 0
    kelvin), and there are no conditions. *)
Theorem answer_without_current
        (apiKey : string) (local : Time.Location)
        (upstream : UpstreamCall -> UpstreamReply)
        (target lat lon : string) (flat flon : float64)
        (code : Z) (members : list (string * value)) :
  segments target = weather_segments lat lon ->
  MatchString signed_decimal lat = true ->
  MatchString signed_decimal lon = true ->
  ParseFloat lat 64 = (flat, None) ->
  ParseFloat lon 64 = (flon, None) ->
  upstream {| call_lat := flat; call_lon := flon; call_appid := apiKey |}
  = Replies code (WellFormed (Object members)) ->
  lacks members "current" ->
  snd (decode_Response (Object members) zeroResponse) = [] ->
  writer (serve apiKey local upstream "GET" target)
  = {| status := Some 200;
       body := [Encoded
                  (Object
                     [("Timestamp", Str (Time.FormatRFC3339 (Time.Unix local 0)));
                      ("CurrentTemperatureFeel", Str "cold");
                      ("current_conditions", Array []);
                      ("alerts",
                       Array (map alert_json
                                  (items (Alerts (fst (decode_Response (Object members)
                                                                       zeroResponse))))))])]
    |}.
Proof.
  intros Hsegs Hlat Hlon P1 P2 Hup Hlacks Herr.
  rewrite (serve_handled apiKey local upstream target lat lon flat flon
                         Hsegs Hlat Hlon P1 P2).
  cbv zeta. rewrite Hup. unfold provider_result, Unmarshal.
  pose proof (Response_lacks_current members zeroResponse Hlacks) as Hc.
  destruct (decode_Response (Object members) zeroResponse) as [r errs].
  cbn [fst snd] in *. subst errs. cbn [head writer].
  rewrite report_eq.
  rewrite (feel_of_Current r zeroResponse) by now rewrite Hc.
  rewrite Hc. reflexivity.
Qed.

Lemma answer_without_current_witness :
  writer (serve "key" Time.UTC rejecting_provider "GET" "/weather/lat/40.7/lon/-74.0")
  = {| status := Some 200;
       body := [Encoded (Object [("Timestamp", Str "1970-01-01T00:00:00Z");
                                 ("CurrentTemperatureFeel", Str "cold");
                                 ("current_conditions", Array []);
                                 ("alerts", Array [])])] |}.
Proof.
  refine (answer_without_current
            "key" Time.UTC rejecting_provider "/weather/lat/40.7/lon/-74.0"
            "40.7" "-74.0" (fst (ParseFloat "40.7" 64)) (fst (ParseFloat "-74.0" 64))
            401 [("cod", Number "401"); ("message", Str "Invalid API key.")]
            eq_refl eq_refl eq_refl eq_refl eq_refl eq_refl _ eq_refl).
  repeat constructor; discriminate.
Defined.

(** ** The feel follows the temperature *)

Lemma feel_rank_cases (r : OpenWeatherOneCallResponse) :
  let t := FeelsLike (Current r) in
  feel_rank (GetCurrentTemperatureFeel r)
  = if SFltb t c277 then 0%nat else if SFleb t c297 then 1%nat else 2%nat.
Proof.
  cbv zeta. unfold GetCurrentTemperatureFeel.
  destruct (SFltb _ c277); [reflexivity|].
  destruct (SFleb _ c297); reflexivity.
Qed.

(** X20. [GetCurrentTemperatureFeel] is monotone: a higher temperature never
    gets a colder word.  And the values that are no temperatures have
    their word too: a NaN and the positive infinity are ["hot"] (both
    comparisons being false for a NaN), the negative infinity and the
    two zeros are ["cold"]. *)
Theorem temperature_feel_is_monotone :
  (forall r1 r2 : OpenWeatherOneCallResponse,
      let t1 := FeelsLike (Current r1) in
      let t2 := FeelsLike (Current r2) in
      valid32 t1 = true -> is_finite t1 = true ->
      valid32 t2 = true -> is_finite t2 = true ->
      units32 t1 <= units32 t2 ->
      (feel_rank (GetCurrentTemperatureFeel r1)
       <= feel_rank (GetCurrentTemperatureFeel r2))%nat)
  /\ GetCurrentTemperatureFeel (with_feels_like S754_nan) = "hot"
  /\ GetCurrentTemperatureFeel (with_feels_like (S754_infinity false)) = "hot"
  /\ GetCurrentTemperatureFeel (with_feels_like (S754_infinity true)) = "cold"
  /\ (forall s, GetCurrentTemperatureFeel (with_feels_like (S754_zero s)) = "cold").
Proof.
  split; [|repeat split; intros []; reflexivity].
  intros r1 r2 t1 t2 V1 F1 V2 F2 Hle.
  rewrite !feel_rank_cases. fold t1 t2.
  destruct (order_with_constants t1 V1 F1) as (A1 & _ & B1 & _).
  destruct (order_with_constants t2 V2 F2) as (A2 & _ & B2 & _).
  revert A1 B1 A2 B2 Hle.
  generalize (kelvin 277) (kelvin 297) (units32 t1) (units32 t2).
  intros k1 k2 u1 u2 A1 B1 A2 B2 Hle.
  destruct (SFltb t1 c277), (SFltb t2 c277), (SFleb t1 c297), (SFleb t2 c297);
    try lia; exfalso;
    repeat match goal with
           | H : true = true <-> _ |- _ => pose proof (proj1 H eq_refl); clear H
           | H : false = true <-> ?P |- _ =>
               assert (~ P) by (intros X; apply H in X; discriminate); clear H
           end; lia.
Qed.

Lemma temperature_feel_is_monotone_witness :
  (feel_rank (GetCurrentTemperatureFeel (with_feels_like (f32_of_Z 280)))
   <= feel_rank (GetCurrentTemperatureFeel (with_feels_like (f32_of_Z 300))))%nat.
Proof.
  apply (proj1 temperature_feel_is_monotone
               (with_feels_like (f32_of_Z 280)) (with_feels_like (f32_of_Z 300)));
    try reflexivity.
  vm_compute. discriminate.
Defined.

End TransformProperties.
